(** * diff-sampler: protocol demultiplexer and differential sampling loop

    A shallow embedding of [examples/diff-sampler/diff-sampler.cc]
    (functions [get_payload], [packetHandler], [load_aut] and [main]) together
    with the properties of the demultiplexer and of the sampling statistics.

    Conventions of the embedding:
    - [size_t] values are numbers of type [N] below [2^64]; every [size_t]
      addition is written with its wrap-around ([size_add], [size_incr]);
    - the global counters are the fields of the record [globals]; [++c] is
      [incr c];
    - [const u_char* packet] is the list of bytes that can be addressed from
      the pointer; the captured frame is its first [caplen] bytes.  A read
      past the end of the list has no defined behaviour in C++ and is the
      outcome [Undefined Read_outside_packet];
    - [assert(false)] ends the process: outcome [AssertFailed];
    - the two automata and [is_in_lang] belong to the Vata2 library and are
      parameters of the development. *)

From Stdlib Require Import String NArith List Bool Lia.
From Stdlib Require Import Strings.Byte.
Import ListNotations.

#[local] Open Scope N_scope.

(** ** Machine arithmetic *)

Definition size_t_modulus : N := 2 ^ 64.

Definition size_add (a b : N) : N := (a + b) mod size_t_modulus.

Definition size_incr (a : N) : N := size_add a 1.

(** ** Constants of the system headers *)

(* <net/ethernet.h> *)
Definition ETHERTYPE_IP : N := 0x0800.
Definition ETHERTYPE_VLAN : N := 0x8100.
Definition ETHERTYPE_IPV6 : N := 0x86dd.

(* <netinet/in.h> *)
Definition IPPROTO_ICMP : N := 1.
Definition IPPROTO_IPIP : N := 4.
Definition IPPROTO_TCP : N := 6.
Definition IPPROTO_UDP : N := 17.
Definition IPPROTO_IPV6 : N := 41.
Definition IPPROTO_FRAGMENT : N := 44.
Definition IPPROTO_GRE : N := 47.
Definition IPPROTO_ESP : N := 50.
Definition IPPROTO_ICMPV6 : N := 58.
Definition IPPROTO_PIM : N := 103.

(* sizeof of the header structures *)
Definition sizeof_ether_header : N := 14.
Definition sizeof_vlan_ethhdr : N := 18.
Definition sizeof_ip : N := 20.
Definition sizeof_ip6_hdr : N := 40.
Definition sizeof_udphdr : N := 8.
Definition sizeof_icmphdr : N := 8.
Definition sizeof_icmp6_hdr : N := 8.
Definition sizeof_ip6_frag : N := 8.

(* offsets of the fields that are read *)
Definition offsetof_ether_type : N := 12.       (* ether_header::ether_type *)
Definition offsetof_vlan_ether_type : N := 16.  (* vlan_ethhdr::ether_type *)
Definition offsetof_ip_p : N := 9.              (* ip::ip_p *)
Definition offsetof_ip6_nxt : N := 6.           (* ip6_hdr::ip6_nxt *)
Definition offsetof_ip6f_nxt : N := 0.          (* ip6_frag::ip6f_nxt *)
Definition offsetof_th_off : N := 12.           (* byte holding tcphdr::th_off *)

(* <stdlib.h> *)
Definition EXIT_SUCCESS : N := 0.
Definition EXIT_FAILURE : N := 1.

(** ** Outcomes *)

Inductive undefined_behaviour : Type :=
  | Read_outside_packet
  | Index_outside_vector.

Inductive result (A : Type) : Type :=
  | Ok (a : A)
  | AssertFailed
  | Undefined (why : undefined_behaviour)
  | OutOfFuel.

Arguments Ok {A} a.
Arguments AssertFailed {A}.
Arguments Undefined {A} why.
Arguments OutOfFuel {A}.

Definition bind {A B : Type} (r : result A) (k : A -> result B) : result B :=
  match r with
  | Ok a => k a
  | AssertFailed => AssertFailed
  | Undefined why => Undefined why
  | OutOfFuel => OutOfFuel
  end.

Notation "x <- r ;; k" := (bind r (fun x => k))
  (at level 61, r at next level, right associativity).

Notation "' p <- r ;; k" := (bind r (fun x => match x with p => k end))
  (at level 61, p pattern, r at next level, right associativity).

(** ** Standard output *)

Inductive output : Type :=
  | Out_l4_protocol (l4_proto : N)  (* "L4 protocol over IPv4: " l4_proto *)
  | Out_tick                        (* "#" *)
  | Out_usage (prog_name : string)
  | Err_loading_automata (what : string)
  | Out_automaton (label dump : string)
  | Out_pcap_open_offline_failed (errbuf : string)
  | Out_pcap_loop_failed (err : string)
  | Out_report (label : string) (value : N)
  | Out_time.

(** ** Global variables *)

Inductive counter : Type :=
  | Total_packets
  | Payloaded_packets
  | Vlan_packets
  | Ipv4_packets
  | Ipv6_packets
  | Tcp_packets
  | Udp_packets
  | Ipip_packets
  | Esp_packets
  | Icmp_packets
  | Gre_packets
  | Icmp6_packets
  | V6_fragment_packets
  | Ip6_in_ip4_packets
  | Pim_packets
  | Other_l3_packets
  | Other_l4_packets
  | Incons_packets
  | Accepted_aut1
  | Accepted_aut2.

Definition counter_eqb (a b : counter) : bool :=
  match a, b with
  | Total_packets, Total_packets
  | Payloaded_packets, Payloaded_packets
  | Vlan_packets, Vlan_packets
  | Ipv4_packets, Ipv4_packets
  | Ipv6_packets, Ipv6_packets
  | Tcp_packets, Tcp_packets
  | Udp_packets, Udp_packets
  | Ipip_packets, Ipip_packets
  | Esp_packets, Esp_packets
  | Icmp_packets, Icmp_packets
  | Gre_packets, Gre_packets
  | Icmp6_packets, Icmp6_packets
  | V6_fragment_packets, V6_fragment_packets
  | Ip6_in_ip4_packets, Ip6_in_ip4_packets
  | Pim_packets, Pim_packets
  | Other_l3_packets, Other_l3_packets
  | Other_l4_packets, Other_l4_packets
  | Incons_packets, Incons_packets
  | Accepted_aut1, Accepted_aut1
  | Accepted_aut2, Accepted_aut2 => true
  | _, _ => false
  end.

(* [packet_lengths] is [std::vector<size_t> packet_lengths(2048)]. *)
Record globals : Type := mkGlobals {
  total_packets : N;
  payloaded_packets : N;
  vlan_packets : N;
  ipv4_packets : N;
  ipv6_packets : N;
  tcp_packets : N;
  udp_packets : N;
  ipip_packets : N;
  esp_packets : N;
  icmp_packets : N;
  gre_packets : N;
  icmp6_packets : N;
  v6_fragment_packets : N;
  ip6_in_ip4_packets : N;
  pim_packets : N;
  other_l3_packets : N;
  other_l4_packets : N;
  incons_packets : N;
  accepted_aut1 : N;
  accepted_aut2 : N;
  packet_lengths : list N;
  cout : list output
}.

Definition value_of (k : counter) (g : globals) : N :=
  match k with
  | Total_packets => total_packets g
  | Payloaded_packets => payloaded_packets g
  | Vlan_packets => vlan_packets g
  | Ipv4_packets => ipv4_packets g
  | Ipv6_packets => ipv6_packets g
  | Tcp_packets => tcp_packets g
  | Udp_packets => udp_packets g
  | Ipip_packets => ipip_packets g
  | Esp_packets => esp_packets g
  | Icmp_packets => icmp_packets g
  | Gre_packets => gre_packets g
  | Icmp6_packets => icmp6_packets g
  | V6_fragment_packets => v6_fragment_packets g
  | Ip6_in_ip4_packets => ip6_in_ip4_packets g
  | Pim_packets => pim_packets g
  | Other_l3_packets => other_l3_packets g
  | Other_l4_packets => other_l4_packets g
  | Incons_packets => incons_packets g
  | Accepted_aut1 => accepted_aut1 g
  | Accepted_aut2 => accepted_aut2 g
  end.

(* [++k] *)
Definition incr (k : counter) (g : globals) : globals :=
  let v x := if counter_eqb k x then size_incr (value_of x g) else value_of x g in
  {| total_packets := v Total_packets;
     payloaded_packets := v Payloaded_packets;
     vlan_packets := v Vlan_packets;
     ipv4_packets := v Ipv4_packets;
     ipv6_packets := v Ipv6_packets;
     tcp_packets := v Tcp_packets;
     udp_packets := v Udp_packets;
     ipip_packets := v Ipip_packets;
     esp_packets := v Esp_packets;
     icmp_packets := v Icmp_packets;
     gre_packets := v Gre_packets;
     icmp6_packets := v Icmp6_packets;
     v6_fragment_packets := v V6_fragment_packets;
     ip6_in_ip4_packets := v Ip6_in_ip4_packets;
     pim_packets := v Pim_packets;
     other_l3_packets := v Other_l3_packets;
     other_l4_packets := v Other_l4_packets;
     incons_packets := v Incons_packets;
     accepted_aut1 := v Accepted_aut1;
     accepted_aut2 := v Accepted_aut2;
     packet_lengths := packet_lengths g;
     cout := cout g |}.

Definition set_packet_lengths (v : list N) (g : globals) : globals :=
  {| total_packets := total_packets g;
     payloaded_packets := payloaded_packets g;
     vlan_packets := vlan_packets g;
     ipv4_packets := ipv4_packets g;
     ipv6_packets := ipv6_packets g;
     tcp_packets := tcp_packets g;
     udp_packets := udp_packets g;
     ipip_packets := ipip_packets g;
     esp_packets := esp_packets g;
     icmp_packets := icmp_packets g;
     gre_packets := gre_packets g;
     icmp6_packets := icmp6_packets g;
     v6_fragment_packets := v6_fragment_packets g;
     ip6_in_ip4_packets := ip6_in_ip4_packets g;
     pim_packets := pim_packets g;
     other_l3_packets := other_l3_packets g;
     other_l4_packets := other_l4_packets g;
     incons_packets := incons_packets g;
     accepted_aut1 := accepted_aut1 g;
     accepted_aut2 := accepted_aut2 g;
     packet_lengths := v;
     cout := cout g |}.

(* [std::cout << o] *)
Definition cout_put (o : output) (g : globals) : globals :=
  {| total_packets := total_packets g;
     payloaded_packets := payloaded_packets g;
     vlan_packets := vlan_packets g;
     ipv4_packets := ipv4_packets g;
     ipv6_packets := ipv6_packets g;
     tcp_packets := tcp_packets g;
     udp_packets := udp_packets g;
     ipip_packets := ipip_packets g;
     esp_packets := esp_packets g;
     icmp_packets := icmp_packets g;
     gre_packets := gre_packets g;
     icmp6_packets := icmp6_packets g;
     v6_fragment_packets := v6_fragment_packets g;
     ip6_in_ip4_packets := ip6_in_ip4_packets g;
     pim_packets := pim_packets g;
     other_l3_packets := other_l3_packets g;
     other_l4_packets := other_l4_packets g;
     incons_packets := incons_packets g;
     accepted_aut1 := accepted_aut1 g;
     accepted_aut2 := accepted_aut2 g;
     packet_lengths := packet_lengths g;
     cout := cout g ++ [o] |}.

(* values of the globals when [main] starts *)
Definition initial_globals : globals :=
  {| total_packets := 0;
     payloaded_packets := 0;
     vlan_packets := 0;
     ipv4_packets := 0;
     ipv6_packets := 0;
     tcp_packets := 0;
     udp_packets := 0;
     ipip_packets := 0;
     esp_packets := 0;
     icmp_packets := 0;
     gre_packets := 0;
     icmp6_packets := 0;
     v6_fragment_packets := 0;
     ip6_in_ip4_packets := 0;
     pim_packets := 0;
     other_l3_packets := 0;
     other_l4_packets := 0;
     incons_packets := 0;
     accepted_aut1 := 0;
     accepted_aut2 := 0;
     packet_lengths := repeat 0 2048;
     cout := [] |}.

(** ** Frames *)

(* [pcap_pkthdr]: [caplen] bytes of the frame are present in the buffer,
   [len] is the length of the frame on the wire (both [bpf_u_int32]); the
   time stamp is never read. *)
Record pcap_pkthdr : Type := { caplen : N; len : N }.

Definition Symbol : Type := N.
Definition Word : Type := list Symbol.

(* [*(packet + off)] *)
Definition read_u8 (packet : list byte) (off : N) : result N :=
  match nth_error packet (N.to_nat off) with
  | Some b => Ok (Byte.to_N b)
  | None => Undefined Read_outside_packet
  end.

(* [ntohs] of the 16-bit field stored at [packet + off] *)
Definition read_ntohs (packet : list byte) (off : N) : result N :=
  hi <- read_u8 packet off ;;
  lo <- read_u8 packet (off + 1) ;;
  Ok (hi * 256 + lo).

(* The two operands of the [Word] that [get_payload] returns. *)
Inductive word_range : Type :=
  | No_range                  (* [Word()] *)
  | Range (first last : N).   (* [Word(packet + first, packet + last)] *)

(* the bytes [first, last) of the packet, as symbols *)
Definition slice (packet : list byte) (first last : N) : Word :=
  map Byte.to_N
    (firstn (N.to_nat (last - first)) (skipn (N.to_nat first) packet)).

(* Construction of the [Word] from the range: every byte of the range is
   read. *)
Definition make_word (packet : list byte) (r : word_range) : result Word :=
  match r with
  | No_range => Ok []
  | Range first last =>
      if (first <? last) && (N.of_nat (length packet) <? last)
      then Undefined Read_outside_packet
      else Ok (slice packet first last)
  end.

(* [payload.empty()] *)
Definition empty (w : Word) : bool :=
  match w with [] => true | _ :: _ => false end.

(** ** [get_payload] *)

(* How one pass through the body of [while (processing)] ends. *)
Inductive loop_exit : Type :=
  | Fall_through (offset : N)   (* [processing] stayed false *)
  | Return_empty.               (* [return Word();] *)

Inductive iteration : Type :=
  | Continue (g : globals) (ip_in_ip : bool) (l4_proto offset : N)
  | Exit (g : globals) (e : loop_exit).

(* The body of the loop, lines 229-311. *)
Definition l4_iteration (g : globals) (packet : list byte)
    (ip_in_ip : bool) (l4_proto offset : N) : result iteration :=
  if l4_proto =? IPPROTO_TCP then
    let g := incr Tcp_packets g in
    b <- read_u8 packet (offset + offsetof_th_off) ;;
    let tcp_hdr_size := N.shiftr b 4 * 4 in
    Ok (Exit g (Fall_through (size_add offset tcp_hdr_size)))
  else if l4_proto =? IPPROTO_UDP then
    let g := incr Udp_packets g in
    Ok (Exit g (Fall_through (size_add offset sizeof_udphdr)))
  else if l4_proto =? IPPROTO_IPIP then
    let g := incr Ipip_packets g in
    if ip_in_ip then AssertFailed
    else
      ip_p <- read_u8 packet (offset + offsetof_ip_p) ;;
      Ok (Continue g true ip_p (size_add offset sizeof_ip))
  else if l4_proto =? IPPROTO_ESP then
    let g := incr Esp_packets g in
    Ok (Exit g (Fall_through (size_add offset 8)))
  else if l4_proto =? IPPROTO_ICMP then
    let g := incr Icmp_packets g in
    Ok (Exit g (Fall_through (size_add offset sizeof_icmphdr)))
  else if l4_proto =? IPPROTO_GRE then
    let g := incr Gre_packets g in
    Ok (Exit g Return_empty)
  else if l4_proto =? IPPROTO_ICMPV6 then
    let g := incr Icmp6_packets g in
    Ok (Exit g (Fall_through (size_add offset sizeof_icmp6_hdr)))
  else if l4_proto =? IPPROTO_FRAGMENT then
    let g := incr V6_fragment_packets g in
    ip6f_nxt <- read_u8 packet (offset + offsetof_ip6f_nxt) ;;
    Ok (Continue g ip_in_ip ip6f_nxt (size_add offset sizeof_ip6_frag))
  else if l4_proto =? IPPROTO_IPV6 then
    let g := incr Ip6_in_ip4_packets g in
    (* [l4_proto = ip_hdr->ip6_nxt;] is read and then never used:
       [processing] is still false *)
    _ <- read_u8 packet (offset + offsetof_ip6_nxt) ;;
    Ok (Exit g (Fall_through (size_add offset sizeof_ip6_hdr)))
  else if l4_proto =? IPPROTO_PIM then
    let g := incr Pim_packets g in
    Ok (Exit g Return_empty)
  else
    let g := cout_put (Out_l4_protocol l4_proto) g in
    let g := incr Other_l4_packets g in
    Ok (Exit g Return_empty).

(* [while (processing) { ... }], lines 226-312 *)
Fixpoint l4_loop (fuel : nat) (g : globals) (packet : list byte)
    (ip_in_ip : bool) (l4_proto offset : N) : result (globals * loop_exit) :=
  match fuel with
  | O => OutOfFuel
  | S fuel' =>
      it <- l4_iteration g packet ip_in_ip l4_proto offset ;;
      match it with
      | Continue g' ip_in_ip' l4_proto' offset' =>
          l4_loop fuel' g' packet ip_in_ip' l4_proto' offset'
      | Exit g' e => Ok (g', e)
      end
  end.

(* The protocol numbers on which the successive iterations dispatch. *)
Fixpoint l4_protocols (fuel : nat) (g : globals) (packet : list byte)
    (ip_in_ip : bool) (l4_proto offset : N) : list N :=
  match fuel with
  | O => []
  | S fuel' =>
      l4_proto ::
      match l4_iteration g packet ip_in_ip l4_proto offset with
      | Ok (Continue g' ip_in_ip' l4_proto' offset') =>
          l4_protocols fuel' g' packet ip_in_ip' l4_proto' offset'
      | _ => []
      end
  end.

(* Every iteration that continues has read a byte at or after [offset] and
   moved [offset] forward, and IP-in-IP continues once. *)
Definition loop_fuel (packet : list byte) : nat := S (S (length packet)).

(* Lines 184-194: link layer.  Returns the globals, [offset], [ether_type]. *)
Definition link_layer (g : globals) (packet : list byte)
    : result (globals * N * N) :=
  let offset := sizeof_ether_header in
  ether_type <- read_ntohs packet offsetof_ether_type ;;
  if ether_type =? ETHERTYPE_VLAN then
    let g := incr Vlan_packets g in
    let offset := sizeof_vlan_ethhdr in
    ether_type <- read_ntohs packet offsetof_vlan_ether_type ;;
    Ok (g, offset, ether_type)
  else Ok (g, offset, ether_type).

(* Lines 200-222: network layer.  [None] stands for [return Word();]. *)
Definition network_layer (g : globals) (packet : list byte)
    (offset ether_type : N) : result (globals * option (N * N)) :=
  if ether_type =? ETHERTYPE_IP then
    let g := incr Ipv4_packets g in
    l4_proto <- read_u8 packet (offset + offsetof_ip_p) ;;
    Ok (g, Some (l4_proto, size_add offset sizeof_ip))
  else if ether_type =? ETHERTYPE_IPV6 then
    let g := incr Ipv6_packets g in
    l4_proto <- read_u8 packet (offset + offsetof_ip6_nxt) ;;
    Ok (g, Some (l4_proto, size_add offset sizeof_ip6_hdr))
  else
    let g := incr Other_l3_packets g in
    Ok (g, None).

(* [get_payload] up to the operands of the [Word] it returns. *)
Definition get_payload_range (g : globals) (pkthdr : pcap_pkthdr)
    (packet : list byte) : result (globals * word_range) :=
  '(g, offset, ether_type) <- link_layer g packet ;;
  '(g, l3) <- network_layer g packet offset ether_type ;;
  match l3 with
  | None => Ok (g, No_range)
  | Some (l4_proto, offset) =>
      '(g, e) <- l4_loop (loop_fuel packet) g packet false l4_proto offset ;;
      match e with
      | Return_empty => Ok (g, No_range)
      | Fall_through offset =>
          Ok (g, Range offset (N.max (len pkthdr) offset))
      end
  end.

Definition get_payload (g : globals) (pkthdr : pcap_pkthdr)
    (packet : list byte) : result (globals * Word) :=
  '(g, r) <- get_payload_range g pkthdr packet ;;
  w <- make_word packet r ;;
  Ok (g, w).

(** ** [packetHandler] and the capture loop *)

(* [v[i] += 1] on a [std::vector<size_t>]; [operator[]] checks nothing. *)
Definition vector_incr (v : list N) (i : N) : result (list N) :=
  match nth_error v (N.to_nat i) with
  | Some x =>
      Ok (firstn (N.to_nat i) v ++ size_incr x :: skipn (S (N.to_nat i)) v)
  | None => Undefined Index_outside_vector
  end.

Definition frame : Type := pcap_pkthdr * list byte.

(* the lines of the final report *)
Definition is_report (o : output) : bool :=
  match o with Out_report _ _ | Out_time => true | _ => false end.

Section Sampler.

(* [Vata2::Nfa::Nfa] and [Vata2::Nfa::is_in_lang] *)
Context {Nfa : Type} (is_in_lang : Nfa -> Word -> bool).

(* [aut1] and [aut2] are assigned once, in [main], before the first frame
   is handled. *)
Definition packetHandler (aut1 aut2 : Nfa) (g : globals)
    (pkthdr : pcap_pkthdr) (packet : list byte) : result globals :=
  v <- vector_incr (packet_lengths g) (len pkthdr) ;;
  let g := set_packet_lengths v g in
  let g := incr Total_packets g in
  '(g, payload) <- get_payload g pkthdr packet ;;
  if empty payload then Ok g
  else
    let g := incr Payloaded_packets g in
    let in_aut1 := is_in_lang aut1 payload in
    let in_aut2 := is_in_lang aut2 payload in
    let g := if in_aut1 then incr Accepted_aut1 g else g in
    let g := if in_aut2 then incr Accepted_aut2 g else g in
    let g := if negb (Bool.eqb in_aut1 in_aut2)
             then incr Incons_packets g else g in
    let g := if total_packets g mod 1000 =? 0
             then cout_put Out_tick g else g in
    Ok g.

(* [pcap_loop(descr, 0, callback, nullptr)] over the frames of the capture:
   one call of the callback per frame, in the order of the file. *)
Fixpoint pcap_loop (callback : globals -> pcap_pkthdr -> list byte ->
                               result globals)
    (g : globals) (frames : list frame) : result globals :=
  match frames with
  | [] => Ok g
  | (pkthdr, packet) :: rest =>
      g' <- callback g pkthdr packet ;;
      pcap_loop callback g' rest
  end.

(* The run of the sampler over a capture, from the initial globals. *)
Definition sample (aut1 aut2 : Nfa) (frames : list frame) : result globals :=
  pcap_loop (packetHandler aut1 aut2) initial_globals frames.

(* Ordinals (from 0) of the frames at which [incons_packets] moved. *)
Fixpoint disagreeing_from (aut1 aut2 : Nfa) (g : globals) (ordinal : nat)
    (frames : list frame) : list nat :=
  match frames with
  | [] => []
  | (pkthdr, packet) :: rest =>
      match packetHandler aut1 aut2 g pkthdr packet with
      | Ok g' =>
          (if incons_packets g' =? incons_packets g then [] else [ordinal])
          ++ disagreeing_from aut1 aut2 g' (S ordinal) rest
      | _ => []
      end
  end.

Definition disagreeing_frames (aut1 aut2 : Nfa) (frames : list frame)
    : list nat :=
  disagreeing_from aut1 aut2 initial_globals 0 frames.

(** ** [load_aut] and [main] *)

Section Main.

(* The file system, the VTF parser and libpcap. *)
Context {Stream ParsedSection : Type}.
(* [std::ifstream input(file_name)]; [None] when [is_open()] is false *)
Context (ifstream : string -> option Stream).
(* [inl what]: a [std::exception] is thrown *)
Context (parse_vtf_section : Stream -> string + ParsedSection).
Context (construct : ParsedSection -> string + Nfa).
Context (to_string : Nfa -> string).

(* An opened capture: its frames, and the error that ends the reading
   when there is one ([pcap_loop] is then negative). *)
Record pcap_t : Type := { pcap_frames : list frame;
                          pcap_geterr : option string }.

(* [inl errbuf]: [nullptr] is returned *)
Context (pcap_open_offline : string -> string + pcap_t).

Definition load_aut (file_name : string) : string + Nfa :=
  match ifstream file_name with
  | Some input =>
      match parse_vtf_section input with
      | inr parsec => construct parsec
      | inl what => inl what
      end
  | None => inl ("Cannot open file " ++ file_name)%string
  end.

(* Lines 143-166 *)
Definition report (packets_file : string) (g : globals) : globals :=
  let line label k g := cout_put (Out_report label (value_of k g)) g in
  let g := line ("Total packets in " ++ packets_file)%string
                Total_packets g in
  let g := line "Packets with VLAN"%string Vlan_packets g in
  let g := line "Packets with IPv4"%string Ipv4_packets g in
  let g := line "Packets with IPv6"%string Ipv6_packets g in
  let g := line "Packets with other L3 (not processed)"%string
                Other_l3_packets g in
  let g := line "Packets with TCP"%string Tcp_packets g in
  let g := line "Packets with UDP"%string Udp_packets g in
  let g := line "Packets with IPv4-in-IPv4"%string Ipip_packets g in
  let g := line "Packets with ESP"%string Esp_packets g in
  let g := line "Packets with ICMP"%string Icmp_packets g in
  let g := line "Packets with GRE (not processed)"%string Gre_packets g in
  let g := line "Packets with ICMPv6"%string Icmp6_packets g in
  let g := line "Packets with IPv6 fragment"%string
                V6_fragment_packets g in
  let g := line "Packets with IPv6-in-IPv4"%string Ip6_in_ip4_packets g in
  let g := line "Packets with PIM (not processed)"%string Pim_packets g in
  let g := line "Packets with other L4 (not processed)"%string
                Other_l4_packets g in
  let g := line "Packets with payload"%string Payloaded_packets g in
  let g := line "Accepted in Aut1"%string Accepted_aut1 g in
  let g := line "Accepted in Aut2"%string Accepted_aut2 g in
  let g := line "Inconsistent packets"%string Incons_packets g in
  cout_put Out_time g.

(* [main]: the exit code and the globals (with everything written) when
   it returns. *)
Definition main (argv : list string) : result (N * globals) :=
  let g := initial_globals in
  match argv with
  | [_; aut1_file; aut2_file; packets_file] =>
      match load_aut aut1_file with
      | inl what => Ok (EXIT_FAILURE, cout_put (Err_loading_automata what) g)
      | inr aut1 =>
      match load_aut aut2_file with
      | inl what => Ok (EXIT_FAILURE, cout_put (Err_loading_automata what) g)
      | inr aut2 =>
          let g := cout_put (Out_automaton "aut1" (to_string aut1)) g in
          let g := cout_put (Out_automaton "aut2" (to_string aut2)) g in
          match pcap_open_offline packets_file with
          | inl errbuf =>
              Ok (EXIT_FAILURE,
                  cout_put (Out_pcap_open_offline_failed errbuf) g)
          | inr descr =>
              g <- pcap_loop (packetHandler aut1 aut2) g
                     (pcap_frames descr) ;;
              match pcap_geterr descr with
              | Some err =>
                  Ok (EXIT_FAILURE, cout_put (Out_pcap_loop_failed err) g)
              | None => Ok (EXIT_SUCCESS, report packets_file g)
              end
          end
      end
      end
  | _ => Ok (EXIT_FAILURE, cout_put (Out_usage (hd ""%string argv)) g)
  end.

(* The start-up errors: wrong number of arguments, an automaton that
   cannot be loaded, a capture that cannot be opened. *)
Definition startup_failure (argv : list string) : Prop :=
  length argv <> 4%nat \/
  exists prog aut1_file aut2_file packets_file,
    argv = [prog; aut1_file; aut2_file; packets_file] /\
    ((exists what, load_aut aut1_file = inl what) \/
     (exists what, load_aut aut2_file = inl what) \/
     (exists errbuf, pcap_open_offline packets_file = inl errbuf)).

(* a line of the report has been written *)
Definition reported (g : globals) : bool := existsb is_report (cout g).

End Main.

End Sampler.

(** ** Notions used by the statements *)

(* What [get_payload] does with a frame does not depend on the counters
   (lemma [get_payload_range_outcome]); these read it off a call made with
   the initial globals. *)
Definition frame_range (f : frame) : result word_range :=
  '(_, r) <- get_payload_range initial_globals (fst f) (snd f) ;; Ok r.

Definition frame_word (f : frame) : result Word :=
  '(_, w) <- get_payload initial_globals (fst f) (snd f) ;; Ok w.

(* the frame yields an empty payload *)
Definition empty_payload_frame (f : frame) : bool :=
  match frame_word f with Ok w => empty w | _ => false end.

(* the loop falls through with the declared length not above the offset *)
Definition truncated_frame (f : frame) : bool :=
  match frame_range f with
  | Ok (Range first _) => len (fst f) <=? first
  | _ => false
  end.

Definition count_frames (p : frame -> bool) (frames : list frame) : N :=
  N.of_nat (length (filter p frames)).

(* the protocol numbers the transport loop dispatches on for a packet *)
Definition frame_l4_protocols (packet : list byte) : list N :=
  match link_layer initial_globals packet with
  | Ok (g, offset, ether_type) =>
      match network_layer g packet offset ether_type with
      | Ok (g, Some (l4_proto, offset)) =>
          l4_protocols (loop_fuel packet) g packet false l4_proto offset
      | _ => []
      end
  | _ => []
  end.

Definition count_protocol (p : N) (l : list N) : nat :=
  length (filter (fun x => x =? p) l).

Definition is_tick (o : output) : bool :=
  match o with Out_tick => true | _ => false end.

Definition ticks (g : globals) : nat := length (filter is_tick (cout g)).

(* the captured frame: the first [caplen] bytes *)
Definition frame_buffer (pkthdr : pcap_pkthdr) (packet : list byte)
    : list byte :=
  firstn (N.to_nat (caplen pkthdr)) packet.

(* well-formed frame: the captured bytes are there *)
Definition captured (pkthdr : pcap_pkthdr) (packet : list byte) : Prop :=
  caplen pkthdr <= N.of_nat (length packet).

(* the counters of the network layer *)
Definition l3_counter (k : counter) : bool :=
  match k with
  | Ipv4_packets | Ipv6_packets | Other_l3_packets => true
  | _ => false
  end.

(* the counters of the transport loop *)
Definition l4_counter (k : counter) : bool :=
  match k with
  | Tcp_packets | Udp_packets | Ipip_packets | Esp_packets | Icmp_packets
  | Gre_packets | Icmp6_packets | V6_fragment_packets | Ip6_in_ip4_packets
  | Pim_packets | Other_l4_packets => true
  | _ => false
  end.

(* the counters next to which [get_payload] executes [return Word();] *)
Definition no_payload_counter (k : counter) : bool :=
  match k with
  | Other_l3_packets | Other_l4_packets | Gre_packets | Pim_packets => true
  | _ => false
  end.

(* the counters that [packetHandler] itself increments after the payload
   has been found not empty *)
Definition sampling_counter (k : counter) : bool :=
  match k with
  | Payloaded_packets | Accepted_aut1 | Accepted_aut2 | Incons_packets => true
  | _ => false
  end.

(* the counters that [get_payload] never touches *)
Definition handler_counter (k : counter) : bool :=
  match k with
  | Total_packets => true
  | _ => sampling_counter k
  end.

(* what an iteration leaves besides the globals *)
Definition iteration_shape (it : iteration) : (bool * N * N) + loop_exit :=
  match it with
  | Continue _ ip_in_ip l4_proto offset => inl (ip_in_ip, l4_proto, offset)
  | Exit _ e => inr e
  end.

Definition iteration_globals (it : iteration) : globals :=
  match it with Continue g _ _ _ => g | Exit g _ => g end.

Definition result_map {A B : Type} (f : A -> B) (r : result A) : result B :=
  x <- r ;; Ok (f x).

(* The relation between the counters of the network layer and the frames
   handled so far. *)
Definition l3_invariant (g : globals) (done : list frame) : Prop :=
  (ipv4_packets g + ipv6_packets g + other_l3_packets g)
    mod size_t_modulus = total_packets g /\
  (N.of_nat (length done) < size_t_modulus ->
   ipv4_packets g + ipv6_packets g + other_l3_packets g
   = N.of_nat (length done) /\
   total_packets g = N.of_nat (length done)).

(* The relation between the total, the payloaded frames and the frames
   without payload handled so far. *)
Definition payload_invariant (g : globals) (done : list frame) : Prop :=
  total_packets g
  = (payloaded_packets g + count_frames empty_payload_frame done)
      mod size_t_modulus /\
  (other_l3_packets g + other_l4_packets g + gre_packets g + pim_packets g
   + count_frames truncated_frame done) mod size_t_modulus
  = count_frames empty_payload_frame done mod size_t_modulus /\
  (N.of_nat (length done) < size_t_modulus ->
   total_packets g = N.of_nat (length done) /\
   total_packets g
   = payloaded_packets g + count_frames empty_payload_frame done /\
   count_frames empty_payload_frame done
   = other_l3_packets g + other_l4_packets g + gre_packets g + pim_packets g
     + count_frames truncated_frame done).

(* the bytes that can be addressed from [packet] fit in the address space *)
Definition addressable (packet : list byte) : Prop :=
  N.of_nat (length packet) + 64 <= size_t_modulus.

(* a bound on the number of iterations of the transport loop still to come *)
Definition loop_measure (packet : list byte) (ip_in_ip : bool) (offset : N)
    : nat :=
  (if ip_in_ip then 0 else 1) + (length packet - N.to_nat offset).

(* the globals of the run in which the two automata are exchanged *)
Definition swap_acceptors (g : globals) : globals :=
  {| total_packets := total_packets g;
     payloaded_packets := payloaded_packets g;
     vlan_packets := vlan_packets g;
     ipv4_packets := ipv4_packets g;
     ipv6_packets := ipv6_packets g;
     tcp_packets := tcp_packets g;
     udp_packets := udp_packets g;
     ipip_packets := ipip_packets g;
     esp_packets := esp_packets g;
     icmp_packets := icmp_packets g;
     gre_packets := gre_packets g;
     icmp6_packets := icmp6_packets g;
     v6_fragment_packets := v6_fragment_packets g;
     ip6_in_ip4_packets := ip6_in_ip4_packets g;
     pim_packets := pim_packets g;
     other_l3_packets := other_l3_packets g;
     other_l4_packets := other_l4_packets g;
     incons_packets := incons_packets g;
     accepted_aut1 := accepted_aut2 g;
     accepted_aut2 := accepted_aut1 g;
     packet_lengths := packet_lengths g;
     cout := cout g |}.

Definition iteration_map (f : globals -> globals) (it : iteration)
    : iteration :=
  match it with
  | Continue g ip_in_ip l4_proto offset =>
      Continue (f g) ip_in_ip l4_proto offset
  | Exit g e => Exit (f g) e
  end.

(* the globals of a run that starts after [pre] has been written *)
Definition after_output (pre : list output) (g : globals) : globals :=
  {| total_packets := total_packets g;
     payloaded_packets := payloaded_packets g;
     vlan_packets := vlan_packets g;
     ipv4_packets := ipv4_packets g;
     ipv6_packets := ipv6_packets g;
     tcp_packets := tcp_packets g;
     udp_packets := udp_packets g;
     ipip_packets := ipip_packets g;
     esp_packets := esp_packets g;
     icmp_packets := icmp_packets g;
     gre_packets := gre_packets g;
     icmp6_packets := icmp6_packets g;
     v6_fragment_packets := v6_fragment_packets g;
     ip6_in_ip4_packets := ip6_in_ip4_packets g;
     pim_packets := pim_packets g;
     other_l3_packets := other_l3_packets g;
     other_l4_packets := other_l4_packets g;
     incons_packets := incons_packets g;
     accepted_aut1 := accepted_aut1 g;
     accepted_aut2 := accepted_aut2 g;
     packet_lengths := packet_lengths g;
     cout := pre ++ cout g |}.

(* the counters next to which the loop ends with [processing] false *)
Definition data_counter (k : counter) : bool :=
  match k with
  | Tcp_packets | Udp_packets | Esp_packets | Icmp_packets | Icmp6_packets
  | Ip6_in_ip4_packets => true
  | _ => false
  end.

(* the protocol numbers for which the loop skips a header of 8 bytes and
   ends *)
Definition eight_byte_header (l4_proto : N) : option counter :=
  if l4_proto =? IPPROTO_UDP then Some Udp_packets
  else if l4_proto =? IPPROTO_ESP then Some Esp_packets
  else if l4_proto =? IPPROTO_ICMP then Some Icmp_packets
  else if l4_proto =? IPPROTO_ICMPV6 then Some Icmp6_packets
  else None.

(* the protocol numbers that the transport loop tests for *)
Definition known_l4_protocols : list N :=
  [IPPROTO_TCP; IPPROTO_UDP; IPPROTO_IPIP; IPPROTO_ESP; IPPROTO_ICMP;
   IPPROTO_GRE; IPPROTO_ICMPV6; IPPROTO_FRAGMENT; IPPROTO_IPV6; IPPROTO_PIM].

Definition is_l4_message (o : output) : bool :=
  match o with Out_l4_protocol _ => true | _ => false end.

Definition l4_messages (g : globals) : nat :=
  length (filter is_l4_message (cout g)).

(* what the handler writes to the standard output *)
Definition handler_output (o : output) : bool := is_tick o || is_l4_message o.

(* the counters next to which a frame is done with: the loop ends or
   [get_payload] returns *)
Definition final_counter (k : counter) : bool :=
  data_counter k || no_payload_counter k.

Definition final_sum (g : globals) : N :=
  tcp_packets g + udp_packets g + esp_packets g + icmp_packets g
  + icmp6_packets g + ip6_in_ip4_packets g
  + other_l3_packets g + other_l4_packets g + gre_packets g + pim_packets g.

(* the frames of a capture whose declared length is [n] *)
Definition has_length (n : N) (f : frame) : bool := len (fst f) =? n.

(** ** Concrete frames used by the examples *)

Definition bytes (l : list N) : list byte :=
  map (fun n => match Byte.of_N n with Some b => b | None => x00 end) l.

Definition zeros (k : nat) : list byte := repeat x00 k.

(* Ethernet/IPv4/UDP frame of 100 bytes on the wire of which 60 were
   captured; the 68 bytes after them in the reader's buffer hold 0xff. *)
Definition truncated_udp_hdr : pcap_pkthdr := {| caplen := 60; len := 100 |}.
Definition truncated_udp_packet : list byte :=
  zeros 12 ++ bytes [0x08; 0x00]
  ++ zeros 9 ++ bytes [17] ++ zeros 10
  ++ zeros 8
  ++ repeat x01 18 ++ repeat xff 68.

(* Ethernet/IPv4/IPv6/UDP frame: IPv4 protocol 41, next header 17 *)
Definition ip6_in_ip4_udp_hdr : pcap_pkthdr := {| caplen := 100; len := 100 |}.
Definition ip6_in_ip4_udp_packet : list byte :=
  zeros 12 ++ bytes [0x08; 0x00]
  ++ zeros 9 ++ bytes [41] ++ zeros 10
  ++ zeros 6 ++ bytes [17] ++ zeros 33
  ++ zeros 8
  ++ repeat x01 18.

(* Ethernet/IPv4/IPv4/UDP frame *)
Definition ipip_udp_hdr : pcap_pkthdr := {| caplen := 80; len := 80 |}.
Definition ipip_udp_packet : list byte :=
  zeros 12 ++ bytes [0x08; 0x00]
  ++ zeros 9 ++ bytes [4] ++ zeros 10
  ++ zeros 9 ++ bytes [17] ++ zeros 10
  ++ zeros 8
  ++ repeat x01 18.

(* Ethernet/IPv4/IPv4/IPv4/UDP frame *)
Definition ipip_ipip_udp_hdr : pcap_pkthdr := {| caplen := 100; len := 100 |}.
Definition ipip_ipip_udp_packet : list byte :=
  zeros 12 ++ bytes [0x08; 0x00]
  ++ zeros 9 ++ bytes [4] ++ zeros 10
  ++ zeros 9 ++ bytes [4] ++ zeros 10
  ++ zeros 9 ++ bytes [17] ++ zeros 10
  ++ zeros 8
  ++ repeat x01 18.

(* Ethernet/ARP frame *)
Definition arp_frame : frame :=
  ({| caplen := 60; len := 60 |}, zeros 12 ++ bytes [0x08; 0x06] ++ zeros 46).

(* Ethernet/IPv4/UDP frame with 18 bytes of payload, all 0x01 *)
Definition udp_frame : frame :=
  ({| caplen := 60; len := 60 |},
   zeros 12 ++ bytes [0x08; 0x00]
   ++ zeros 9 ++ bytes [17] ++ zeros 10
   ++ zeros 8
   ++ repeat x01 18).

(* Ethernet/IPv4/GRE frame *)
Definition gre_frame : frame :=
  ({| caplen := 60; len := 60 |},
   zeros 12 ++ bytes [0x08; 0x00]
   ++ zeros 9 ++ bytes [47] ++ zeros 10
   ++ zeros 26).

(* Ethernet/IPv4/UDP frame cut after the IPv4 header *)
Definition short_udp_frame : frame :=
  ({| caplen := 40; len := 40 |},
   zeros 12 ++ bytes [0x08; 0x00]
   ++ zeros 9 ++ bytes [17] ++ zeros 10
   ++ zeros 6).

(* Ethernet/IPv4/TCP frame, data offset 5, 6 bytes of payload *)
Definition tcp_frame : frame :=
  ({| caplen := 60; len := 60 |},
   zeros 12 ++ bytes [0x08; 0x00]
   ++ zeros 9 ++ bytes [6] ++ zeros 10
   ++ zeros 12 ++ bytes [0x50] ++ zeros 7
   ++ repeat x02 6).

(* 802.1Q/IPv6/UDP frame with 12 bytes of payload *)
Definition vlan_ipv6_udp_frame : frame :=
  ({| caplen := 78; len := 78 |},
   zeros 12 ++ bytes [0x81; 0x00; 0x00; 0x01; 0x86; 0xdd]
   ++ zeros 6 ++ bytes [17] ++ zeros 33
   ++ zeros 8
   ++ repeat x03 12).

(* frame with two 802.1Q tags *)
Definition qinq_frame : frame :=
  ({| caplen := 64; len := 64 |},
   zeros 12 ++ bytes [0x81; 0x00; 0x00; 0x01; 0x81; 0x00; 0x00; 0x02;
                      0x08; 0x00]
   ++ zeros 42).

(* Ethernet/IPv6 frame with a hop-by-hop options header (next header 0) *)
Definition hop_by_hop_frame : frame :=
  ({| caplen := 70; len := 70 |},
   zeros 12 ++ bytes [0x86; 0xdd]
   ++ zeros 6 ++ bytes [0] ++ zeros 33
   ++ zeros 16).

(* Ethernet/IPv6 frame with two fragment headers and a UDP header *)
Definition fragments_frame : frame :=
  ({| caplen := 90; len := 90 |},
   zeros 12 ++ bytes [0x86; 0xdd]
   ++ zeros 6 ++ bytes [44] ++ zeros 33
   ++ bytes [44] ++ zeros 7
   ++ bytes [17] ++ zeros 7
   ++ zeros 8
   ++ repeat x04 12).

(* 10 bytes: less than an Ethernet header *)
Definition runt_frame : frame :=
  ({| caplen := 10; len := 10 |}, zeros 10).

(* frames of several protocols, one of them with an unknown next header *)
Definition varied_capture : list frame :=
  [udp_frame; tcp_frame; hop_by_hop_frame; arp_frame; vlan_ipv6_udp_frame;
   udp_frame].

(* the four kinds of frames: with a payload, other L3, GRE, truncated *)
Definition mixed_capture : list frame :=
  [udp_frame; arp_frame; gre_frame; short_udp_frame].

(* 1000 frames, of which the last one is the ARP frame *)
Definition capture_ending_with_arp : list frame :=
  repeat udp_frame 999 ++ [arp_frame].

(* an acceptor given by its language, for the examples *)
Definition first_symbol_is (s : Symbol) (w : Word) : bool :=
  match w with x :: _ => x =? s | [] => false end.

Definition accepts (aut : Word -> bool) (w : Word) : bool := aut w.

(** * Properties *)

(** ** The counters *)

Lemma value_of_incr (k k' : counter) (g : globals) :
  value_of k (incr k' g) =
  if counter_eqb k' k then size_incr (value_of k g) else value_of k g.
Proof. destruct k; reflexivity. Qed.

Lemma counter_eqb_eq (a b : counter) : counter_eqb a b = true <-> a = b.
Proof. destruct a, b; simpl; split; intro H; congruence. Qed.

Lemma value_of_incr_same (k : counter) (g : globals) :
  value_of k (incr k g) = size_incr (value_of k g).
Proof.
  rewrite value_of_incr.
  destruct (counter_eqb k k) eqn:E; [reflexivity|].
  destruct k; discriminate.
Qed.

Lemma value_of_incr_other (k k' : counter) (g : globals) :
  k <> k' -> value_of k (incr k' g) = value_of k g.
Proof.
  intro H. rewrite value_of_incr.
  destruct (counter_eqb k' k) eqn:E; [|reflexivity].
  apply counter_eqb_eq in E. congruence.
Qed.

Lemma value_of_set_packet_lengths (k : counter) (v : list N) (g : globals) :
  value_of k (set_packet_lengths v g) = value_of k g.
Proof. destruct k; reflexivity. Qed.

Lemma size_incr_lt (a : N) : size_incr a < size_t_modulus.
Proof. apply N.mod_lt. discriminate. Qed.

Lemma size_incr_neq (a : N) : a < size_t_modulus -> size_incr a <> a.
Proof.
  unfold size_incr, size_add, size_t_modulus. intros Ha E.
  destruct (N.eq_dec (a + 1) (2 ^ 64)) as [Hw | Hw].
  - rewrite Hw, N.Div0.mod_same in E. lia.
  - rewrite N.mod_small in E by lia. lia.
Qed.

Lemma size_incr_small (a : N) : a + 1 < size_t_modulus -> size_incr a = a + 1.
Proof. intro H. apply N.mod_small. exact H. Qed.

(** ** Results *)

Lemma bind_Ok {A B : Type} (r : result A) (k : A -> result B) (b : B) :
  bind r k = Ok b -> exists a, r = Ok a /\ k a = Ok b.
Proof. destruct r; simpl; intro H; try discriminate. eauto. Qed.

Ltac bind_inv H :=
  let a := fresh "a" in
  let E := fresh "E" in
  apply bind_Ok in H; destruct H as [a [E H]].

(** ** Payload slice (C1) *)

Lemma slice_empty (packet : list byte) (first last : N) :
  last <= first -> slice packet first last = [].
Proof.
  intro H. unfold slice.
  replace (N.to_nat (last - first)) with O by lia.
  reflexivity.
Qed.

Lemma slice_firstn (packet : list byte) (c first last : N) :
  last <= c ->
  slice (firstn (N.to_nat c) packet) first last = slice packet first last.
Proof.
  intro H. unfold slice. f_equal.
  rewrite skipn_firstn_comm, firstn_firstn. f_equal. lia.
Qed.

Lemma in_firstn_list {A : Type} (n : nat) (l : list A) (x : A) :
  In x (firstn n l) -> In x l.
Proof.
  intro H. rewrite <- (firstn_skipn n l). apply in_or_app. left. exact H.
Qed.

Lemma in_skipn_list {A : Type} (n : nat) (l : list A) (x : A) :
  In x (skipn n l) -> In x l.
Proof.
  intro H. rewrite <- (firstn_skipn n l). apply in_or_app. right. exact H.
Qed.

Lemma in_slice (packet : list byte) (first last : N) (s : Symbol) :
  In s (slice packet first last) -> In s (map Byte.to_N packet).
Proof.
  unfold slice. rewrite !in_map_iff. intros [b [Hb Hin]].
  exists b. split; [exact Hb|].
  eapply in_skipn_list, in_firstn_list, Hin.
Qed.

Lemma make_word_Ok (packet : list byte) (r : word_range) (w : Word) :
  make_word packet r = Ok w ->
  match r with
  | No_range => w = []
  | Range first last =>
      w = slice packet first last /\
      (first < last -> last <= N.of_nat (length packet))
  end.
Proof.
  destruct r as [|first last]; simpl.
  - intro H. injection H as <-. reflexivity.
  - destruct (first <? last) eqn:Hlt;
      destruct (N.of_nat (length packet) <? last) eqn:Hlen; simpl;
      intro H; try discriminate; injection H as <-; split; try reflexivity;
      intro Hfl.
    + apply N.ltb_ge in Hlen. exact Hlen.
    + apply N.ltb_ge in Hlt. lia.
    + apply N.ltb_ge in Hlt. lia.
Qed.

(* the range that [get_payload] hands to the [Word] constructor *)
Lemma get_payload_range_clamped (g g' : globals) (pkthdr : pcap_pkthdr)
    (packet : list byte) (first last : N) :
  get_payload_range g pkthdr packet = Ok (g', Range first last) ->
  last = N.max (len pkthdr) first.
Proof.
  unfold get_payload_range. intro H.
  bind_inv H. destruct a as [[g1 offset] ether_type].
  bind_inv H. destruct a as [g2 [[l4_proto offset2]|]]; [|discriminate].
  bind_inv H. destruct a as [g3 [offset3|]]; [|discriminate].
  injection H as _ <- <-. reflexivity.
Qed.

(* The range that line 314 builds, for every frame: from the computed
   header offset [first] to [max (declared length) first].  Its start never
   exceeds its end and it is empty when the declared length is not above the
   offset; the captured length plays no part in it, and the range is known
   to lie in the captured frame buffer only for a frame whose declared
   length does not exceed its captured length. *)
Lemma get_payload_slice_of_range (g g' : globals) (pkthdr : pcap_pkthdr)
    (packet : list byte) (w : Word) :
  get_payload g pkthdr packet = Ok (g', w) ->
  exists r, get_payload_range g pkthdr packet = Ok (g', r) /\
    match r with
    | No_range => w = []
    | Range first last =>
        first <= last /\
        last = N.max (len pkthdr) first /\
        w = slice packet first last /\
        (len pkthdr <= first -> w = []) /\
        (w <> [] -> first < last /\ last = len pkthdr /\
                    last <= N.of_nat (length packet)) /\
        (len pkthdr <= caplen pkthdr ->
         last <= N.max (caplen pkthdr) first /\
         w = slice (frame_buffer pkthdr packet) first last)
    end.
Proof.
  unfold get_payload. intro H.
  bind_inv H. destruct a as [g1 r].
  bind_inv H. injection H as <- <-.
  exists r. split; [exact E|].
  apply make_word_Ok in E0.
  destruct r as [|first last]; [exact E0|].
  destruct E0 as [Hw Hin].
  pose proof (get_payload_range_clamped _ _ _ _ _ _ E) as Hlast.
  assert (Hempty : len pkthdr <= first -> a = []).
  { intro Hle. rewrite Hw. apply slice_empty. lia. }
  repeat split.
  - lia.
  - exact Hlast.
  - exact Hw.
  - exact Hempty.
  - destruct (N.lt_ge_cases first last) as [Hlt | Hge]; [exact Hlt|].
    exfalso. apply H. rewrite Hw. apply slice_empty. exact Hge.
  - destruct (N.le_gt_cases (len pkthdr) first) as [Hle | Hgt]; [|lia].
    exfalso. apply H. apply Hempty. exact Hle.
  - apply Hin.
    destruct (N.lt_ge_cases first last) as [Hlt | Hge]; [exact Hlt|].
    exfalso. apply H. rewrite Hw. apply slice_empty. exact Hge.
  - lia.
  - rewrite Hw. unfold frame_buffer.
    destruct (N.le_gt_cases last first) as [Hle | Hgt].
    + rewrite !slice_empty by exact Hle. reflexivity.
    + symmetry. apply slice_firstn. lia.
Qed.

(** C1.  A frame that the capture truncated: it has 100 bytes on the wire
    and 60 of them were captured.  [get_payload] ends the payload at the
    declared length and never looks at the captured length, so the range
    that it hands to the [Word] constructor is [42, 100), which leaves the 60
    bytes of the frame buffer.  When only the captured bytes can be
    addressed, copying that range reads outside the packet, in
    [get_payload] and so in the handler.  When the buffer of the reader
    goes on after the captured bytes, the word returned holds 40 bytes that
    are not bytes of the frame: it is not empty and it is no range of the
    frame buffer, which is what the claim asks of a payload. *)
Theorem get_payload_leaves_frame_buffer :
  captured truncated_udp_hdr truncated_udp_packet /\
  caplen truncated_udp_hdr < len truncated_udp_hdr /\
  get_payload_range initial_globals truncated_udp_hdr
    (frame_buffer truncated_udp_hdr truncated_udp_packet)
  = Ok (incr Udp_packets (incr Ipv4_packets initial_globals),
        Range 42 100) /\
  get_payload initial_globals truncated_udp_hdr
    (frame_buffer truncated_udp_hdr truncated_udp_packet)
  = Undefined Read_outside_packet /\
  packetHandler accepts (first_symbol_is 0) (first_symbol_is 1)
    initial_globals truncated_udp_hdr
    (frame_buffer truncated_udp_hdr truncated_udp_packet)
  = Undefined Read_outside_packet /\
  exists g' w,
    get_payload initial_globals truncated_udp_hdr truncated_udp_packet
    = Ok (g', w) /\
    get_payload_range initial_globals truncated_udp_hdr truncated_udp_packet
    = Ok (g', Range 42 100) /\
    w = repeat 1 18 ++ repeat 255 40 /\
    w <> [] /\
    ~ (exists first last,
         first <= last /\ last <= caplen truncated_udp_hdr /\
         w = slice (frame_buffer truncated_udp_hdr truncated_udp_packet)
               first last).
Proof.
  split; [vm_compute; discriminate|].
  split; [vm_compute; reflexivity|].
  split; [vm_compute; reflexivity|].
  split; [vm_compute; reflexivity|].
  split; [vm_compute; reflexivity|].
  exists (incr Udp_packets (incr Ipv4_packets initial_globals)).
  exists (repeat 1 18 ++ repeat 255 40).
  split; [vm_compute; reflexivity|].
  split; [vm_compute; reflexivity|].
  split; [reflexivity|].
  split; [discriminate|].
  intros [first [last [_ [_ Hw]]]].
  assert (Hin : In 255 (repeat 1 18 ++ repeat 255 40)).
  { apply in_or_app. right. simpl. left. reflexivity. }
  rewrite Hw in Hin. apply in_slice in Hin.
  vm_compute in Hin.
  repeat (destruct Hin as [Hin | Hin]; [discriminate|]).
  exact Hin.
Qed.

(** ** Single steps of the decoder *)

Lemma link_layer_untagged (g : globals) (packet : list byte) (ether_type : N) :
  read_ntohs packet offsetof_ether_type = Ok ether_type ->
  ether_type <> ETHERTYPE_VLAN ->
  link_layer g packet = Ok (g, sizeof_ether_header, ether_type).
Proof.
  intros Hread Hne. unfold link_layer. rewrite Hread. simpl.
  apply N.eqb_neq in Hne. rewrite Hne. reflexivity.
Qed.

Lemma network_layer_ipv4 (g : globals) (packet : list byte)
    (offset l4_proto : N) :
  read_u8 packet (offset + offsetof_ip_p) = Ok l4_proto ->
  network_layer g packet offset ETHERTYPE_IP
  = Ok (incr Ipv4_packets g, Some (l4_proto, size_add offset sizeof_ip)).
Proof.
  intro Hread. unfold network_layer.
  change (ETHERTYPE_IP =? ETHERTYPE_IP) with true. cbv iota.
  rewrite Hread. reflexivity.
Qed.

Lemma l4_loop_udp (fuel : nat) (g : globals) (packet : list byte)
    (ip_in_ip : bool) (offset : N) :
  l4_loop (S fuel) g packet ip_in_ip IPPROTO_UDP offset
  = Ok (incr Udp_packets g, Fall_through (size_add offset sizeof_udphdr)).
Proof. reflexivity. Qed.

Lemma l4_loop_first_ipip (fuel : nat) (g : globals) (packet : list byte)
    (offset ip_p : N) :
  read_u8 packet (offset + offsetof_ip_p) = Ok ip_p ->
  l4_loop (S fuel) g packet false IPPROTO_IPIP offset
  = l4_loop fuel (incr Ipip_packets g) packet true ip_p
      (size_add offset sizeof_ip).
Proof.
  intro Hread. simpl. unfold l4_iteration.
  change (IPPROTO_IPIP =? IPPROTO_TCP) with false.
  change (IPPROTO_IPIP =? IPPROTO_UDP) with false.
  change (IPPROTO_IPIP =? IPPROTO_IPIP) with true.
  cbv iota. rewrite Hread. reflexivity.
Qed.

(* The IPv6-in-IPv4 branch reads the next header and leaves the loop: the
   next header is not dispatched on. *)
Lemma l4_loop_ipv6 (fuel : nat) (g : globals) (packet : list byte)
    (ip_in_ip : bool) (offset ip6_nxt : N) :
  read_u8 packet (offset + offsetof_ip6_nxt) = Ok ip6_nxt ->
  l4_loop (S fuel) g packet ip_in_ip IPPROTO_IPV6 offset
  = Ok (incr Ip6_in_ip4_packets g,
        Fall_through (size_add offset sizeof_ip6_hdr)) /\
  l4_protocols (S fuel) g packet ip_in_ip IPPROTO_IPV6 offset
  = [IPPROTO_IPV6].
Proof.
  intro Hread. simpl. unfold l4_iteration.
  change (IPPROTO_IPV6 =? IPPROTO_TCP) with false.
  change (IPPROTO_IPV6 =? IPPROTO_UDP) with false.
  change (IPPROTO_IPV6 =? IPPROTO_IPIP) with false.
  change (IPPROTO_IPV6 =? IPPROTO_ESP) with false.
  change (IPPROTO_IPV6 =? IPPROTO_ICMP) with false.
  change (IPPROTO_IPV6 =? IPPROTO_GRE) with false.
  change (IPPROTO_IPV6 =? IPPROTO_ICMPV6) with false.
  change (IPPROTO_IPV6 =? IPPROTO_FRAGMENT) with false.
  change (IPPROTO_IPV6 =? IPPROTO_IPV6) with true.
  cbv iota. rewrite Hread. split; reflexivity.
Qed.

(** ** IPv6-in-IPv4 (C2) *)

(** C2, the code at the failing input.  The frame is Ethernet, IPv4 with
    protocol 41, an IPv6 header whose next header is 17 (UDP), a UDP header
    and 18 bytes of data.  The transport loop dispatches on protocol 41 only:
    the payload starts at offset 74, right after the IPv6 header, the UDP
    header is part of it and the UDP counter stays 0. *)
Theorem ip6_in_ip4_next_header_not_decoded :
  read_u8 ip6_in_ip4_udp_packet
    (sizeof_ether_header + sizeof_ip + offsetof_ip6_nxt) = Ok IPPROTO_UDP /\
  frame_l4_protocols ip6_in_ip4_udp_packet = [IPPROTO_IPV6] /\
  exists g',
    get_payload_range initial_globals ip6_in_ip4_udp_hdr ip6_in_ip4_udp_packet
    = Ok (g', Range (sizeof_ether_header + sizeof_ip + sizeof_ip6_hdr)
                    (len ip6_in_ip4_udp_hdr)) /\
    ip6_in_ip4_packets g' = 1 /\ udp_packets g' = 0.
Proof.
  split; [reflexivity|].
  split; [vm_compute; reflexivity|].
  exists (incr Ip6_in_ip4_packets (incr Ipv4_packets initial_globals)).
  split; [vm_compute; reflexivity|].
  split; reflexivity.
Qed.

(** ** The transport loop *)

Ltac l4_branches :=
  unfold l4_iteration;
  repeat match goal with
  | |- context [if ?l =? ?c then _ else _] => destruct (l =? c) eqn:?
  end;
  repeat match goal with
  | |- context [if ?b then _ else _] => destruct b
  end;
  repeat match goal with
  | |- context [bind (read_u8 ?p ?o) _] => destruct (read_u8 p o)
  end;
  cbv beta iota delta [bind].

(* What an iteration decides does not depend on the globals. *)
Lemma l4_iteration_shape (g1 g2 : globals) (packet : list byte)
    (ip_in_ip : bool) (l4_proto offset : N) :
  result_map iteration_shape (l4_iteration g1 packet ip_in_ip l4_proto offset)
  = result_map iteration_shape
      (l4_iteration g2 packet ip_in_ip l4_proto offset).
Proof. l4_branches; reflexivity. Qed.

(* Every iteration increments one counter of the loop; it executes
   [return Word();] exactly next to the three counters of the loop that
   stand for "no payload". *)
Lemma l4_iteration_counters (g : globals) (packet : list byte)
    (ip_in_ip : bool) (l4_proto offset : N) (it : iteration) :
  l4_iteration g packet ip_in_ip l4_proto offset = Ok it ->
  packet_lengths (iteration_globals it) = packet_lengths g /\
  exists c,
    l4_counter c = true /\
    (forall k, value_of k (iteration_globals it) = value_of k (incr c g)) /\
    (no_payload_counter c = true <->
     iteration_shape it = inr Return_empty).
Proof.
  revert it. l4_branches; intros it H; try discriminate;
    injection H as <-; (split; [reflexivity|]).
  - exists Tcp_packets; repeat split; try discriminate; reflexivity.
  - exists Udp_packets; repeat split; try discriminate; reflexivity.
  - exists Ipip_packets; repeat split; try discriminate; reflexivity.
  - exists Esp_packets; repeat split; try discriminate; reflexivity.
  - exists Icmp_packets; repeat split; try discriminate; reflexivity.
  - exists Gre_packets; repeat split; try discriminate; reflexivity.
  - exists Icmp6_packets; repeat split; try discriminate; reflexivity.
  - exists V6_fragment_packets; repeat split; try discriminate; reflexivity.
  - exists Ip6_in_ip4_packets; repeat split; try discriminate; reflexivity.
  - exists Pim_packets; repeat split; try discriminate; reflexivity.
  - exists Other_l4_packets; repeat split; try discriminate; reflexivity.
Qed.

Lemma l4_loop_outcome (fuel : nat) (g1 g2 : globals) (packet : list byte)
    (ip_in_ip : bool) (l4_proto offset : N) :
  result_map snd (l4_loop fuel g1 packet ip_in_ip l4_proto offset)
  = result_map snd (l4_loop fuel g2 packet ip_in_ip l4_proto offset).
Proof.
  revert g1 g2 ip_in_ip l4_proto offset.
  induction fuel as [|fuel IH]; intros g1 g2 ip_in_ip l4_proto offset;
    [reflexivity|].
  simpl.
  pose proof (l4_iteration_shape g1 g2 packet ip_in_ip l4_proto offset) as Hs.
  destruct (l4_iteration g1 packet ip_in_ip l4_proto offset) as [it1| | |];
    destruct (l4_iteration g2 packet ip_in_ip l4_proto offset) as [it2| | |];
    simpl in Hs; try discriminate; try reflexivity.
  - destruct it1, it2; simpl in Hs; try discriminate.
    + injection Hs as -> -> ->. simpl. apply IH.
    + injection Hs as ->. reflexivity.
  - injection Hs as ->. reflexivity.
Qed.

Lemma l4_loop_counters (fuel : nat) (g g' : globals) (packet : list byte)
    (ip_in_ip : bool) (l4_proto offset : N) (e : loop_exit) :
  l4_loop fuel g packet ip_in_ip l4_proto offset = Ok (g', e) ->
  packet_lengths g' = packet_lengths g /\
  (forall k, l4_counter k = false -> value_of k g' = value_of k g) /\
  match e with
  | Return_empty =>
      exists c,
        l4_counter c = true /\ no_payload_counter c = true /\
        value_of c g' = size_incr (value_of c g) /\
        forall k, no_payload_counter k = true -> k <> c ->
                  value_of k g' = value_of k g
  | Fall_through _ =>
      forall k, no_payload_counter k = true -> value_of k g' = value_of k g
  end.
Proof.
  revert g ip_in_ip l4_proto offset.
  induction fuel as [|fuel IH]; intros g ip_in_ip l4_proto offset H;
    [discriminate|].
  simpl in H. bind_inv H.
  destruct (l4_iteration_counters _ _ _ _ _ _ E) as [Hpl [c [Hc [Hval Hnp]]]].
  assert (Hother : forall k, k <> c ->
            value_of k (iteration_globals a) = value_of k g).
  { intros k Hk. rewrite Hval. apply value_of_incr_other. exact Hk. }
  assert (Hframe : forall k, l4_counter k = false ->
            value_of k (iteration_globals a) = value_of k g).
  { intros k Hk. apply Hother. intros ->. congruence. }
  destruct a as [g1 ip1 l41 off1 | g1 e1]; simpl in *.
  - assert (Hc' : no_payload_counter c = false).
    { destruct (no_payload_counter c); [|reflexivity].
      destruct Hnp as [Hnp _]. specialize (Hnp eq_refl). discriminate. }
    assert (Hnpk : forall k, no_payload_counter k = true ->
              value_of k g1 = value_of k g).
    { intros k Hk. apply Hother. intros ->. congruence. }
    destruct (IH _ _ _ _ H) as [Hpl' [Hframe' He]].
    split; [congruence|].
    split; [intros k Hk; rewrite Hframe', Hframe by exact Hk; reflexivity|].
    destruct e as [off'|].
    + intros k Hk. rewrite He, Hnpk by exact Hk. reflexivity.
    + destruct He as [c' [Hl4 [Hnp' [Hinc Hrest]]]].
      exists c'. repeat split; try assumption.
      * rewrite Hinc, Hnpk by exact Hnp'. reflexivity.
      * intros k Hk Hne. rewrite Hrest, Hnpk by assumption. reflexivity.
  - injection H as <- <-.
    split; [exact Hpl|]. split; [exact Hframe|].
    destruct e1 as [off'|].
    + intros k Hk. apply Hother. intros ->.
      destruct Hnp as [Hnp _]. specialize (Hnp Hk). discriminate.
    + exists c. destruct Hnp as [_ Hnp]. specialize (Hnp eq_refl).
      repeat split; try assumption.
      * rewrite Hval. apply value_of_incr_same.
      * intros k Hk Hne. apply Hother. exact Hne.
Qed.

(** ** The counters of one call of [get_payload] *)

Lemma read_ntohs_cases (packet : list byte) (off : N) :
  (exists v, read_ntohs packet off = Ok v) \/
  read_ntohs packet off = Undefined Read_outside_packet.
Proof.
  unfold read_ntohs, read_u8.
  destruct (nth_error packet (N.to_nat off)); simpl; [|right; reflexivity].
  destruct (nth_error packet (N.to_nat (off + 1))); simpl;
    [left; eauto | right; reflexivity].
Qed.

Lemma read_u8_cases (packet : list byte) (off : N) :
  (exists v, read_u8 packet off = Ok v) \/
  read_u8 packet off = Undefined Read_outside_packet.
Proof.
  unfold read_u8.
  destruct (nth_error packet (N.to_nat off)); [left; eauto | right; reflexivity].
Qed.

(* link layer and network layer: the VLAN counter may move, one counter of
   the network layer moves, and [return Word();] goes with "other L3" *)
Lemma layers_counters (g g1 g2 : globals) (packet : list byte)
    (offset ether_type : N) (l3 : option (N * N)) :
  link_layer g packet = Ok (g1, offset, ether_type) ->
  network_layer g1 packet offset ether_type = Ok (g2, l3) ->
  packet_lengths g2 = packet_lengths g /\
  exists c,
    l3_counter c = true /\
    (forall k, k <> Vlan_packets -> value_of k g2 = value_of k (incr c g)) /\
    (l3 = None <-> c = Other_l3_packets).
Proof.
  unfold link_layer, network_layer. intros Hlink Hnet.
  bind_inv Hlink.
  assert (Hg1 : packet_lengths g1 = packet_lengths g /\
                forall k, k <> Vlan_packets -> value_of k g1 = value_of k g).
  { destruct (a =? ETHERTYPE_VLAN).
    - bind_inv Hlink. injection Hlink as <- _ _.
      split; [reflexivity|]. intros k Hk.
      apply value_of_incr_other. exact Hk.
    - injection Hlink as <- _ _. split; reflexivity. }
  clear Hlink. destruct Hg1 as [Hpl Hg1].
  assert (Hbump : forall c k, k <> Vlan_packets ->
            value_of k (incr c g1) = value_of k (incr c g)).
  { intros c k Hk. rewrite !value_of_incr, Hg1 by exact Hk. reflexivity. }
  destruct (ether_type =? ETHERTYPE_IP).
  - bind_inv Hnet. injection Hnet as <- <-.
    split; [exact Hpl|]. exists Ipv4_packets.
    repeat split; try discriminate. apply Hbump.
  - destruct (ether_type =? ETHERTYPE_IPV6).
    + bind_inv Hnet. injection Hnet as <- <-.
      split; [exact Hpl|]. exists Ipv6_packets.
      repeat split; try discriminate. apply Hbump.
    + injection Hnet as <- <-.
      split; [exact Hpl|]. exists Other_l3_packets.
      repeat split. apply Hbump.
Qed.

Lemma get_payload_range_counters (g g' : globals) (pkthdr : pcap_pkthdr)
    (packet : list byte) (r : word_range) :
  get_payload_range g pkthdr packet = Ok (g', r) ->
  packet_lengths g' = packet_lengths g /\
  (forall k, handler_counter k = true -> value_of k g' = value_of k g) /\
  (exists c,
     l3_counter c = true /\
     value_of c g' = size_incr (value_of c g) /\
     forall k, l3_counter k = true -> k <> c ->
               value_of k g' = value_of k g) /\
  match r with
  | No_range =>
      exists c,
        no_payload_counter c = true /\
        value_of c g' = size_incr (value_of c g) /\
        forall k, no_payload_counter k = true -> k <> c ->
                  value_of k g' = value_of k g
  | Range _ _ =>
      forall k, no_payload_counter k = true -> value_of k g' = value_of k g
  end.
Proof.
  unfold get_payload_range. intro H.
  bind_inv H. destruct a as [[g1 offset] ether_type].
  bind_inv H. destruct a as [g2 l3].
  destruct (layers_counters _ _ _ _ _ _ _ E E0) as [Hpl [c [Hc [Hval Hnone]]]].
  assert (Hsame : value_of c g2 = size_incr (value_of c g)).
  { rewrite Hval by (intros ->; discriminate). apply value_of_incr_same. }
  assert (Hother : forall k, k <> Vlan_packets -> k <> c ->
            value_of k g2 = value_of k g).
  { intros k Hv Hk. rewrite Hval by exact Hv.
    apply value_of_incr_other. exact Hk. }
  destruct l3 as [[l4_proto offset2]|].
  - bind_inv H. destruct a as [g3 e].
    destruct (l4_loop_counters _ _ _ _ _ _ _ _ E1) as [Hpl3 [Hframe He]].
    assert (Hc3 : c <> Other_l3_packets).
    { intro Hc3. apply Hnone in Hc3. discriminate. }
    assert (Hg' : g3 = g' /\
                  r = match e with
                      | Return_empty => No_range
                      | Fall_through o => Range o (N.max (len pkthdr) o)
                      end).
    { destruct e; injection H as <- <-; split; reflexivity. }
    destruct Hg' as [<- Hr]. clear H.
    split; [congruence|].
    split.
    { intros k Hk. rewrite Hframe by (destruct k; try discriminate; reflexivity).
      apply Hother; intros ->; try discriminate.
      destruct c; discriminate. }
    split.
    { exists c. split; [exact Hc|]. split.
      - rewrite Hframe by (destruct c; try discriminate; reflexivity).
        exact Hsame.
      - intros k Hk Hne.
        rewrite Hframe by (destruct k; try discriminate; reflexivity).
        apply Hother; [intros ->; discriminate | exact Hne]. }
    assert (Hnp2 : forall k, no_payload_counter k = true ->
              value_of k g2 = value_of k g).
    { intros k Hk. apply Hother; intros ->; try discriminate.
      destruct c; try discriminate. congruence. }
    destruct e as [o|]; subst r.
    + intros k Hk. rewrite He, Hnp2 by exact Hk. reflexivity.
    + destruct He as [c' [Hl4 [Hnp [Hinc Hrest]]]].
      exists c'. split; [exact Hnp|]. split.
      * rewrite Hinc, Hnp2 by exact Hnp. reflexivity.
      * intros k Hk Hne. rewrite Hrest, Hnp2 by assumption. reflexivity.
  - injection H as <- <-.
    assert (Hc3 : c = Other_l3_packets) by (apply Hnone; reflexivity).
    subst c.
    split; [exact Hpl|].
    split.
    { intros k Hk. apply Hother; intros ->; discriminate. }
    split.
    { exists Other_l3_packets. split; [reflexivity|]. split; [exact Hsame|].
      intros k Hk Hne. apply Hother; [intros ->; discriminate | exact Hne]. }
    exists Other_l3_packets. split; [reflexivity|]. split; [exact Hsame|].
    intros k Hk Hne. apply Hother; [intros ->; discriminate | exact Hne].
Qed.

(* The range that [get_payload] computes does not depend on the globals. *)
Lemma get_payload_range_outcome (g1 g2 : globals) (pkthdr : pcap_pkthdr)
    (packet : list byte) :
  result_map snd (get_payload_range g1 pkthdr packet)
  = result_map snd (get_payload_range g2 pkthdr packet).
Proof.
  unfold get_payload_range, link_layer.
  destruct (read_ntohs_cases packet offsetof_ether_type) as [[et ->] | ->];
    [|reflexivity].
  cbv beta iota delta [bind].
  assert (Hnet : forall ga gb offset ether_type,
    result_map snd
      ('(g, l3) <- network_layer ga packet offset ether_type ;;
       match l3 with
       | None => Ok (g, No_range)
       | Some (l4_proto, offset) =>
           '(g, e) <- l4_loop (loop_fuel packet) g packet false l4_proto
                        offset ;;
           match e with
           | Return_empty => Ok (g, No_range)
           | Fall_through offset =>
               Ok (g, Range offset (N.max (len pkthdr) offset))
           end
       end)
    = result_map snd
      ('(g, l3) <- network_layer gb packet offset ether_type ;;
       match l3 with
       | None => Ok (g, No_range)
       | Some (l4_proto, offset) =>
           '(g, e) <- l4_loop (loop_fuel packet) g packet false l4_proto
                        offset ;;
           match e with
           | Return_empty => Ok (g, No_range)
           | Fall_through offset =>
               Ok (g, Range offset (N.max (len pkthdr) offset))
           end
       end)).
  { intros ga gb offset ether_type. unfold network_layer.
    assert (Hloop : forall ga gb l4_proto offset,
      result_map snd
        ('(g, e) <- l4_loop (loop_fuel packet) ga packet false l4_proto
                      offset ;;
         match e with
         | Return_empty => Ok (g, No_range)
         | Fall_through offset =>
             Ok (g, Range offset (N.max (len pkthdr) offset))
         end)
      = result_map snd
        ('(g, e) <- l4_loop (loop_fuel packet) gb packet false l4_proto
                      offset ;;
         match e with
         | Return_empty => Ok (g, No_range)
         | Fall_through offset =>
             Ok (g, Range offset (N.max (len pkthdr) offset))
         end)).
    { intros ga' gb' l4_proto offset'.
      pose proof (l4_loop_outcome (loop_fuel packet) ga' gb' packet false
                    l4_proto offset') as Hl.
      destruct (l4_loop (loop_fuel packet) ga' packet false l4_proto offset')
        as [[ga3 ea]| | |];
        destruct (l4_loop (loop_fuel packet) gb' packet false l4_proto
                    offset') as [[gb3 eb]| | |];
        simpl in Hl; try discriminate; try reflexivity.
      - injection Hl as ->. destruct eb; reflexivity.
      - injection Hl as ->. reflexivity. }
    destruct (ether_type =? ETHERTYPE_IP).
    - destruct (read_u8_cases packet (offset + offsetof_ip_p))
        as [[v ->] | ->]; [|reflexivity].
      apply Hloop.
    - destruct (ether_type =? ETHERTYPE_IPV6); [|reflexivity].
      destruct (read_u8_cases packet (offset + offsetof_ip6_nxt))
        as [[v ->] | ->]; [|reflexivity].
      apply Hloop. }
  destruct (et =? ETHERTYPE_VLAN).
  - destruct (read_ntohs_cases packet offsetof_vlan_ether_type)
      as [[et' ->] | ->]; [|reflexivity].
    apply Hnet.
  - apply Hnet.
Qed.

Lemma frame_range_of_call (g g' : globals) (pkthdr : pcap_pkthdr)
    (packet : list byte) (r : word_range) :
  get_payload_range g pkthdr packet = Ok (g', r) ->
  frame_range (pkthdr, packet) = Ok r.
Proof.
  intro H. unfold frame_range. simpl fst. simpl snd.
  pose proof (get_payload_range_outcome initial_globals g pkthdr packet) as Ho.
  rewrite H in Ho. unfold result_map in Ho.
  destruct (get_payload_range initial_globals pkthdr packet) as [[g0 r0]| | |];
    simpl in Ho; try discriminate.
  injection Ho as ->. reflexivity.
Qed.

Lemma frame_word_of_call (g g' : globals) (pkthdr : pcap_pkthdr)
    (packet : list byte) (w : Word) :
  get_payload g pkthdr packet = Ok (g', w) ->
  frame_word (pkthdr, packet) = Ok w.
Proof.
  unfold get_payload. intro H.
  bind_inv H. destruct a as [g1 r]. bind_inv H. injection H as _ <-.
  apply frame_range_of_call in E. unfold frame_range in E.
  unfold frame_word, get_payload. simpl fst in *. simpl snd in *.
  destruct (get_payload_range initial_globals pkthdr packet) as [[g0 r0]| | |];
    simpl in E; try discriminate.
  injection E as ->. simpl. rewrite E0. reflexivity.
Qed.

Lemma slice_length (packet : list byte) (first last : N) :
  last <= N.of_nat (length packet) ->
  length (slice packet first last) = N.to_nat (last - first).
Proof.
  intro H. unfold slice.
  rewrite length_map, length_firstn, length_skipn. lia.
Qed.

(* A frame yields an empty payload when [get_payload] executes
   [return Word();] or when its declared length is not above the offset. *)
Lemma empty_word_cases (packet : list byte) (pkthdr : pcap_pkthdr)
    (g g' : globals) (r : word_range) (w : Word) :
  get_payload_range g pkthdr packet = Ok (g', r) ->
  make_word packet r = Ok w ->
  empty w = match r with
            | No_range => true
            | Range first _ => len pkthdr <=? first
            end.
Proof.
  intros Hr Hw. apply make_word_Ok in Hw.
  destruct r as [|first last]; [subst w; reflexivity|].
  destruct Hw as [-> Hin].
  apply get_payload_range_clamped in Hr.
  destruct (len pkthdr <=? first) eqn:Hle.
  - apply N.leb_le in Hle. rewrite slice_empty by lia. reflexivity.
  - apply N.leb_gt in Hle.
    assert (Hlt : first < last) by lia.
    specialize (Hin Hlt).
    pose proof (slice_length packet first last Hin) as Hlen.
    destruct (slice packet first last); [simpl in Hlen; lia | reflexivity].
Qed.

(** ** One call of [packetHandler] *)

Section Handler.

Context {Nfa : Type} (is_in_lang : Nfa -> Word -> bool).

Lemma packetHandler_Ok (aut1 aut2 : Nfa) (g g' : globals)
    (pkthdr : pcap_pkthdr) (packet : list byte) :
  packetHandler is_in_lang aut1 aut2 g pkthdr packet = Ok g' ->
  exists v g1 w,
    vector_incr (packet_lengths g) (len pkthdr) = Ok v /\
    get_payload (incr Total_packets (set_packet_lengths v g)) pkthdr packet
    = Ok (g1, w) /\
    packet_lengths g' = packet_lengths g1 /\
    (forall k, sampling_counter k = false ->
               value_of k g' = value_of k g1) /\
    (empty w = true -> g' = g1) /\
    (empty w = false ->
     payloaded_packets g' = size_incr (payloaded_packets g1) /\
     accepted_aut1 g' = (if is_in_lang aut1 w
                         then size_incr (accepted_aut1 g1)
                         else accepted_aut1 g1) /\
     accepted_aut2 g' = (if is_in_lang aut2 w
                         then size_incr (accepted_aut2 g1)
                         else accepted_aut2 g1) /\
     incons_packets g' = (if negb (Bool.eqb (is_in_lang aut1 w)
                                            (is_in_lang aut2 w))
                          then size_incr (incons_packets g1)
                          else incons_packets g1) /\
     cout g' = (if total_packets g1 mod 1000 =? 0
                then cout g1 ++ [Out_tick] else cout g1)).
Proof.
  unfold packetHandler. intro H.
  bind_inv H. rename a into v.
  bind_inv H. destruct a as [g1 w].
  exists v, g1, w. split; [exact E|]. split; [exact E0|].
  destruct (empty w) eqn:Hw.
  - injection H as <-.
    split; [reflexivity|]. split; [reflexivity|]. split; [reflexivity|].
    intro Hf. discriminate.
  - injection H as <-.
    split; [destruct (is_in_lang aut1 w), (is_in_lang aut2 w); simpl;
            destruct (total_packets g1 mod 1000 =? 0); reflexivity|].
    split; [intros k Hk;
            destruct (is_in_lang aut1 w), (is_in_lang aut2 w); simpl;
            destruct (total_packets g1 mod 1000 =? 0);
            destruct k; try discriminate; reflexivity|].
    split; [intro Hf; discriminate|].
    intros _.
    destruct (is_in_lang aut1 w), (is_in_lang aut2 w); simpl;
      destruct (total_packets g1 mod 1000 =? 0);
      repeat split; reflexivity.
Qed.

End Handler.

(** ** Arithmetic of the counters *)

Lemma size_incr_mod (x r : N) :
  (size_incr x + r) mod size_t_modulus = (x + r + 1) mod size_t_modulus.
Proof.
  unfold size_incr, size_add.
  rewrite N.Div0.add_mod_idemp_l. f_equal. lia.
Qed.

Lemma mod_succ_congr (a b : N) :
  a mod size_t_modulus = b mod size_t_modulus ->
  (a + 1) mod size_t_modulus = (b + 1) mod size_t_modulus.
Proof.
  intro H.
  rewrite <- (N.Div0.add_mod_idemp_l a), <- (N.Div0.add_mod_idemp_l b), H.
  reflexivity.
Qed.

Lemma size_incr_of_mod (a : N) :
  size_incr (a mod size_t_modulus) = (a + 1) mod size_t_modulus.
Proof. unfold size_incr, size_add. apply N.Div0.add_mod_idemp_l. Qed.

(** ** Runs *)

Section Runs.

Context {Nfa : Type} (is_in_lang : Nfa -> Word -> bool).
Variables aut1 aut2 : Nfa.

(* What one call of the handler does to the counters that the statistics
   relate. *)
Lemma packetHandler_step (g g' : globals) (pkthdr : pcap_pkthdr)
    (packet : list byte) :
  packetHandler is_in_lang aut1 aut2 g pkthdr packet = Ok g' ->
  total_packets g' = size_incr (total_packets g) /\
  (exists c,
     l3_counter c = true /\
     value_of c g' = size_incr (value_of c g) /\
     forall k, l3_counter k = true -> k <> c ->
               value_of k g' = value_of k g) /\
  payloaded_packets g' =
    (if empty_payload_frame (pkthdr, packet) then payloaded_packets g
     else size_incr (payloaded_packets g)) /\
  (truncated_frame (pkthdr, packet) = true ->
   empty_payload_frame (pkthdr, packet) = true) /\
  (if empty_payload_frame (pkthdr, packet)
      && negb (truncated_frame (pkthdr, packet))
   then exists c,
          no_payload_counter c = true /\
          value_of c g' = size_incr (value_of c g) /\
          forall k, no_payload_counter k = true -> k <> c ->
                    value_of k g' = value_of k g
   else forall k, no_payload_counter k = true ->
                  value_of k g' = value_of k g).
Proof.
  intro H.
  destruct (packetHandler_Ok _ _ _ _ _ _ _ H)
    as [v [g1 [w [Hv [Hget [Hpl [Hkeep [Hempty Hfull]]]]]]]].
  pose proof (frame_word_of_call _ _ _ _ _ Hget) as Hfw.
  unfold get_payload in Hget.
  bind_inv Hget. destruct a as [g1' r]. bind_inv Hget.
  injection Hget as -> ->.
  pose proof (frame_range_of_call _ _ _ _ _ E) as Hfr.
  pose proof (empty_word_cases _ _ _ _ _ _ E E0) as Hew.
  destruct (get_payload_range_counters _ _ _ _ _ E)
    as [_ [Hhandler [Hl3 Hnp]]].
  set (g0 := incr Total_packets (set_packet_lengths v g)) in *.
  assert (Hg0 : forall k, k <> Total_packets ->
            value_of k g0 = value_of k g).
  { intros k Hk. unfold g0.
    rewrite value_of_incr_other by exact Hk.
    apply value_of_set_packet_lengths. }
  assert (Hemp : empty_payload_frame (pkthdr, packet) = empty w).
  { unfold empty_payload_frame. rewrite Hfw. reflexivity. }
  assert (Htr : truncated_frame (pkthdr, packet)
                = match r with
                  | No_range => false
                  | Range first _ => len pkthdr <=? first
                  end).
  { unfold truncated_frame. rewrite Hfr. reflexivity. }
  rewrite Hemp, Htr.
  split.
  { change (value_of Total_packets g'
            = size_incr (value_of Total_packets g)).
    rewrite Hkeep by reflexivity. rewrite Hhandler by reflexivity.
    unfold g0. rewrite value_of_incr_same, value_of_set_packet_lengths.
    reflexivity. }
  split.
  { destruct Hl3 as [c [Hc [Hinc Hrest]]]. exists c.
    split; [exact Hc|]. split.
    - rewrite Hkeep by (destruct c; try discriminate; reflexivity).
      rewrite Hinc, Hg0 by (intros ->; discriminate). reflexivity.
    - intros k Hk Hne.
      rewrite Hkeep by (destruct k; try discriminate; reflexivity).
      rewrite Hrest, Hg0 by (try assumption; intros ->; discriminate).
      reflexivity. }
  split.
  { change (payloaded_packets g) with (value_of Payloaded_packets g).
    rewrite <- (Hg0 Payloaded_packets) by discriminate.
    rewrite <- (Hhandler Payloaded_packets) by reflexivity.
    destruct (empty w) eqn:Hw.
    - rewrite (Hempty eq_refl). reflexivity.
    - apply (Hfull eq_refl). }
  split.
  { rewrite Hew. destruct r; [discriminate | intro Hr; exact Hr]. }
  assert (Hkeep' : forall k, no_payload_counter k = true ->
            value_of k g' = value_of k g1).
  { intros k Hk. apply Hkeep. destruct k; try discriminate; reflexivity. }
  assert (Hg0' : forall k, no_payload_counter k = true ->
            value_of k g0 = value_of k g).
  { intros k Hk. apply Hg0. intros ->. discriminate. }
  rewrite Hew. destruct r as [|first last].
  - simpl. destruct Hnp as [c [Hc [Hinc Hrest]]]. exists c.
    split; [exact Hc|]. split.
    + rewrite Hkeep', Hinc, Hg0' by exact Hc. reflexivity.
    + intros k Hk Hne. rewrite Hkeep', Hrest, Hg0' by assumption.
      reflexivity.
  - replace ((len pkthdr <=? first) && negb (len pkthdr <=? first))
      with false by (destruct (len pkthdr <=? first); reflexivity).
    intros k Hk. rewrite Hkeep', Hnp, Hg0' by exact Hk. reflexivity.
Qed.

(* Induction over the frames handled so far. *)
Lemma pcap_loop_invariant (P : globals -> list frame -> Prop) :
  (forall g done pkthdr packet g',
      P g done ->
      packetHandler is_in_lang aut1 aut2 g pkthdr packet = Ok g' ->
      P g' (done ++ [(pkthdr, packet)])) ->
  forall rest g done g',
    P g done ->
    pcap_loop (packetHandler is_in_lang aut1 aut2) g rest = Ok g' ->
    P g' (done ++ rest).
Proof.
  intros Hstep rest.
  induction rest as [|[pkthdr packet] rest IH]; intros g done g' HP Hrun.
  - injection Hrun as <-. rewrite app_nil_r. exact HP.
  - simpl in Hrun. bind_inv Hrun.
    specialize (IH a (done ++ [(pkthdr, packet)]) g'
                  (Hstep _ _ _ _ _ HP E) Hrun).
    rewrite <- app_assoc in IH. exact IH.
Qed.

Lemma sample_invariant (P : globals -> list frame -> Prop) :
  P initial_globals [] ->
  (forall g done pkthdr packet g',
      P g done ->
      packetHandler is_in_lang aut1 aut2 g pkthdr packet = Ok g' ->
      P g' (done ++ [(pkthdr, packet)])) ->
  forall frames g,
    sample is_in_lang aut1 aut2 frames = Ok g -> P g frames.
Proof.
  intros H0 Hstep frames g Hrun.
  apply (pcap_loop_invariant P Hstep frames initial_globals [] g H0 Hrun).
Qed.

End Runs.

(** ** Statistics of a run (C3, C5) *)

Section Statistics.

Context {Nfa : Type} (is_in_lang : Nfa -> Word -> bool).
Variables aut1 aut2 : Nfa.

Lemma l3_invariant_step (g g' : globals) (done : list frame)
    (pkthdr : pcap_pkthdr) (packet : list byte) :
  l3_invariant g done ->
  packetHandler is_in_lang aut1 aut2 g pkthdr packet = Ok g' ->
  l3_invariant g' (done ++ [(pkthdr, packet)]).
Proof.
  intros [Hmod Hexact] H.
  destruct (packetHandler_step _ _ _ _ _ _ _ H)
    as [Htotal [[c [Hc [Hinc Hrest]]] _]].
  pose proof (Hrest Ipv4_packets eq_refl) as H4.
  pose proof (Hrest Ipv6_packets eq_refl) as H6.
  pose proof (Hrest Other_l3_packets eq_refl) as Ho.
  simpl in H4, H6, Ho.
  unfold l3_invariant. rewrite length_app. simpl length.
  destruct c; try discriminate; simpl in Hinc;
    [ rewrite Hinc, H6, Ho by discriminate
    | rewrite Hinc, H4, Ho by discriminate
    | rewrite Hinc, H4, H6 by discriminate ];
    rewrite Htotal; (split;
      [ rewrite <- Hmod, size_incr_of_mod
      | intro Hlt; destruct Hexact as [Hsum Htot]; [lia|];
        rewrite Htot, !size_incr_small by lia; lia ]).
  - replace (size_incr (ipv4_packets g) + ipv6_packets g
             + other_l3_packets g)
      with (size_incr (ipv4_packets g)
            + (ipv6_packets g + other_l3_packets g)) by lia.
    rewrite size_incr_mod. f_equal. lia.
  - replace (ipv4_packets g + size_incr (ipv6_packets g)
             + other_l3_packets g)
      with (size_incr (ipv6_packets g)
            + (ipv4_packets g + other_l3_packets g)) by lia.
    rewrite size_incr_mod. f_equal. lia.
  - replace (ipv4_packets g + ipv6_packets g
             + size_incr (other_l3_packets g))
      with (size_incr (other_l3_packets g)
            + (ipv4_packets g + ipv6_packets g)) by lia.
    rewrite size_incr_mod. f_equal. lia.
Qed.

(** C3.  After every frame callback of a run the sum of the IPv4, IPv6
    and other-L3 counters equals the total-frame counter (in [size_t]
    arithmetic, and as numbers while fewer than [2^64] frames were
    handled), and the next callback increments the total-frame counter and
    exactly one of these three counters. *)
Theorem l3_counters_sum_to_total (frames : list frame) (g : globals) :
  sample is_in_lang aut1 aut2 frames = Ok g ->
  (ipv4_packets g + ipv6_packets g + other_l3_packets g)
    mod size_t_modulus = total_packets g /\
  (N.of_nat (length frames) < size_t_modulus ->
   ipv4_packets g + ipv6_packets g + other_l3_packets g = total_packets g /\
   total_packets g = N.of_nat (length frames)) /\
  (forall pkthdr packet g',
      packetHandler is_in_lang aut1 aut2 g pkthdr packet = Ok g' ->
      total_packets g' = size_incr (total_packets g) /\
      exists c,
        l3_counter c = true /\
        value_of c g' = size_incr (value_of c g) /\
        forall k, l3_counter k = true -> k <> c ->
                  value_of k g' = value_of k g).
Proof.
  intro Hrun.
  assert (Hinv : l3_invariant g frames).
  { apply (sample_invariant is_in_lang aut1 aut2 l3_invariant);
      [ | | exact Hrun].
    - split; [reflexivity|]. intros _. split; reflexivity.
    - intros g0 done pkthdr packet g0' HP Hh.
      eapply l3_invariant_step; eassumption. }
  destruct Hinv as [Hmod Hexact].
  split; [exact Hmod|].
  split.
  - intro Hlt. destruct (Hexact Hlt) as [Hsum Htot].
    split; [congruence | exact Htot].
  - intros pkthdr packet g' Hh.
    destruct (packetHandler_step _ _ _ _ _ _ _ Hh) as [Htotal [Hl3 _]].
    split; assumption.
Qed.

Lemma count_frames_snoc (p : frame -> bool) (done : list frame)
    (f : frame) :
  count_frames p (done ++ [f])
  = count_frames p done + (if p f then 1 else 0).
Proof.
  unfold count_frames. rewrite filter_app, length_app. simpl.
  destruct (p f); simpl; lia.
Qed.

Lemma count_frames_le (p : frame -> bool) (done : list frame) :
  count_frames p done <= N.of_nat (length done).
Proof.
  unfold count_frames. pose proof (filter_length_le p done). lia.
Qed.

Lemma payload_invariant_step (g g' : globals) (done : list frame)
    (pkthdr : pcap_pkthdr) (packet : list byte) :
  payload_invariant g done ->
  packetHandler is_in_lang aut1 aut2 g pkthdr packet = Ok g' ->
  payload_invariant g' (done ++ [(pkthdr, packet)]).
Proof.
  intros [Hm1 [Hm2 Hexact]] H.
  destruct (packetHandler_step _ _ _ _ _ _ _ H)
    as [Htotal [_ [Hpay [Htr Hnp]]]].
  pose proof (count_frames_le empty_payload_frame done) as Hle1.
  unfold payload_invariant.
  rewrite !count_frames_snoc, length_app. simpl length.
  destruct (empty_payload_frame (pkthdr, packet)) eqn:He;
    destruct (truncated_frame (pkthdr, packet)) eqn:Ht; simpl in Hnp.
  - (* truncated frame *)
    pose proof (Hnp Other_l3_packets eq_refl) as H3.
    pose proof (Hnp Other_l4_packets eq_refl) as H4.
    pose proof (Hnp Gre_packets eq_refl) as Hg.
    pose proof (Hnp Pim_packets eq_refl) as Hp.
    simpl in H3, H4, Hg, Hp. rewrite H3, H4, Hg, Hp, Hpay, Htotal.
    split; [rewrite Hm1, size_incr_of_mod; f_equal; lia|].
    split; [rewrite !N.add_assoc; apply mod_succ_congr; exact Hm2|].
    intro Hlt. destruct Hexact as [Hn [Hsum Hemp]]; [lia|].
    rewrite size_incr_small by lia. lia.
  - (* [return Word();] *)
    destruct Hnp as [c [Hc [Hinc Hrest]]].
    pose proof (Hrest Other_l3_packets eq_refl) as H3.
    pose proof (Hrest Other_l4_packets eq_refl) as H4.
    pose proof (Hrest Gre_packets eq_refl) as Hg.
    pose proof (Hrest Pim_packets eq_refl) as Hp.
    simpl in H3, H4, Hg, Hp. rewrite Hpay, Htotal, N.add_0_r.
    split; [rewrite Hm1, size_incr_of_mod; f_equal; lia|].
    destruct c; try discriminate; simpl in Hinc;
      [ rewrite Hinc, H4, H3, Hp by discriminate
      | rewrite Hinc, H3, H4, Hg by discriminate
      | rewrite Hinc, Hg, H4, Hp by discriminate
      | rewrite Hinc, H3, Hg, Hp by discriminate ];
      (split;
       [ | intro Hlt; destruct Hexact as [Hn [Hsum Hemp]]; [lia|];
           rewrite !size_incr_small by lia; lia ]).
    + replace (other_l3_packets g + other_l4_packets g
               + size_incr (gre_packets g) + pim_packets g
               + count_frames truncated_frame done)
        with (size_incr (gre_packets g)
              + (other_l3_packets g + other_l4_packets g + pim_packets g
                 + count_frames truncated_frame done)) by lia.
      rewrite size_incr_mod. etransitivity; [|apply mod_succ_congr, Hm2].
      f_equal. lia.
    + replace (other_l3_packets g + other_l4_packets g
               + gre_packets g + size_incr (pim_packets g)
               + count_frames truncated_frame done)
        with (size_incr (pim_packets g)
              + (other_l3_packets g + other_l4_packets g + gre_packets g
                 + count_frames truncated_frame done)) by lia.
      rewrite size_incr_mod. etransitivity; [|apply mod_succ_congr, Hm2].
      f_equal. lia.
    + replace (size_incr (other_l3_packets g) + other_l4_packets g
               + gre_packets g + pim_packets g
               + count_frames truncated_frame done)
        with (size_incr (other_l3_packets g)
              + (other_l4_packets g + gre_packets g + pim_packets g
                 + count_frames truncated_frame done)) by lia.
      rewrite size_incr_mod. etransitivity; [|apply mod_succ_congr, Hm2].
      f_equal. lia.
    + replace (other_l3_packets g + size_incr (other_l4_packets g)
               + gre_packets g + pim_packets g
               + count_frames truncated_frame done)
        with (size_incr (other_l4_packets g)
              + (other_l3_packets g + gre_packets g + pim_packets g
                 + count_frames truncated_frame done)) by lia.
      rewrite size_incr_mod. etransitivity; [|apply mod_succ_congr, Hm2].
      f_equal. lia.
  - specialize (Htr eq_refl). discriminate.
  - (* frame with a payload *)
    pose proof (Hnp Other_l3_packets eq_refl) as H3.
    pose proof (Hnp Other_l4_packets eq_refl) as H4.
    pose proof (Hnp Gre_packets eq_refl) as Hg.
    pose proof (Hnp Pim_packets eq_refl) as Hp.
    simpl in H3, H4, Hg, Hp.
    rewrite H3, H4, Hg, Hp, Hpay, Htotal, !N.add_0_r.
    split; [rewrite size_incr_mod, Hm1, size_incr_of_mod; reflexivity|].
    split; [exact Hm2|].
    intro Hlt. destruct Hexact as [Hn [Hsum Hemp]]; [lia|].
    rewrite !size_incr_small by lia. lia.
Qed.

(** C5.  After a run the total-frame counter equals the payloaded-frame
    counter plus the number of frames that produced an empty payload, and
    that number equals the sum of the other-L3, other-L4, GRE and PIM
    counters plus the number of truncated frames (in [size_t] arithmetic,
    and as numbers for a capture of fewer than [2^64] frames). *)
Theorem total_is_payloaded_plus_empty (frames : list frame) (g : globals) :
  sample is_in_lang aut1 aut2 frames = Ok g ->
  total_packets g
  = (payloaded_packets g + count_frames empty_payload_frame frames)
      mod size_t_modulus /\
  (other_l3_packets g + other_l4_packets g + gre_packets g + pim_packets g
   + count_frames truncated_frame frames) mod size_t_modulus
  = count_frames empty_payload_frame frames mod size_t_modulus /\
  (N.of_nat (length frames) < size_t_modulus ->
   total_packets g
   = payloaded_packets g + count_frames empty_payload_frame frames /\
   count_frames empty_payload_frame frames
   = other_l3_packets g + other_l4_packets g + gre_packets g
     + pim_packets g + count_frames truncated_frame frames).
Proof.
  intro Hrun.
  assert (Hinv : payload_invariant g frames).
  { apply (sample_invariant is_in_lang aut1 aut2 payload_invariant);
      [ | | exact Hrun].
    - split; [reflexivity|]. split; [reflexivity|].
      intros _. repeat split; reflexivity.
    - intros g0 done pkthdr packet g0' HP Hh.
      eapply payload_invariant_step; eassumption. }
  destruct Hinv as [Hm1 [Hm2 Hexact]].
  split; [exact Hm1|]. split; [exact Hm2|].
  intro Hlt. destruct (Hexact Hlt) as [_ [Hsum Hemp]].
  split; assumption.
Qed.

End Statistics.

(** ** Nested IP-in-IP (C4) *)

Lemma l4_iteration_ipip (g : globals) (packet : list byte) (ip_in_ip : bool)
    (offset : N) :
  l4_iteration g packet ip_in_ip IPPROTO_IPIP offset
  = if ip_in_ip then AssertFailed
    else ip_p <- read_u8 packet (offset + offsetof_ip_p) ;;
         Ok (Continue (incr Ipip_packets g) true ip_p
               (size_add offset sizeof_ip)).
Proof. reflexivity. Qed.

Lemma l4_iteration_not_ipip (g : globals) (packet : list byte)
    (ip_in_ip : bool) (l4_proto offset : N) :
  l4_proto <> IPPROTO_IPIP ->
  l4_iteration g packet ip_in_ip l4_proto offset <> AssertFailed /\
  forall g' ip_in_ip' l4_proto' offset',
    l4_iteration g packet ip_in_ip l4_proto offset
    = Ok (Continue g' ip_in_ip' l4_proto' offset') ->
    ip_in_ip' = ip_in_ip.
Proof.
  intro Hne. apply N.eqb_neq in Hne.
  unfold l4_iteration.
  destruct (l4_proto =? IPPROTO_TCP).
  { destruct (read_u8_cases packet (offset + offsetof_th_off))
      as [[v ->] | ->]; simpl; split; intros; discriminate. }
  destruct (l4_proto =? IPPROTO_UDP); [split; intros; discriminate|].
  rewrite Hne.
  destruct (l4_proto =? IPPROTO_ESP); [split; intros; discriminate|].
  destruct (l4_proto =? IPPROTO_ICMP); [split; intros; discriminate|].
  destruct (l4_proto =? IPPROTO_GRE); [split; intros; discriminate|].
  destruct (l4_proto =? IPPROTO_ICMPV6); [split; intros; discriminate|].
  destruct (l4_proto =? IPPROTO_FRAGMENT).
  { destruct (read_u8_cases packet (offset + offsetof_ip6f_nxt))
      as [[v ->] | ->]; simpl; (split; [discriminate|]);
      intros g' ip' l4' off' H; [|discriminate].
    injection H as _ <- _ _. reflexivity. }
  destruct (l4_proto =? IPPROTO_IPV6).
  { destruct (read_u8_cases packet (offset + offsetof_ip6_nxt))
      as [[v ->] | ->]; simpl; split; intros; discriminate. }
  destruct (l4_proto =? IPPROTO_PIM); split; intros; discriminate.
Qed.

Lemma count_protocol_cons (p x : N) (l : list N) :
  count_protocol p (x :: l)
  = ((if x =? p then 1 else 0) + count_protocol p l)%nat.
Proof. unfold count_protocol. simpl. destruct (x =? p); reflexivity. Qed.

(* The loop stops on the assertion exactly when it dispatches on IP-in-IP
   with [ip_in_ip] already set. *)
Lemma l4_loop_assert (fuel : nat) (g : globals) (packet : list byte)
    (ip_in_ip : bool) (l4_proto offset : N) :
  l4_loop fuel g packet ip_in_ip l4_proto offset = AssertFailed <->
  ((if ip_in_ip then 1 else 2)
   <= count_protocol IPPROTO_IPIP
        (l4_protocols fuel g packet ip_in_ip l4_proto offset))%nat.
Proof.
  revert g ip_in_ip l4_proto offset.
  induction fuel as [|fuel IH]; intros g ip_in_ip l4_proto offset.
  - simpl. split; [discriminate|]. unfold count_protocol. simpl.
    destruct ip_in_ip; lia.
  - cbn [l4_loop l4_protocols]. rewrite count_protocol_cons.
    destruct (l4_proto =? IPPROTO_IPIP) eqn:Hp.
    + apply N.eqb_eq in Hp. subst l4_proto. rewrite l4_iteration_ipip.
      destruct ip_in_ip.
      * simpl. split; [lia | reflexivity].
      * destruct (read_u8_cases packet (offset + offsetof_ip_p))
          as [[v ->] | ->]; cbv beta iota delta [bind].
        -- rewrite IH. lia.
        -- split; [discriminate|]. unfold count_protocol. simpl. lia.
    + apply N.eqb_neq in Hp.
      destruct (l4_iteration_not_ipip g packet ip_in_ip _ offset Hp)
        as [Hna Hip].
      destruct (l4_iteration g packet ip_in_ip l4_proto offset)
        as [[g' ip' l4' off' | g' e]| | |] eqn:Hit;
        cbv beta iota delta [bind].
      * rewrite (Hip _ _ _ _ eq_refl). rewrite IH. simpl. reflexivity.
      * split; [discriminate|]. unfold count_protocol. simpl.
        destruct ip_in_ip; lia.
      * congruence.
      * split; [discriminate|]. unfold count_protocol. simpl.
        destruct ip_in_ip; lia.
      * split; [discriminate|]. unfold count_protocol. simpl.
        destruct ip_in_ip; lia.
Qed.

Lemma l4_protocols_globals (fuel : nat) (g1 g2 : globals)
    (packet : list byte) (ip_in_ip : bool) (l4_proto offset : N) :
  l4_protocols fuel g1 packet ip_in_ip l4_proto offset
  = l4_protocols fuel g2 packet ip_in_ip l4_proto offset.
Proof.
  revert g1 g2 ip_in_ip l4_proto offset.
  induction fuel as [|fuel IH]; intros g1 g2 ip_in_ip l4_proto offset;
    [reflexivity|].
  simpl. f_equal.
  pose proof (l4_iteration_shape g1 g2 packet ip_in_ip l4_proto offset) as Hs.
  destruct (l4_iteration g1 packet ip_in_ip l4_proto offset) as [it1| | |];
    destruct (l4_iteration g2 packet ip_in_ip l4_proto offset) as [it2| | |];
    simpl in Hs; try discriminate; try reflexivity.
  destruct it1, it2; simpl in Hs; try discriminate; try reflexivity.
  injection Hs as -> -> ->. apply IH.
Qed.

Lemma get_payload_range_assert (g : globals) (pkthdr : pcap_pkthdr)
    (packet : list byte) :
  get_payload_range g pkthdr packet = AssertFailed <->
  (2 <= count_protocol IPPROTO_IPIP (frame_l4_protocols packet))%nat.
Proof.
  assert (Hnone : forall r : result (globals * word_range),
            (exists x, r = Ok x) \/ (exists why, r = Undefined why) ->
            r = AssertFailed <->
            (2 <= count_protocol IPPROTO_IPIP [])%nat).
  { intros r [[x ->] | [why ->]]; (split; [discriminate|]);
      unfold count_protocol; simpl; lia. }
  assert (Hloop : forall ga gb l4_proto offset,
    ('(g, e) <- l4_loop (loop_fuel packet) ga packet false l4_proto offset ;;
     match e with
     | Return_empty => Ok (g, No_range)
     | Fall_through offset => Ok (g, Range offset (N.max (len pkthdr) offset))
     end) = AssertFailed <->
    (2 <= count_protocol IPPROTO_IPIP
            (l4_protocols (loop_fuel packet) gb packet false l4_proto offset))
    %nat).
  { intros ga gb l4_proto offset.
    rewrite (l4_protocols_globals _ gb ga).
    rewrite <- (l4_loop_assert (loop_fuel packet) ga packet false).
    destruct (l4_loop (loop_fuel packet) ga packet false l4_proto offset)
      as [[g3 [o|]]| | |]; simpl; split; intro H;
      try discriminate; reflexivity. }
  assert (Hnet : forall ga gb offset ether_type,
    ('(g, l3) <- network_layer ga packet offset ether_type ;;
     match l3 with
     | None => Ok (g, No_range)
     | Some (l4_proto, offset) =>
         '(g, e) <- l4_loop (loop_fuel packet) g packet false l4_proto
                      offset ;;
         match e with
         | Return_empty => Ok (g, No_range)
         | Fall_through offset =>
             Ok (g, Range offset (N.max (len pkthdr) offset))
         end
     end) = AssertFailed <->
    (2 <= count_protocol IPPROTO_IPIP
            match network_layer gb packet offset ether_type with
            | Ok (g, Some (l4_proto, offset)) =>
                l4_protocols (loop_fuel packet) g packet false l4_proto offset
            | _ => []
            end)%nat).
  { intros ga gb offset ether_type. unfold network_layer.
    destruct (ether_type =? ETHERTYPE_IP).
    - destruct (read_u8_cases packet (offset + offsetof_ip_p))
        as [[v ->] | ->]; cbv beta iota delta [bind].
      + apply Hloop.
      + apply Hnone. right. eauto.
    - destruct (ether_type =? ETHERTYPE_IPV6).
      + destruct (read_u8_cases packet (offset + offsetof_ip6_nxt))
          as [[v ->] | ->]; cbv beta iota delta [bind].
        * apply Hloop.
        * apply Hnone. right. eauto.
      + cbv beta iota delta [bind]. apply Hnone. left. eauto. }
  unfold get_payload_range, frame_l4_protocols, link_layer.
  destruct (read_ntohs_cases packet offsetof_ether_type) as [[et ->] | ->];
    cbv beta iota delta [bind]; [|apply Hnone; right; eauto].
  destruct (et =? ETHERTYPE_VLAN).
  - destruct (read_ntohs_cases packet offsetof_vlan_ether_type)
      as [[et' ->] | ->]; cbv beta iota delta [bind];
      [|apply Hnone; right; eauto].
    apply Hnet.
  - apply Hnet.
Qed.

Lemma get_payload_assert (g : globals) (pkthdr : pcap_pkthdr)
    (packet : list byte) :
  get_payload g pkthdr packet = AssertFailed <->
  get_payload_range g pkthdr packet = AssertFailed.
Proof.
  unfold get_payload.
  destruct (get_payload_range g pkthdr packet) as [[g1 r]| | |]; simpl;
    try (split; intro H; (discriminate || reflexivity)).
  unfold make_word. destruct r as [|first last]; simpl;
    [split; discriminate|].
  destruct ((first <? last) && (N.of_nat (length packet) <? last)); simpl;
    split; discriminate.
Qed.

Lemma l4_protocols_ipip_bound (fuel : nat) (g : globals)
    (packet : list byte) (ip_in_ip : bool) (l4_proto offset : N) :
  (count_protocol IPPROTO_IPIP
     (l4_protocols fuel g packet ip_in_ip l4_proto offset)
   <= if ip_in_ip then 1 else 2)%nat.
Proof.
  revert g ip_in_ip l4_proto offset.
  induction fuel as [|fuel IH]; intros g ip_in_ip l4_proto offset.
  - unfold count_protocol. simpl. destruct ip_in_ip; lia.
  - cbn [l4_protocols]. rewrite count_protocol_cons.
    destruct (l4_proto =? IPPROTO_IPIP) eqn:Hp.
    + apply N.eqb_eq in Hp. subst l4_proto. rewrite l4_iteration_ipip.
      destruct ip_in_ip; [unfold count_protocol; simpl; lia|].
      destruct (read_u8_cases packet (offset + offsetof_ip_p))
        as [[v ->] | ->]; cbv beta iota delta [bind].
      * specialize (IH (incr Ipip_packets g) true v
                       (size_add offset sizeof_ip)).
        simpl in IH. lia.
      * unfold count_protocol. simpl. lia.
    + apply N.eqb_neq in Hp.
      destruct (l4_iteration_not_ipip g packet ip_in_ip _ offset Hp)
        as [_ Hip].
      destruct (l4_iteration g packet ip_in_ip l4_proto offset)
        as [[g' ip' l4' off' | g' e]| | |] eqn:Hit;
        try (unfold count_protocol; simpl; destruct ip_in_ip; lia).
      rewrite (Hip _ _ _ _ eq_refl). apply IH.
Qed.

Lemma frame_l4_protocols_ipip_bound (packet : list byte) :
  (count_protocol IPPROTO_IPIP (frame_l4_protocols packet) <= 2)%nat.
Proof.
  unfold frame_l4_protocols.
  destruct (link_layer initial_globals packet) as [[[g offset] et]| | |];
    try (unfold count_protocol; simpl; lia).
  destruct (network_layer g packet offset et)
    as [[g' [[l4_proto offset']|]]| | |];
    try (unfold count_protocol; simpl; lia).
  apply (l4_protocols_ipip_bound _ g' packet false).
Qed.

(** ** The histogram of the declared lengths (C10) *)

Lemma initial_packet_lengths :
  N.of_nat (length (packet_lengths initial_globals)) = 2048.
Proof. vm_compute. reflexivity. Qed.

Lemma nth_error_Some_bound {A : Type} (l : list A) (n : nat) (x : A) :
  nth_error l n = Some x -> (n < length l)%nat.
Proof. intro H. apply nth_error_Some. congruence. Qed.

Lemma vector_incr_in_bounds (v : list N) (i : N) :
  i < N.of_nat (length v) ->
  exists v', vector_incr v i = Ok v' /\ length v' = length v.
Proof.
  intro Hi. unfold vector_incr.
  destruct (nth_error v (N.to_nat i)) as [x|] eqn:Hx.
  - eexists. split; [reflexivity|].
    apply nth_error_Some_bound in Hx.
    rewrite length_app, length_firstn. cbn [length].
    rewrite length_skipn. lia.
  - apply nth_error_None in Hx. lia.
Qed.

Lemma vector_incr_out_of_bounds (v : list N) (i : N) :
  N.of_nat (length v) <= i ->
  vector_incr v i = Undefined Index_outside_vector.
Proof.
  intro Hi. unfold vector_incr.
  destruct (nth_error v (N.to_nat i)) as [x|] eqn:Hx; [|reflexivity].
  assert (Hs : nth_error v (N.to_nat i) <> None) by congruence.
  apply nth_error_Some in Hs. lia.
Qed.

(* what [v[i] += 1] leaves in the vector *)
Lemma vector_incr_nth (v v' : list N) (i : N) (j : nat) :
  vector_incr v i = Ok v' ->
  nth j v' 0 = if Nat.eqb j (N.to_nat i) then size_incr (nth j v 0)
               else nth j v 0.
Proof.
  unfold vector_incr.
  destruct (nth_error v (N.to_nat i)) as [x|] eqn:Hx; [|discriminate].
  intro H.
  assert (Hv : v' = firstn (N.to_nat i) v
                    ++ size_incr x :: skipn (S (N.to_nat i)) v)
    by congruence.
  clear H. subst v'.
  pose proof (nth_error_Some_bound _ _ _ Hx) as Hi.
  assert (Hlen : length (firstn (N.to_nat i) v) = N.to_nat i).
  { rewrite length_firstn. lia. }
  destruct (Nat.eqb j (N.to_nat i)) eqn:Hj.
  - apply PeanoNat.Nat.eqb_eq in Hj. subst j.
    rewrite app_nth2 by lia. rewrite Hlen, PeanoNat.Nat.sub_diag.
    cbn [nth]. rewrite (nth_error_nth _ _ 0 Hx). reflexivity.
  - apply PeanoNat.Nat.eqb_neq in Hj.
    destruct (PeanoNat.Nat.lt_ge_cases j (N.to_nat i)) as [Hlt | Hge].
    + rewrite app_nth1 by lia. rewrite nth_firstn.
      apply PeanoNat.Nat.ltb_lt in Hlt. rewrite Hlt. reflexivity.
    + rewrite app_nth2 by lia. rewrite Hlen.
      destruct (j - N.to_nat i)%nat as [|d] eqn:Hd; [lia|].
      change (nth (S d) (size_incr x :: skipn (S (N.to_nat i)) v) 0)
        with (nth d (skipn (S (N.to_nat i)) v) 0).
      rewrite nth_skipn. f_equal. lia.
Qed.

Section Abort.

Context {Nfa : Type} (is_in_lang : Nfa -> Word -> bool).
Variables aut1 aut2 : Nfa.

Lemma packetHandler_assert (g : globals) (pkthdr : pcap_pkthdr)
    (packet : list byte) :
  len pkthdr < N.of_nat (length (packet_lengths g)) ->
  packetHandler is_in_lang aut1 aut2 g pkthdr packet = AssertFailed <->
  (2 <= count_protocol IPPROTO_IPIP (frame_l4_protocols packet))%nat.
Proof.
  intro Hlen.
  destruct (vector_incr_in_bounds _ _ Hlen) as [v [Hv _]].
  unfold packetHandler. rewrite Hv. cbv beta iota delta [bind].
  rewrite <- (get_payload_range_assert
                (incr Total_packets (set_packet_lengths v g)) pkthdr).
  rewrite <- get_payload_assert.
  destruct (get_payload (incr Total_packets (set_packet_lengths v g))
              pkthdr packet) as [[g1 w]| | |];
    try (split; intro H; (discriminate || reflexivity)).
  destruct (empty w); split; discriminate.
Qed.

(** C4.  [get_payload] stops on the assertion exactly when the transport
    loop dispatches on the IP-in-IP protocol a second time (it never
    dispatches on it a third time); a single IP-in-IP layer never stops
    it.  The assertion ends the handler and the capture loop with it: no
    later frame is handled. *)
Theorem second_ipip_layer_aborts (g : globals) (pkthdr : pcap_pkthdr)
    (packet : list byte) (rest : list frame) :
  (get_payload g pkthdr packet = AssertFailed <->
   (2 <= count_protocol IPPROTO_IPIP (frame_l4_protocols packet))%nat) /\
  (count_protocol IPPROTO_IPIP (frame_l4_protocols packet) <= 2)%nat /\
  (len pkthdr < N.of_nat (length (packet_lengths g)) ->
   (packetHandler is_in_lang aut1 aut2 g pkthdr packet = AssertFailed <->
    (2 <= count_protocol IPPROTO_IPIP (frame_l4_protocols packet))%nat) /\
   ((2 <= count_protocol IPPROTO_IPIP (frame_l4_protocols packet))%nat ->
    pcap_loop (packetHandler is_in_lang aut1 aut2) g
      ((pkthdr, packet) :: rest) = AssertFailed)).
Proof.
  split.
  { rewrite get_payload_assert. apply get_payload_range_assert. }
  split; [apply frame_l4_protocols_ipip_bound|].
  intro Hlen. split; [apply packetHandler_assert; exact Hlen|].
  intro Hcount. apply (packetHandler_assert g pkthdr packet Hlen) in Hcount.
  simpl. rewrite Hcount. reflexivity.
Qed.

End Abort.

(** ** IPv4-in-IPv4 with an inner UDP header (C6) *)

Lemma ipip_udp_range (g : globals) (pkthdr : pcap_pkthdr)
    (packet : list byte) :
  read_ntohs packet offsetof_ether_type = Ok ETHERTYPE_IP ->
  read_u8 packet (sizeof_ether_header + offsetof_ip_p) = Ok IPPROTO_IPIP ->
  read_u8 packet (sizeof_ether_header + sizeof_ip + offsetof_ip_p)
  = Ok IPPROTO_UDP ->
  get_payload_range g pkthdr packet
  = Ok (incr Udp_packets (incr Ipip_packets (incr Ipv4_packets g)),
        Range (sizeof_ether_header + sizeof_ip + sizeof_ip + sizeof_udphdr)
          (N.max (len pkthdr)
             (sizeof_ether_header + sizeof_ip + sizeof_ip + sizeof_udphdr))).
Proof.
  intros Het Houter Hinner. unfold get_payload_range.
  rewrite (link_layer_untagged g packet ETHERTYPE_IP Het) by discriminate.
  cbv beta iota delta [bind].
  rewrite (network_layer_ipv4 g packet _ _ Houter).
  cbv beta iota delta [bind]. unfold loop_fuel.
  change (size_add sizeof_ether_header sizeof_ip)
    with (sizeof_ether_header + sizeof_ip).
  rewrite (l4_loop_first_ipip _ _ _ _ _ Hinner).
  rewrite l4_loop_udp. reflexivity.
Qed.

Section Scenario.

Context {Nfa : Type} (is_in_lang : Nfa -> Word -> bool).
Variables aut1 aut2 : Nfa.

Lemma packetHandler_returns (g g1 : globals) (pkthdr : pcap_pkthdr)
    (packet : list byte) (v : list N) (w : Word) :
  vector_incr (packet_lengths g) (len pkthdr) = Ok v ->
  get_payload (incr Total_packets (set_packet_lengths v g)) pkthdr packet
  = Ok (g1, w) ->
  exists g', packetHandler is_in_lang aut1 aut2 g pkthdr packet = Ok g'.
Proof.
  intros Hv Hget. unfold packetHandler. rewrite Hv.
  cbv beta iota delta [bind]. rewrite Hget.
  destruct (empty w); eexists; reflexivity.
Qed.

(** C6.  For an untagged frame whose IPv4 header carries protocol 4 and
    whose inner IPv4 header carries protocol 17, [get_payload] counts one
    IP-in-IP layer and one UDP layer and returns the bytes from offset
    14 + 20 + 20 + 8 to the declared length; handling a capture that
    consists of this frame leaves both counters at 1. *)
Theorem ipip_udp_frame_payload (pkthdr : pcap_pkthdr) (packet : list byte) :
  read_ntohs packet offsetof_ether_type = Ok ETHERTYPE_IP ->
  read_u8 packet (sizeof_ether_header + offsetof_ip_p) = Ok IPPROTO_IPIP ->
  read_u8 packet (sizeof_ether_header + sizeof_ip + offsetof_ip_p)
  = Ok IPPROTO_UDP ->
  let first := sizeof_ether_header + sizeof_ip + sizeof_ip + sizeof_udphdr in
  exists g',
    get_payload_range initial_globals pkthdr packet
    = Ok (g', Range first (N.max (len pkthdr) first)) /\
    ipip_packets g' = 1 /\ udp_packets g' = 1 /\
    (first <= len pkthdr -> len pkthdr <= N.of_nat (length packet) ->
     get_payload initial_globals pkthdr packet
     = Ok (g', slice packet first (len pkthdr))) /\
    (len pkthdr <= N.of_nat (length packet) -> len pkthdr < 2048 ->
     exists g'',
       sample is_in_lang aut1 aut2 [(pkthdr, packet)] = Ok g'' /\
       ipip_packets g'' = 1 /\ udp_packets g'' = 1).
Proof.
  intros Het Houter Hinner first.
  exists (incr Udp_packets (incr Ipip_packets
            (incr Ipv4_packets initial_globals))).
  split; [apply ipip_udp_range; assumption|].
  split; [reflexivity|]. split; [reflexivity|].
  assert (Hword : len pkthdr <= N.of_nat (length packet) ->
            make_word packet (Range first (N.max (len pkthdr) first))
            = Ok (slice packet first (N.max (len pkthdr) first))).
  { intro Hlen. unfold make_word.
    destruct (N.le_gt_cases first (len pkthdr)) as [Hle | Hgt].
    - rewrite N.max_l by exact Hle.
      replace (N.of_nat (length packet) <? len pkthdr) with false
        by (symmetry; apply N.ltb_ge; exact Hlen).
      rewrite andb_false_r. reflexivity.
    - rewrite N.max_r by lia. rewrite N.ltb_irrefl. reflexivity. }
  split.
  { intros Hfirst Hlen. unfold get_payload.
    rewrite (ipip_udp_range _ _ _ Het Houter Hinner).
    cbv beta iota delta [bind]. fold first. rewrite (Hword Hlen).
    rewrite N.max_l by exact Hfirst. reflexivity. }
  intros Hlen H2048. unfold sample.
  assert (Hlt : len pkthdr
                < N.of_nat (length (packet_lengths initial_globals))).
  { rewrite initial_packet_lengths. exact H2048. }
  destruct (vector_incr_in_bounds _ _ Hlt) as [v [Hv _]].
  assert (Hget : get_payload
                   (incr Total_packets
                      (set_packet_lengths v initial_globals))
                   pkthdr packet
                 = Ok (incr Udp_packets (incr Ipip_packets
                         (incr Ipv4_packets
                            (incr Total_packets
                               (set_packet_lengths v initial_globals)))),
                       slice packet first (N.max (len pkthdr) first))).
  { unfold get_payload.
    rewrite (ipip_udp_range _ _ _ Het Houter Hinner).
    cbv beta iota delta [bind]. fold first. rewrite (Hword Hlen).
    reflexivity. }
  destruct (packetHandler_returns _ _ _ _ _ _ Hv Hget) as [g'' Hh].
  exists g''. split; [simpl; rewrite Hh; reflexivity|].
  destruct (packetHandler_Ok _ _ _ _ _ _ _ Hh)
    as [v' [g1 [w [Hv' [Hget' [_ [Hkeep _]]]]]]].
  rewrite Hv in Hv'. injection Hv' as <-.
  rewrite Hget in Hget'. injection Hget' as <- _.
  split.
  - change (value_of Ipip_packets g'' = 1).
    rewrite Hkeep by reflexivity. reflexivity.
  - change (value_of Udp_packets g'' = 1).
    rewrite Hkeep by reflexivity. reflexivity.
Qed.

End Scenario.

(** ** Undefined behaviour and termination *)

Ltac l4_cases :=
  unfold l4_iteration;
  repeat match goal with
  | |- context [if ?l =? ?c then _ else _] => destruct (l =? c) eqn:?
  end;
  repeat match goal with
  | |- context [if ?b then _ else _] => destruct b
  end;
  repeat match goal with
  | |- context [bind (read_u8 ?p ?o) _] =>
      destruct (read_u8_cases p o) as [[? ->] | ->]
  end;
  cbv beta iota delta [bind].

(* the three ways in which [get_payload] goes on after the network layer *)
Lemma get_payload_range_cases (g : globals) (pkthdr : pcap_pkthdr)
    (packet : list byte) :
  get_payload_range g pkthdr packet = Undefined Read_outside_packet \/
  (exists g2, get_payload_range g pkthdr packet = Ok (g2, No_range)) \/
  (exists g2 l4_proto offset,
     get_payload_range g pkthdr packet
     = ('(g, e) <- l4_loop (loop_fuel packet) g2 packet false l4_proto
                     offset ;;
        match e with
        | Return_empty => Ok (g, No_range)
        | Fall_through offset =>
            Ok (g, Range offset (N.max (len pkthdr) offset))
        end) /\
     offset <= sizeof_vlan_ethhdr + sizeof_ip6_hdr).
Proof.
  unfold get_payload_range, link_layer.
  destruct (read_ntohs_cases packet offsetof_ether_type) as [[et ->] | ->];
    cbv beta iota delta [bind]; [|left; reflexivity].
  assert (Hnet : forall ga offset ether_type,
    offset <= sizeof_vlan_ethhdr ->
    let r := '(g, l3) <- network_layer ga packet offset ether_type ;;
             match l3 with
             | None => Ok (g, No_range)
             | Some (l4_proto, offset) =>
                 '(g, e) <- l4_loop (loop_fuel packet) g packet false
                              l4_proto offset ;;
                 match e with
                 | Return_empty => Ok (g, No_range)
                 | Fall_through offset =>
                     Ok (g, Range offset (N.max (len pkthdr) offset))
                 end
             end in
    r = Undefined Read_outside_packet \/
    (exists g2, r = Ok (g2, No_range)) \/
    (exists g2 l4_proto offset,
       r = ('(g, e) <- l4_loop (loop_fuel packet) g2 packet false l4_proto
                         offset ;;
            match e with
            | Return_empty => Ok (g, No_range)
            | Fall_through offset =>
                Ok (g, Range offset (N.max (len pkthdr) offset))
            end) /\
       offset <= sizeof_vlan_ethhdr + sizeof_ip6_hdr)).
  { intros ga offset ether_type Hoff r. subst r. unfold network_layer.
    assert (Hadd : forall k, k <= sizeof_ip6_hdr ->
              size_add offset k <= sizeof_vlan_ethhdr + sizeof_ip6_hdr).
    { intros k Hk. unfold size_add.
      unfold sizeof_vlan_ethhdr, sizeof_ip6_hdr in *.
      rewrite N.mod_small by (unfold size_t_modulus; simpl; lia). lia. }
    destruct (ether_type =? ETHERTYPE_IP).
    - destruct (read_u8_cases packet (offset + offsetof_ip_p))
        as [[v ->] | ->]; cbv beta iota delta [bind]; [|left; reflexivity].
      right. right. eexists _, _, _. split; [reflexivity|].
      apply Hadd. unfold sizeof_ip, sizeof_ip6_hdr. lia.
    - destruct (ether_type =? ETHERTYPE_IPV6).
      + destruct (read_u8_cases packet (offset + offsetof_ip6_nxt))
          as [[v ->] | ->]; cbv beta iota delta [bind]; [|left; reflexivity].
        right. right. eexists _, _, _. split; [reflexivity|].
        apply Hadd. lia.
      + right. left. eexists. reflexivity. }
  destruct (et =? ETHERTYPE_VLAN).
  - destruct (read_ntohs_cases packet offsetof_vlan_ether_type)
      as [[et' ->] | ->]; cbv beta iota delta [bind]; [|left; reflexivity].
    apply Hnet. lia.
  - apply Hnet. unfold sizeof_ether_header, sizeof_vlan_ethhdr. lia.
Qed.

Lemma l4_iteration_undefined (g : globals) (packet : list byte)
    (ip_in_ip : bool) (l4_proto offset : N) (why : undefined_behaviour) :
  l4_iteration g packet ip_in_ip l4_proto offset = Undefined why ->
  why = Read_outside_packet.
Proof. l4_cases; intro H; try discriminate; congruence. Qed.

Lemma l4_loop_undefined (fuel : nat) (g : globals) (packet : list byte)
    (ip_in_ip : bool) (l4_proto offset : N) (why : undefined_behaviour) :
  l4_loop fuel g packet ip_in_ip l4_proto offset = Undefined why ->
  why = Read_outside_packet.
Proof.
  revert g ip_in_ip l4_proto offset.
  induction fuel as [|fuel IH]; intros g ip_in_ip l4_proto offset;
    [discriminate|].
  simpl.
  destruct (l4_iteration g packet ip_in_ip l4_proto offset)
    as [[g' ip' l4' off' | g' e]| | |] eqn:Hit; simpl; try discriminate.
  - apply IH.
  - intro H. injection H as <-.
    apply l4_iteration_undefined in Hit. exact Hit.
Qed.

Lemma get_payload_undefined (g : globals) (pkthdr : pcap_pkthdr)
    (packet : list byte) (why : undefined_behaviour) :
  get_payload g pkthdr packet = Undefined why -> why = Read_outside_packet.
Proof.
  unfold get_payload.
  destruct (get_payload_range_cases g pkthdr packet)
    as [-> | [[g2 ->] | [g2 [l4_proto [offset [-> _]]]]]];
    cbv beta iota delta [bind].
  - congruence.
  - simpl. discriminate.
  - destruct (l4_loop (loop_fuel packet) g2 packet false l4_proto offset)
      as [[g3 e]| | |] eqn:Hl; try discriminate.
    + destruct e as [o|]; [|simpl; discriminate].
      unfold make_word.
      destruct ((o <? N.max (len pkthdr) o)
                && (N.of_nat (length packet) <? N.max (len pkthdr) o));
        [congruence | discriminate].
    + intro H. injection H as <-. apply l4_loop_undefined in Hl. exact Hl.
Qed.

Lemma read_u8_Ok_bound (packet : list byte) (off v : N) :
  read_u8 packet off = Ok v -> off < N.of_nat (length packet).
Proof.
  unfold read_u8.
  destruct (nth_error packet (N.to_nat off)) as [b|] eqn:Hb; [|discriminate].
  intros _. apply nth_error_Some_bound in Hb. lia.
Qed.

Lemma l4_iteration_returns (g : globals) (packet : list byte)
    (ip_in_ip : bool) (l4_proto offset : N) :
  l4_iteration g packet ip_in_ip l4_proto offset <> OutOfFuel.
Proof. l4_cases; discriminate. Qed.

(* An iteration that continues has moved the offset forward past a byte
   that it read, or has set [ip_in_ip]. *)
Lemma l4_iteration_progress (g g' : globals) (packet : list byte)
    (ip_in_ip ip_in_ip' : bool) (l4_proto l4_proto' offset offset' : N) :
  addressable packet ->
  l4_iteration g packet ip_in_ip l4_proto offset
  = Ok (Continue g' ip_in_ip' l4_proto' offset') ->
  (loop_measure packet ip_in_ip' offset'
   < loop_measure packet ip_in_ip offset)%nat.
Proof.
  unfold addressable, size_t_modulus. intro Haddr.
  assert (Hadd : forall k, k <= 20 -> offset < N.of_nat (length packet) ->
            size_add offset k = offset + k).
  { intros k Hk Ho. unfold size_add, size_t_modulus.
    apply N.mod_small. lia. }
  unfold l4_iteration.
  destruct (l4_proto =? IPPROTO_TCP).
  { destruct (read_u8_cases packet (offset + offsetof_th_off))
      as [[v ->] | ->]; discriminate. }
  destruct (l4_proto =? IPPROTO_UDP); [discriminate|].
  destruct (l4_proto =? IPPROTO_IPIP).
  { destruct ip_in_ip; [discriminate|].
    destruct (read_u8 packet (offset + offsetof_ip_p)) as [v| | |] eqn:Hr;
      try discriminate.
    cbv beta iota delta [bind]. intro H. injection H as _ <- _ <-.
    apply read_u8_Ok_bound in Hr. unfold offsetof_ip_p in Hr.
    rewrite Hadd by (unfold sizeof_ip; lia).
    unfold loop_measure, sizeof_ip. lia. }
  destruct (l4_proto =? IPPROTO_ESP); [discriminate|].
  destruct (l4_proto =? IPPROTO_ICMP); [discriminate|].
  destruct (l4_proto =? IPPROTO_GRE); [discriminate|].
  destruct (l4_proto =? IPPROTO_ICMPV6); [discriminate|].
  destruct (l4_proto =? IPPROTO_FRAGMENT).
  { destruct (read_u8 packet (offset + offsetof_ip6f_nxt)) as [v| | |] eqn:Hr;
      try discriminate.
    cbv beta iota delta [bind]. intro H. injection H as _ <- _ <-.
    apply read_u8_Ok_bound in Hr. unfold offsetof_ip6f_nxt in Hr.
    rewrite Hadd by (unfold sizeof_ip6_frag; lia).
    unfold loop_measure, sizeof_ip6_frag. destruct ip_in_ip; lia. }
  destruct (l4_proto =? IPPROTO_IPV6).
  { destruct (read_u8_cases packet (offset + offsetof_ip6_nxt))
      as [[v ->] | ->]; discriminate. }
  destruct (l4_proto =? IPPROTO_PIM); discriminate.
Qed.

Lemma l4_loop_terminates (packet : list byte) :
  addressable packet ->
  forall fuel g ip_in_ip l4_proto offset,
    (loop_measure packet ip_in_ip offset < fuel)%nat ->
    l4_loop fuel g packet ip_in_ip l4_proto offset <> OutOfFuel.
Proof.
  intros Haddr fuel.
  induction fuel as [|fuel IH]; intros g ip_in_ip l4_proto offset Hm; [lia|].
  simpl.
  destruct (l4_iteration g packet ip_in_ip l4_proto offset)
    as [[g' ip' l4' off' | g' e]| | |] eqn:Hit; simpl; try discriminate.
  - apply IH.
    pose proof (l4_iteration_progress _ _ _ _ _ _ _ _ _ Haddr Hit). lia.
  - exfalso. exact (l4_iteration_returns _ _ _ _ _ Hit).
Qed.

(* [get_payload] returns, stops on the assertion or reads outside the
   packet: the loop always ends. *)
Lemma get_payload_terminates (g : globals) (pkthdr : pcap_pkthdr)
    (packet : list byte) :
  addressable packet -> get_payload g pkthdr packet <> OutOfFuel.
Proof.
  intro Haddr. unfold get_payload.
  destruct (get_payload_range_cases g pkthdr packet)
    as [-> | [[g2 ->] | [g2 [l4_proto [offset [-> _]]]]]];
    cbv beta iota delta [bind]; try discriminate.
  pose proof (l4_loop_terminates packet Haddr (loop_fuel packet) g2 false
                l4_proto offset) as Ht.
  destruct (l4_loop (loop_fuel packet) g2 packet false l4_proto offset)
    as [[g3 e]| | |]; try discriminate.
  - destruct e as [o|]; [|simpl; discriminate].
    unfold make_word.
    destruct ((o <? N.max (len pkthdr) o)
              && (N.of_nat (length packet) <? N.max (len pkthdr) o));
      discriminate.
  - exfalso. apply Ht; [|reflexivity].
    unfold loop_measure, loop_fuel. lia.
Qed.

Section Histogram.

Context {Nfa : Type} (is_in_lang : Nfa -> Word -> bool).
Variables aut1 aut2 : Nfa.

Lemma packetHandler_terminates (g : globals) (pkthdr : pcap_pkthdr)
    (packet : list byte) :
  addressable packet ->
  packetHandler is_in_lang aut1 aut2 g pkthdr packet <> OutOfFuel.
Proof.
  intro Haddr. unfold packetHandler.
  destruct (vector_incr (packet_lengths g) (len pkthdr)) as [v| | |] eqn:Hv;
    try discriminate.
  - cbv beta iota delta [bind].
    pose proof (get_payload_terminates
                  (incr Total_packets (set_packet_lengths v g)) pkthdr
                  packet Haddr) as Ht.
    destruct (get_payload (incr Total_packets (set_packet_lengths v g))
                pkthdr packet) as [[g1 w]| | |]; try discriminate.
    + destruct (empty w); discriminate.
    + congruence.
  - unfold vector_incr in Hv.
    destruct (nth_error (packet_lengths g) (N.to_nat (len pkthdr)));
      discriminate.
Qed.

Lemma pcap_loop_terminates (frames : list frame) (g : globals) :
  Forall (fun f => addressable (snd f)) frames ->
  pcap_loop (packetHandler is_in_lang aut1 aut2) g frames <> OutOfFuel.
Proof.
  intro Hall. revert g.
  induction Hall as [|[pkthdr packet] rest Haddr _ IH]; intro g;
    [discriminate|].
  simpl in *.
  pose proof (packetHandler_terminates g pkthdr packet Haddr) as Ht.
  destruct (packetHandler is_in_lang aut1 aut2 g pkthdr packet);
    try discriminate; [apply IH | congruence].
Qed.

Lemma packet_lengths_size_step (g g' : globals) (pkthdr : pcap_pkthdr)
    (packet : list byte) :
  packetHandler is_in_lang aut1 aut2 g pkthdr packet = Ok g' ->
  length (packet_lengths g') = length (packet_lengths g).
Proof.
  intro H.
  destruct (packetHandler_Ok _ _ _ _ _ _ _ H)
    as [v [g1 [w [Hv [Hget [Hpl _]]]]]].
  unfold get_payload in Hget. bind_inv Hget. destruct a as [g2 r].
  bind_inv Hget. injection Hget as <- _.
  destruct (get_payload_range_counters _ _ _ _ _ E) as [Hpl2 _].
  rewrite Hpl, Hpl2. simpl.
  destruct (N.lt_ge_cases (len pkthdr)
              (N.of_nat (length (packet_lengths g)))) as [Hlt | Hge].
  - destruct (vector_incr_in_bounds _ _ Hlt) as [v' [Hv' Hlen]].
    congruence.
  - rewrite (vector_incr_out_of_bounds _ _ Hge) in Hv. discriminate.
Qed.

Lemma packet_lengths_size (frames : list frame) (g : globals) :
  sample is_in_lang aut1 aut2 frames = Ok g ->
  N.of_nat (length (packet_lengths g)) = 2048.
Proof.
  intro Hrun.
  apply (sample_invariant is_in_lang aut1 aut2
           (fun g _ => N.of_nat (length (packet_lengths g)) = 2048))
    with (frames := frames); [ | | exact Hrun].
  - exact initial_packet_lengths.
  - intros g0 done pkthdr packet g0' HP Hh.
    rewrite (packet_lengths_size_step _ _ _ _ Hh). exact HP.
Qed.

(* the histogram after a handled frame is the histogram before it with
   [packet_lengths[pkthdr->len] += 1] done: [get_payload] does not touch it *)
Lemma packetHandler_packet_lengths (g g' : globals) (pkthdr : pcap_pkthdr)
    (packet : list byte) :
  packetHandler is_in_lang aut1 aut2 g pkthdr packet = Ok g' ->
  vector_incr (packet_lengths g) (len pkthdr) = Ok (packet_lengths g').
Proof.
  intro H.
  destruct (packetHandler_Ok _ _ _ _ _ _ _ H)
    as [v [g1 [w [Hv [Hget [Hpl _]]]]]].
  unfold get_payload in Hget. bind_inv Hget. destruct a as [g2 r].
  bind_inv Hget. injection Hget as <- _.
  destruct (get_payload_range_counters _ _ _ _ _ E) as [Hpl2 _].
  rewrite Hpl, Hpl2. exact Hv.
Qed.

Lemma size_incr_le (a : N) : size_incr a <= a + 1.
Proof. unfold size_incr, size_add. apply N.Div0.mod_le. Qed.

(* no entry of the histogram is above the number of frames handled *)
Lemma packet_lengths_entry_le (frames : list frame) (g : globals) (j : nat) :
  sample is_in_lang aut1 aut2 frames = Ok g ->
  nth j (packet_lengths g) 0 <= N.of_nat (length frames).
Proof.
  intro Hrun.
  apply (sample_invariant is_in_lang aut1 aut2
           (fun g done =>
              nth j (packet_lengths g) 0 <= N.of_nat (length done)))
    with (frames := frames); [ | | exact Hrun].
  - change (packet_lengths initial_globals) with (repeat 0 2048).
    rewrite nth_repeat. apply N.le_0_l.
  - intros g0 done pkthdr packet g0' HP Hh.
    rewrite length_app. cbn [length].
    rewrite (vector_incr_nth _ _ _ j (packetHandler_packet_lengths _ _ _ _ Hh)).
    destruct (Nat.eqb j (N.to_nat (len pkthdr))).
    + pose proof (size_incr_le (nth j (packet_lengths g0) 0)). lia.
    + lia.
Qed.

(** C10.  At every frame of a run the histogram has 2048 entries, and the
    handler increments the entry at the declared length without a check.
    The access is inside the vector exactly when the declared length is
    below 2048, and for a declared length of 2048 or more the handler
    accesses the vector out of bounds.  An access inside the vector
    increments the entry at the declared length (as a [size_t]) and leaves
    every other entry and the size as they are, and that vector is the
    histogram of the state that the handler returns; as long as the run
    with this frame has fewer than [2^64] frames the increment does not
    wrap: the entry grows by exactly one. *)
Theorem packet_lengths_access (frames : list frame) (g : globals)
    (pkthdr : pcap_pkthdr) (packet : list byte) :
  sample is_in_lang aut1 aut2 frames = Ok g ->
  N.of_nat (length (packet_lengths g)) = 2048 /\
  ((exists v, vector_incr (packet_lengths g) (len pkthdr) = Ok v)
   <-> len pkthdr < 2048) /\
  (vector_incr (packet_lengths g) (len pkthdr)
   = Undefined Index_outside_vector <-> 2048 <= len pkthdr) /\
  (packetHandler is_in_lang aut1 aut2 g pkthdr packet
   = Undefined Index_outside_vector <-> 2048 <= len pkthdr) /\
  (forall v,
     vector_incr (packet_lengths g) (len pkthdr) = Ok v ->
     N.of_nat (length v) = 2048 /\
     forall n,
       nth (N.to_nat n) v 0
       = if n =? len pkthdr
         then size_incr (nth (N.to_nat n) (packet_lengths g) 0)
         else nth (N.to_nat n) (packet_lengths g) 0) /\
  (forall g',
     packetHandler is_in_lang aut1 aut2 g pkthdr packet = Ok g' ->
     vector_incr (packet_lengths g) (len pkthdr) = Ok (packet_lengths g')) /\
  (N.of_nat (length frames) + 1 < size_t_modulus ->
   size_incr (nth (N.to_nat (len pkthdr)) (packet_lengths g) 0)
   = nth (N.to_nat (len pkthdr)) (packet_lengths g) 0 + 1).
Proof.
  intro Hrun. pose proof (packet_lengths_size _ _ Hrun) as Hsize.
  split; [exact Hsize|].
  assert (Hin : len pkthdr < 2048 ->
            exists v, vector_incr (packet_lengths g) (len pkthdr) = Ok v).
  { intro Hlt. rewrite <- Hsize in Hlt.
    destruct (vector_incr_in_bounds _ _ Hlt) as [v [Hv _]]. eauto. }
  assert (Hout : 2048 <= len pkthdr ->
            vector_incr (packet_lengths g) (len pkthdr)
            = Undefined Index_outside_vector).
  { intro Hge. rewrite <- Hsize in Hge.
    apply vector_incr_out_of_bounds. exact Hge. }
  split; [|split; [|split; [|split; [|split]]]].
  - split; [|exact Hin].
    intros [v Hv]. destruct (N.lt_ge_cases (len pkthdr) 2048) as [Hlt | Hge];
      [exact Hlt|].
    rewrite (Hout Hge) in Hv. discriminate.
  - split; [|exact Hout].
    intro Hu. destruct (N.lt_ge_cases (len pkthdr) 2048) as [Hlt | Hge];
      [|exact Hge].
    destruct (Hin Hlt) as [v Hv]. rewrite Hv in Hu. discriminate.
  - split.
    + intro Hu. destruct (N.lt_ge_cases (len pkthdr) 2048) as [Hlt | Hge];
        [|exact Hge].
      exfalso. destruct (Hin Hlt) as [v Hv].
      unfold packetHandler in Hu. rewrite Hv in Hu.
      cbv beta iota delta [bind] in Hu.
      destruct (get_payload (incr Total_packets (set_packet_lengths v g))
                  pkthdr packet) as [[g1 w]| | |] eqn:Hget;
        try discriminate.
      * destruct (empty w); discriminate.
      * injection Hu as ->.
        apply get_payload_undefined in Hget. discriminate.
    + intro Hge. unfold packetHandler. rewrite (Hout Hge). reflexivity.
  - intros v Hv. split.
    + destruct (N.lt_ge_cases (len pkthdr) 2048) as [Hlt | Hge];
        [|rewrite (Hout Hge) in Hv; discriminate].
      rewrite <- Hsize in Hlt.
      destruct (vector_incr_in_bounds _ _ Hlt) as [v' [Hv' Hlen]].
      rewrite Hv in Hv'. injection Hv' as <-. rewrite Hlen. exact Hsize.
    + intro n. rewrite (vector_incr_nth _ _ _ (N.to_nat n) Hv).
      destruct (n =? len pkthdr) eqn:Hn.
      * apply N.eqb_eq in Hn. subst n.
        rewrite PeanoNat.Nat.eqb_refl. reflexivity.
      * apply N.eqb_neq in Hn.
        replace (Nat.eqb (N.to_nat n) (N.to_nat (len pkthdr))) with false
          by (symmetry; apply PeanoNat.Nat.eqb_neq; lia).
        reflexivity.
  - intros g' Hh. exact (packetHandler_packet_lengths _ _ _ _ Hh).
  - intro Hfew. apply size_incr_small.
    pose proof (packet_lengths_entry_le frames g
                  (N.to_nat (len pkthdr)) Hrun).
    lia.
Qed.

End Histogram.

(** ** Exchanging the two automata (C7) *)

Lemma l4_iteration_swap (g : globals) (packet : list byte) (ip_in_ip : bool)
    (l4_proto offset : N) :
  l4_iteration (swap_acceptors g) packet ip_in_ip l4_proto offset
  = result_map (iteration_map swap_acceptors)
      (l4_iteration g packet ip_in_ip l4_proto offset).
Proof. l4_cases; reflexivity. Qed.

Lemma l4_loop_swap (fuel : nat) (g : globals) (packet : list byte)
    (ip_in_ip : bool) (l4_proto offset : N) :
  l4_loop fuel (swap_acceptors g) packet ip_in_ip l4_proto offset
  = result_map (fun x => (swap_acceptors (fst x), snd x))
      (l4_loop fuel g packet ip_in_ip l4_proto offset).
Proof.
  revert g ip_in_ip l4_proto offset.
  induction fuel as [|fuel IH]; intros g ip_in_ip l4_proto offset;
    [reflexivity|].
  simpl. rewrite l4_iteration_swap.
  destruct (l4_iteration g packet ip_in_ip l4_proto offset)
    as [[g' ip' l4' off' | g' e]| | |]; simpl; try reflexivity.
  apply IH.
Qed.

Lemma get_payload_swap (g : globals) (pkthdr : pcap_pkthdr)
    (packet : list byte) :
  get_payload (swap_acceptors g) pkthdr packet
  = result_map (fun x => (swap_acceptors (fst x), snd x))
      (get_payload g pkthdr packet).
Proof.
  unfold get_payload, get_payload_range, link_layer.
  destruct (read_ntohs_cases packet offsetof_ether_type) as [[et ->] | ->];
    cbv beta iota delta [bind]; [|reflexivity].
  assert (Hnet : forall ga offset ether_type,
    ('(g, r) <- ('(g, l3) <- network_layer (swap_acceptors ga) packet offset
                               ether_type ;;
                 match l3 with
                 | None => Ok (g, No_range)
                 | Some (l4_proto, offset) =>
                     '(g, e) <- l4_loop (loop_fuel packet) g packet false
                                  l4_proto offset ;;
                     match e with
                     | Return_empty => Ok (g, No_range)
                     | Fall_through offset =>
                         Ok (g, Range offset (N.max (len pkthdr) offset))
                     end
                 end) ;;
     w <- make_word packet r ;; Ok (g, w))
    = result_map (fun x => (swap_acceptors (fst x), snd x))
        ('(g, r) <- ('(g, l3) <- network_layer ga packet offset ether_type ;;
                     match l3 with
                     | None => Ok (g, No_range)
                     | Some (l4_proto, offset) =>
                         '(g, e) <- l4_loop (loop_fuel packet) g packet false
                                      l4_proto offset ;;
                         match e with
                         | Return_empty => Ok (g, No_range)
                         | Fall_through offset =>
                             Ok (g, Range offset (N.max (len pkthdr) offset))
                         end
                     end) ;;
         w <- make_word packet r ;; Ok (g, w))).
  { intros ga offset ether_type. unfold network_layer.
    assert (Hloop : forall gb l4_proto offset,
      ('(g, r) <- ('(g, e) <- l4_loop (loop_fuel packet) (swap_acceptors gb)
                                packet false l4_proto offset ;;
                   match e with
                   | Return_empty => Ok (g, No_range)
                   | Fall_through offset =>
                       Ok (g, Range offset (N.max (len pkthdr) offset))
                   end) ;;
       w <- make_word packet r ;; Ok (g, w))
      = result_map (fun x => (swap_acceptors (fst x), snd x))
          ('(g, r) <- ('(g, e) <- l4_loop (loop_fuel packet) gb packet false
                                    l4_proto offset ;;
                       match e with
                       | Return_empty => Ok (g, No_range)
                       | Fall_through offset =>
                           Ok (g, Range offset (N.max (len pkthdr) offset))
                       end) ;;
           w <- make_word packet r ;; Ok (g, w))).
    { intros gb l4_proto offset'. rewrite l4_loop_swap.
      destruct (l4_loop (loop_fuel packet) gb packet false l4_proto offset')
        as [[g3 [o|]]| | |]; simpl; try reflexivity.
      destruct ((o <? N.max (len pkthdr) o)
                && (N.of_nat (length packet) <? N.max (len pkthdr) o));
        reflexivity. }
    destruct (ether_type =? ETHERTYPE_IP).
    - destruct (read_u8_cases packet (offset + offsetof_ip_p))
        as [[v ->] | ->]; cbv beta iota delta [bind]; [|reflexivity].
      apply (Hloop (incr Ipv4_packets ga)).
    - destruct (ether_type =? ETHERTYPE_IPV6); [|reflexivity].
      destruct (read_u8_cases packet (offset + offsetof_ip6_nxt))
        as [[v ->] | ->]; cbv beta iota delta [bind]; [|reflexivity].
      apply (Hloop (incr Ipv6_packets ga)). }
  destruct (et =? ETHERTYPE_VLAN).
  - destruct (read_ntohs_cases packet offsetof_vlan_ether_type)
      as [[et' ->] | ->]; cbv beta iota delta [bind]; [|reflexivity].
    apply (Hnet (incr Vlan_packets g)).
  - apply Hnet.
Qed.

Section Symmetry.

Context {Nfa : Type} (is_in_lang : Nfa -> Word -> bool).
Variables aut1 aut2 : Nfa.

Lemma packetHandler_swap (g : globals) (pkthdr : pcap_pkthdr)
    (packet : list byte) :
  packetHandler is_in_lang aut2 aut1 (swap_acceptors g) pkthdr packet
  = result_map swap_acceptors
      (packetHandler is_in_lang aut1 aut2 g pkthdr packet).
Proof.
  unfold packetHandler.
  change (packet_lengths (swap_acceptors g)) with (packet_lengths g).
  destruct (vector_incr (packet_lengths g) (len pkthdr)) as [v| | |];
    try reflexivity.
  cbv beta iota delta [bind].
  change (incr Total_packets (set_packet_lengths v (swap_acceptors g)))
    with (swap_acceptors (incr Total_packets (set_packet_lengths v g))).
  rewrite get_payload_swap.
  destruct (get_payload (incr Total_packets (set_packet_lengths v g))
              pkthdr packet) as [[g1 w]| | |]; simpl; try reflexivity.
  destruct (empty w); [reflexivity|].
  change (total_packets (swap_acceptors g1)) with (total_packets g1).
  destruct (is_in_lang aut1 w), (is_in_lang aut2 w); simpl;
    destruct (total_packets g1 mod 1000 =? 0); reflexivity.
Qed.

Lemma pcap_loop_swap (frames : list frame) (g : globals) :
  pcap_loop (packetHandler is_in_lang aut2 aut1) (swap_acceptors g) frames
  = result_map swap_acceptors
      (pcap_loop (packetHandler is_in_lang aut1 aut2) g frames).
Proof.
  revert g. induction frames as [|[pkthdr packet] rest IH]; intro g;
    [reflexivity|].
  simpl. rewrite packetHandler_swap.
  destruct (packetHandler is_in_lang aut1 aut2 g pkthdr packet);
    simpl; try reflexivity.
  apply IH.
Qed.

Lemma disagreeing_from_swap (frames : list frame) (g : globals)
    (ordinal : nat) :
  disagreeing_from is_in_lang aut2 aut1 (swap_acceptors g) ordinal frames
  = disagreeing_from is_in_lang aut1 aut2 g ordinal frames.
Proof.
  revert g ordinal.
  induction frames as [|[pkthdr packet] rest IH]; intros g ordinal;
    [reflexivity|].
  simpl. rewrite packetHandler_swap.
  destruct (packetHandler is_in_lang aut1 aut2 g pkthdr packet);
    simpl; try reflexivity.
  rewrite IH. reflexivity.
Qed.

(* [incons_packets] moves at a frame exactly when the frame has a payload
   on which the two automata disagree. *)
Lemma packetHandler_disagreement (g g' : globals) (pkthdr : pcap_pkthdr)
    (packet : list byte) :
  packetHandler is_in_lang aut1 aut2 g pkthdr packet = Ok g' ->
  incons_packets g < size_t_modulus ->
  exists w,
    frame_word (pkthdr, packet) = Ok w /\
    (incons_packets g' =? incons_packets g)
    = empty w || Bool.eqb (is_in_lang aut1 w) (is_in_lang aut2 w) /\
    incons_packets g' < size_t_modulus.
Proof.
  intros H Hlt.
  destruct (packetHandler_Ok _ _ _ _ _ _ _ H)
    as [v [g1 [w [Hv [Hget [_ [_ [Hempty Hfull]]]]]]]].
  exists w. split; [exact (frame_word_of_call _ _ _ _ _ Hget)|].
  assert (Hg1 : incons_packets g1 = incons_packets g).
  { unfold get_payload in Hget. bind_inv Hget. destruct a as [g2 r].
    bind_inv Hget. injection Hget as <- _.
    destruct (get_payload_range_counters _ _ _ _ _ E) as [_ [Hh _]].
    exact (Hh Incons_packets eq_refl). }
  destruct (empty w) eqn:Hw.
  - rewrite (Hempty eq_refl), Hg1, N.eqb_refl. split; [reflexivity | exact Hlt].
  - destruct (Hfull eq_refl) as [_ [_ [_ [Hi _]]]].
    rewrite Hi, Hg1.
    destruct (Bool.eqb (is_in_lang aut1 w) (is_in_lang aut2 w)); simpl.
    + rewrite N.eqb_refl. split; [reflexivity | exact Hlt].
    + split; [|apply size_incr_lt].
      apply N.eqb_neq. apply size_incr_neq. exact Hlt.
Qed.

(** C7.  Running the sampler with the two automata exchanged gives the
    same globals except that accepted-by-1 and accepted-by-2 exchange
    their values: the count of inconsistent packets is the same, and the
    frames at which it is incremented are the same. *)
Theorem swapped_acceptors_same_disagreement (frames : list frame)
    (g : globals) :
  sample is_in_lang aut1 aut2 frames = Ok g ->
  sample is_in_lang aut2 aut1 frames = Ok (swap_acceptors g) /\
  incons_packets (swap_acceptors g) = incons_packets g /\
  accepted_aut1 (swap_acceptors g) = accepted_aut2 g /\
  accepted_aut2 (swap_acceptors g) = accepted_aut1 g /\
  disagreeing_frames is_in_lang aut2 aut1 frames
  = disagreeing_frames is_in_lang aut1 aut2 frames.
Proof.
  intro Hrun. split; [|repeat split].
  - unfold sample in *.
    change initial_globals with (swap_acceptors initial_globals) at 1.
    rewrite pcap_loop_swap, Hrun. reflexivity.
  - unfold disagreeing_frames.
    change initial_globals with (swap_acceptors initial_globals) at 1.
    apply disagreeing_from_swap.
Qed.

End Symmetry.

(** ** The progress tick (C8) *)

Lemma l4_iteration_ticks (g : globals) (packet : list byte) (ip_in_ip : bool)
    (l4_proto offset : N) (it : iteration) :
  l4_iteration g packet ip_in_ip l4_proto offset = Ok it ->
  ticks (iteration_globals it) = ticks g.
Proof.
  revert it. l4_cases; intros it H; try discriminate; injection H as <-;
    try reflexivity.
  unfold ticks. simpl. rewrite filter_app. simpl. rewrite app_nil_r.
  reflexivity.
Qed.

Lemma l4_loop_ticks (fuel : nat) (g g' : globals) (packet : list byte)
    (ip_in_ip : bool) (l4_proto offset : N) (e : loop_exit) :
  l4_loop fuel g packet ip_in_ip l4_proto offset = Ok (g', e) ->
  ticks g' = ticks g.
Proof.
  revert g ip_in_ip l4_proto offset.
  induction fuel as [|fuel IH]; intros g ip_in_ip l4_proto offset H;
    [discriminate|].
  simpl in H. bind_inv H.
  pose proof (l4_iteration_ticks _ _ _ _ _ _ E) as Ht.
  destruct a as [g1 ip1 l41 off1 | g1 e1]; simpl in Ht.
  - rewrite (IH _ _ _ _ H). exact Ht.
  - injection H as <- _. exact Ht.
Qed.

Lemma link_layer_ticks (g g1 : globals) (packet : list byte)
    (offset ether_type : N) :
  link_layer g packet = Ok (g1, offset, ether_type) -> ticks g1 = ticks g.
Proof.
  unfold link_layer. intro H. bind_inv H.
  destruct (a =? ETHERTYPE_VLAN).
  - bind_inv H. injection H as <- _ _. reflexivity.
  - injection H as <- _ _. reflexivity.
Qed.

Lemma network_layer_ticks (g g2 : globals) (packet : list byte)
    (offset ether_type : N) (l3 : option (N * N)) :
  network_layer g packet offset ether_type = Ok (g2, l3) ->
  ticks g2 = ticks g.
Proof.
  unfold network_layer. intro H.
  destruct (ether_type =? ETHERTYPE_IP).
  - bind_inv H. injection H as <- _. reflexivity.
  - destruct (ether_type =? ETHERTYPE_IPV6).
    + bind_inv H. injection H as <- _. reflexivity.
    + injection H as <- _. reflexivity.
Qed.

Lemma get_payload_ticks (g g' : globals) (pkthdr : pcap_pkthdr)
    (packet : list byte) (w : Word) :
  get_payload g pkthdr packet = Ok (g', w) -> ticks g' = ticks g.
Proof.
  unfold get_payload. intro H.
  bind_inv H. destruct a as [g0 r]. bind_inv H. injection H as <- _.
  unfold get_payload_range in E.
  bind_inv E. destruct a0 as [[g1 offset] ether_type].
  bind_inv E. destruct a0 as [g2 l3].
  apply link_layer_ticks in E1. apply network_layer_ticks in E2.
  destruct l3 as [[l4_proto offset2]|].
  - bind_inv E. destruct a0 as [g3 e].
    apply l4_loop_ticks in E3.
    destruct e; injection E as <-; congruence.
  - injection E as <-. congruence.
Qed.

Section Tick.

Context {Nfa : Type} (is_in_lang : Nfa -> Word -> bool).
Variables aut1 aut2 : Nfa.

(* The handler writes the tick when the frame has a payload and the
   total is a multiple of 1000; it writes none for a frame without
   payload. *)
Lemma packetHandler_ticks (g g' : globals) (pkthdr : pcap_pkthdr)
    (packet : list byte) :
  packetHandler is_in_lang aut1 aut2 g pkthdr packet = Ok g' ->
  ticks g' = (ticks g
              + if negb (empty_payload_frame (pkthdr, packet))
                   && (total_packets g' mod 1000 =? 0)
                then 1 else 0)%nat.
Proof.
  intro H.
  destruct (packetHandler_Ok _ _ _ _ _ _ _ H)
    as [v [g1 [w [Hv [Hget [_ [Hkeep [Hempty Hfull]]]]]]]].
  pose proof (frame_word_of_call _ _ _ _ _ Hget) as Hfw.
  pose proof (get_payload_ticks _ _ _ _ _ Hget) as Ht.
  change (ticks (incr Total_packets (set_packet_lengths v g)))
    with (ticks g) in Ht.
  unfold empty_payload_frame. rewrite Hfw.
  destruct (empty w) eqn:Hw; simpl.
  - rewrite (Hempty eq_refl), Ht. lia.
  - destruct (Hfull eq_refl) as [_ [_ [_ [_ Hcout]]]].
    change (total_packets g') with (value_of Total_packets g').
    rewrite Hkeep by reflexivity. simpl value_of.
    unfold ticks at 1. rewrite Hcout.
    destruct (total_packets g1 mod 1000 =? 0).
    + rewrite filter_app, length_app. simpl. fold (ticks g1). lia.
    + fold (ticks g1). lia.
Qed.

End Tick.

(** C8, the code at the failing input.  The capture has 1000 frames; the
    first 999 carry a UDP payload and the last one is an ARP frame, for
    which [get_payload] returns an empty payload.  After the run the total
    is 1000, a multiple of the tick interval, and no tick was written: the
    handler returns before the test of the total.  With a UDP frame in the
    last place the tick is written. *)
Theorem no_tick_for_frame_without_payload :
  (exists g,
     sample accepts (first_symbol_is 0) (first_symbol_is 1)
       capture_ending_with_arp = Ok g /\
     total_packets g = 1000 /\ total_packets g mod 1000 = 0 /\
     payloaded_packets g = 999 /\ ticks g = 0%nat) /\
  (exists g,
     sample accepts (first_symbol_is 0) (first_symbol_is 1)
       (repeat udp_frame 1000) = Ok g /\
     total_packets g = 1000 /\ ticks g = 1%nat).
Proof.
  split.
  - destruct (sample accepts (first_symbol_is 0) (first_symbol_is 1)
                capture_ending_with_arp) as [g| | |] eqn:E;
      try (vm_compute in E; discriminate).
    exists g. split; [reflexivity|].
    assert (Hv : (total_packets g, payloaded_packets g, ticks g)
                 = (1000, 999, 0%nat)).
    { change (match Ok g with
              | Ok g => (total_packets g, payloaded_packets g, ticks g)
              | _ => (0, 0, 0%nat)
              end = (1000, 999, 0%nat)).
      rewrite <- E. vm_compute. reflexivity. }
    injection Hv as -> -> ->. repeat split; reflexivity.
  - destruct (sample accepts (first_symbol_is 0) (first_symbol_is 1)
                (repeat udp_frame 1000)) as [g| | |] eqn:E;
      try (vm_compute in E; discriminate).
    exists g. split; [reflexivity|].
    assert (Hv : (total_packets g, ticks g) = (1000, 1%nat)).
    { change (match Ok g with
              | Ok g => (total_packets g, ticks g)
              | _ => (0, 0%nat)
              end = (1000, 1%nat)).
      rewrite <- E. vm_compute. reflexivity. }
    injection Hv as -> ->. split; reflexivity.
Qed.

(** ** The run inside [main] *)

Lemma cout_put_after_output (pre : list output) (o : output) (g : globals) :
  cout_put o (after_output pre g) = after_output pre (cout_put o g).
Proof. unfold cout_put, after_output. simpl. rewrite app_assoc. reflexivity. Qed.

Lemma l4_iteration_after_output (pre : list output) (g : globals)
    (packet : list byte) (ip_in_ip : bool) (l4_proto offset : N) :
  l4_iteration (after_output pre g) packet ip_in_ip l4_proto offset
  = result_map (iteration_map (after_output pre))
      (l4_iteration g packet ip_in_ip l4_proto offset).
Proof.
  l4_cases; try reflexivity.
  rewrite cout_put_after_output. reflexivity.
Qed.

Lemma l4_loop_after_output (pre : list output) (fuel : nat) (g : globals)
    (packet : list byte) (ip_in_ip : bool) (l4_proto offset : N) :
  l4_loop fuel (after_output pre g) packet ip_in_ip l4_proto offset
  = result_map (fun x => (after_output pre (fst x), snd x))
      (l4_loop fuel g packet ip_in_ip l4_proto offset).
Proof.
  revert g ip_in_ip l4_proto offset.
  induction fuel as [|fuel IH]; intros g ip_in_ip l4_proto offset;
    [reflexivity|].
  simpl. rewrite l4_iteration_after_output.
  destruct (l4_iteration g packet ip_in_ip l4_proto offset)
    as [[g' ip' l4' off' | g' e]| | |]; simpl; try reflexivity.
  apply IH.
Qed.

Lemma get_payload_after_output (pre : list output) (g : globals)
    (pkthdr : pcap_pkthdr) (packet : list byte) :
  get_payload (after_output pre g) pkthdr packet
  = result_map (fun x => (after_output pre (fst x), snd x))
      (get_payload g pkthdr packet).
Proof.
  unfold get_payload.
  destruct (get_payload_range_cases g pkthdr packet) as [Hg | Hg].
  - pose proof (get_payload_range_outcome (after_output pre g) g pkthdr
                  packet) as Ho.
    rewrite Hg in *.
    destruct (get_payload_range (after_output pre g) pkthdr packet)
      as [[g1 r1]| | |]; simpl in Ho; try discriminate.
    injection Ho as ->. reflexivity.
  - clear Hg. unfold get_payload_range, link_layer.
    destruct (read_ntohs_cases packet offsetof_ether_type) as [[et ->] | ->];
      cbv beta iota delta [bind]; [|reflexivity].
    assert (Hloop : forall gb l4_proto offset,
      ('(g, r) <- ('(g, e) <- l4_loop (loop_fuel packet)
                                (after_output pre gb) packet false l4_proto
                                offset ;;
                   match e with
                   | Return_empty => Ok (g, No_range)
                   | Fall_through offset =>
                       Ok (g, Range offset (N.max (len pkthdr) offset))
                   end) ;;
       w <- make_word packet r ;; Ok (g, w))
      = result_map (fun x => (after_output pre (fst x), snd x))
          ('(g, r) <- ('(g, e) <- l4_loop (loop_fuel packet) gb packet false
                                    l4_proto offset ;;
                       match e with
                       | Return_empty => Ok (g, No_range)
                       | Fall_through offset =>
                           Ok (g, Range offset (N.max (len pkthdr) offset))
                       end) ;;
           w <- make_word packet r ;; Ok (g, w))).
    { intros gb l4_proto offset'. rewrite l4_loop_after_output.
      destruct (l4_loop (loop_fuel packet) gb packet false l4_proto offset')
        as [[g3 [o|]]| | |]; simpl; try reflexivity.
      destruct ((o <? N.max (len pkthdr) o)
                && (N.of_nat (length packet) <? N.max (len pkthdr) o));
        reflexivity. }
    assert (Hnet : forall ga offset ether_type,
      ('(g, r) <- ('(g, l3) <- network_layer (after_output pre ga) packet
                                 offset ether_type ;;
                   match l3 with
                   | None => Ok (g, No_range)
                   | Some (l4_proto, offset) =>
                       '(g, e) <- l4_loop (loop_fuel packet) g packet false
                                    l4_proto offset ;;
                       match e with
                       | Return_empty => Ok (g, No_range)
                       | Fall_through offset =>
                           Ok (g, Range offset (N.max (len pkthdr) offset))
                       end
                   end) ;;
       w <- make_word packet r ;; Ok (g, w))
      = result_map (fun x => (after_output pre (fst x), snd x))
          ('(g, r) <- ('(g, l3) <- network_layer ga packet offset
                                     ether_type ;;
                       match l3 with
                       | None => Ok (g, No_range)
                       | Some (l4_proto, offset) =>
                           '(g, e) <- l4_loop (loop_fuel packet) g packet
                                        false l4_proto offset ;;
                           match e with
                           | Return_empty => Ok (g, No_range)
                           | Fall_through offset =>
                               Ok (g, Range offset
                                        (N.max (len pkthdr) offset))
                           end
                       end) ;;
           w <- make_word packet r ;; Ok (g, w))).
    { intros ga offset ether_type. unfold network_layer.
      destruct (ether_type =? ETHERTYPE_IP).
      - destruct (read_u8_cases packet (offset + offsetof_ip_p))
          as [[v ->] | ->]; cbv beta iota delta [bind]; [|reflexivity].
        apply (Hloop (incr Ipv4_packets ga)).
      - destruct (ether_type =? ETHERTYPE_IPV6); [|reflexivity].
        destruct (read_u8_cases packet (offset + offsetof_ip6_nxt))
          as [[v ->] | ->]; cbv beta iota delta [bind]; [|reflexivity].
        apply (Hloop (incr Ipv6_packets ga)). }
    destruct (et =? ETHERTYPE_VLAN).
    + destruct (read_ntohs_cases packet offsetof_vlan_ether_type)
        as [[et' ->] | ->]; cbv beta iota delta [bind]; [|reflexivity].
      apply (Hnet (incr Vlan_packets g)).
    + apply Hnet.
Qed.

Section MainRun.

Context {Nfa : Type} (is_in_lang : Nfa -> Word -> bool).
Variables aut1 aut2 : Nfa.

Lemma packetHandler_after_output (pre : list output) (g : globals)
    (pkthdr : pcap_pkthdr) (packet : list byte) :
  packetHandler is_in_lang aut1 aut2 (after_output pre g) pkthdr packet
  = result_map (after_output pre)
      (packetHandler is_in_lang aut1 aut2 g pkthdr packet).
Proof.
  unfold packetHandler.
  change (packet_lengths (after_output pre g)) with (packet_lengths g).
  destruct (vector_incr (packet_lengths g) (len pkthdr)) as [v| | |];
    try reflexivity.
  cbv beta iota delta [bind].
  change (incr Total_packets (set_packet_lengths v (after_output pre g)))
    with (after_output pre (incr Total_packets (set_packet_lengths v g))).
  rewrite get_payload_after_output.
  destruct (get_payload (incr Total_packets (set_packet_lengths v g))
              pkthdr packet) as [[g1 w]| | |]; simpl; try reflexivity.
  destruct (empty w); [reflexivity|].
  change (total_packets (after_output pre g1)) with (total_packets g1).
  destruct (is_in_lang aut1 w), (is_in_lang aut2 w); simpl;
    destruct (total_packets g1 mod 1000 =? 0); simpl;
    unfold after_output, cout_put; simpl; rewrite ?app_assoc; reflexivity.
Qed.

Lemma pcap_loop_after_output (pre : list output) (frames : list frame)
    (g : globals) :
  pcap_loop (packetHandler is_in_lang aut1 aut2) (after_output pre g) frames
  = result_map (after_output pre)
      (pcap_loop (packetHandler is_in_lang aut1 aut2) g frames).
Proof.
  revert g. induction frames as [|[pkthdr packet] rest IH]; intro g;
    [reflexivity|].
  simpl. rewrite packetHandler_after_output.
  destruct (packetHandler is_in_lang aut1 aut2 g pkthdr packet);
    simpl; try reflexivity.
  apply IH.
Qed.

End MainRun.

(** ** Exit codes (C9) *)

Section Startup.

Context {Nfa : Type} (is_in_lang : Nfa -> Word -> bool).
Context {Stream ParsedSection : Type}.
Context (ifstream : string -> option Stream).
Context (parse_vtf_section : Stream -> string + ParsedSection).
Context (construct : ParsedSection -> string + Nfa).
Context (to_string : Nfa -> string).
Context (pcap_open_offline : string -> string + pcap_t).


(** C9 (as amended).  On a usage error, on an automaton that cannot be
    loaded and on a capture that cannot be opened [main] returns the one
    failure code [EXIT_FAILURE], which differs from [EXIT_SUCCESS], and
    writes no line of the report. *)
Theorem startup_failure_exit_code (argv : list string) :
  startup_failure ifstream parse_vtf_section construct pcap_open_offline
    argv ->
  EXIT_FAILURE <> EXIT_SUCCESS /\
  exists g,
    main is_in_lang ifstream parse_vtf_section construct to_string
      pcap_open_offline argv
    = Ok (EXIT_FAILURE, g) /\
    reported g = false.
Proof.
  intro Hfail. split; [discriminate|].
  destruct Hfail as [Hargc | [prog [f1 [f2 [f3 [-> Hload]]]]]].
  - destruct argv as [|a0 [|a1 [|a2 [|a3 [|a4 rest]]]]];
      try (eexists; split; reflexivity).
    exfalso. apply Hargc. reflexivity.
  - unfold main.
    destruct (load_aut ifstream parse_vtf_section construct f1)
      as [what1 | a1] eqn:H1; [eexists; split; reflexivity|].
    destruct (load_aut ifstream parse_vtf_section construct f2)
      as [what2 | a2] eqn:H2; [eexists; split; reflexivity|].
    destruct (pcap_open_offline f3) as [errbuf | descr] eqn:H3;
      [eexists; split; reflexivity|].
    exfalso.
    destruct Hload as [[what H] | [[what H] | [errbuf H]]]; discriminate.
Qed.

(** X17.  The run inside [main].  When both automata load and the capture
    opens and is read to its end, [main] returns [EXIT_SUCCESS]; what it
    has written is the two automata, then what the run of the sampler over
    the frames of the capture writes, then the report of the counters of
    that run. *)
Lemma main_success (prog aut1_file aut2_file packets_file : string)
    (aut1 aut2 : Nfa) (descr : pcap_t) (g : globals) :
  load_aut ifstream parse_vtf_section construct aut1_file = inr aut1 ->
  load_aut ifstream parse_vtf_section construct aut2_file = inr aut2 ->
  pcap_open_offline packets_file = inr descr ->
  pcap_geterr descr = None ->
  sample is_in_lang aut1 aut2 (pcap_frames descr) = Ok g ->
  main is_in_lang ifstream parse_vtf_section construct to_string
    pcap_open_offline [prog; aut1_file; aut2_file; packets_file]
  = Ok (EXIT_SUCCESS,
        report packets_file
          (after_output [Out_automaton "aut1" (to_string aut1);
                         Out_automaton "aut2" (to_string aut2)] g)).
Proof.
  intros H1 H2 H3 H4 Hrun. unfold main. rewrite H1, H2, H3.
  change (cout_put (Out_automaton "aut2" (to_string aut2))
            (cout_put (Out_automaton "aut1" (to_string aut1))
               initial_globals))
    with (after_output [Out_automaton "aut1" (to_string aut1);
                        Out_automaton "aut2" (to_string aut2)]
            initial_globals).
  rewrite pcap_loop_after_output. unfold sample in Hrun. rewrite Hrun.
  simpl. rewrite H4. reflexivity.
Qed.

End Startup.

(* A world in which no file can be opened. *)
Lemma startup_failure_exit_code_witness :
  EXIT_FAILURE <> EXIT_SUCCESS /\
  exists g,
    main accepts (fun _ : string => @None unit)
      (fun _ : unit => @inr string unit tt)
      (fun _ : unit => @inr string (Word -> bool) (first_symbol_is 0))
      (fun _ => EmptyString)
      (fun _ : string => @inl string pcap_t EmptyString)
      ["diff-sampler"%string]
    = Ok (EXIT_FAILURE, g) /\ reported g = false.
Proof.
  apply (startup_failure_exit_code accepts (fun _ : string => @None unit)
           (fun _ : unit => @inr string unit tt)
           (fun _ : unit => @inr string (Word -> bool) (first_symbol_is 0))
           (fun _ => EmptyString)
           (fun _ : string => @inl string pcap_t EmptyString)
           ["diff-sampler"%string]).
  left. simpl. discriminate.
Defined.

(** C9 as it is stated fails: the usage error and the load error do not
    have an exit code each.  With no argument, and with three arguments
    that name files that cannot be opened, [main] returns the same code. *)
Lemma usage_and_load_errors_share_exit_code :
  exists code,
    result_map fst
      (main accepts (fun _ : string => @None unit)
         (fun _ : unit => @inr string unit tt)
         (fun _ : unit => @inr string (Word -> bool) (first_symbol_is 0))
         (fun _ => EmptyString)
         (fun _ : string => @inl string pcap_t EmptyString)
         ["diff-sampler"%string])
    = Ok code /\
    result_map fst
      (main accepts (fun _ : string => @None unit)
         (fun _ : unit => @inr string unit tt)
         (fun _ : unit => @inr string (Word -> bool) (first_symbol_is 0))
         (fun _ => EmptyString)
         (fun _ : string => @inl string pcap_t EmptyString)
         ["diff-sampler"; "aut1.vtf"; "aut2.vtf"; "packets.pcap"]%string)
    = Ok code.
Proof. exists EXIT_FAILURE. split; reflexivity. Qed.

(** ** The theorems at concrete captures *)

Lemma l3_counters_sum_to_total_witness :
  exists g,
    sample accepts (first_symbol_is 0) (first_symbol_is 1) mixed_capture
    = Ok g /\
    (ipv4_packets g + ipv6_packets g + other_l3_packets g)
      mod size_t_modulus = total_packets g /\
    (ipv4_packets g, ipv6_packets g, other_l3_packets g, total_packets g)
    = (3, 0, 1, 4).
Proof.
  destruct (sample accepts (first_symbol_is 0) (first_symbol_is 1)
              mixed_capture) as [g| | |] eqn:E;
    try (vm_compute in E; discriminate).
  exists g. split; [reflexivity|].
  split.
  - exact (proj1 (l3_counters_sum_to_total accepts (first_symbol_is 0)
                    (first_symbol_is 1) mixed_capture g E)).
  - vm_compute in E. injection E as <-. reflexivity.
Defined.

Lemma second_ipip_layer_aborts_witness :
  get_payload initial_globals ipip_ipip_udp_hdr ipip_ipip_udp_packet
  = AssertFailed /\
  pcap_loop (packetHandler accepts (first_symbol_is 0) (first_symbol_is 1))
    initial_globals [(ipip_ipip_udp_hdr, ipip_ipip_udp_packet); udp_frame]
  = AssertFailed /\
  get_payload initial_globals ipip_udp_hdr ipip_udp_packet <> AssertFailed.
Proof.
  destruct (second_ipip_layer_aborts accepts (first_symbol_is 0)
              (first_symbol_is 1) initial_globals ipip_ipip_udp_hdr
              ipip_ipip_udp_packet [udp_frame]) as [Hget [_ Hrun]].
  destruct Hrun as [_ Hrun]; [vm_compute; reflexivity|].
  split; [apply Hget; vm_compute; lia|].
  split; [apply Hrun; vm_compute; lia|].
  intro H.
  apply (proj1 (second_ipip_layer_aborts accepts (first_symbol_is 0)
                  (first_symbol_is 1) initial_globals ipip_udp_hdr
                  ipip_udp_packet [])) in H.
  vm_compute in H. lia.
Defined.

Lemma total_is_payloaded_plus_empty_witness :
  exists g,
    sample accepts (first_symbol_is 0) (first_symbol_is 1) mixed_capture
    = Ok g /\
    total_packets g
    = payloaded_packets g + count_frames empty_payload_frame mixed_capture /\
    count_frames empty_payload_frame mixed_capture
    = other_l3_packets g + other_l4_packets g + gre_packets g
      + pim_packets g + count_frames truncated_frame mixed_capture /\
    count_frames empty_payload_frame mixed_capture = 3 /\
    count_frames truncated_frame mixed_capture = 1.
Proof.
  destruct (sample accepts (first_symbol_is 0) (first_symbol_is 1)
              mixed_capture) as [g| | |] eqn:E;
    try (vm_compute in E; discriminate).
  exists g. split; [reflexivity|].
  destruct (total_is_payloaded_plus_empty accepts (first_symbol_is 0)
              (first_symbol_is 1) mixed_capture g E) as [_ [_ Hexact]].
  destruct Hexact as [Htotal Hempty]; [vm_compute; reflexivity|].
  split; [exact Htotal|]. split; [exact Hempty|].
  split; vm_compute; reflexivity.
Defined.

Lemma ipip_udp_frame_payload_witness :
  exists g',
    get_payload_range initial_globals ipip_udp_hdr ipip_udp_packet
    = Ok (g', Range 62 80) /\
    ipip_packets g' = 1 /\ udp_packets g' = 1 /\
    get_payload initial_globals ipip_udp_hdr ipip_udp_packet
    = Ok (g', repeat 1 18) /\
    exists g'',
      sample accepts (first_symbol_is 0) (first_symbol_is 1)
        [(ipip_udp_hdr, ipip_udp_packet)] = Ok g'' /\
      ipip_packets g'' = 1 /\ udp_packets g'' = 1.
Proof.
  destruct (ipip_udp_frame_payload accepts (first_symbol_is 0)
              (first_symbol_is 1) ipip_udp_hdr ipip_udp_packet)
    as [g' [Hrange [Hipip [Hudp [Hget Hrun]]]]];
    try reflexivity.
  exists g'. split; [exact Hrange|].
  split; [exact Hipip|]. split; [exact Hudp|].
  split.
  - apply Hget; vm_compute; discriminate.
  - apply Hrun; [vm_compute; discriminate | vm_compute; reflexivity].
Defined.

Lemma swapped_acceptors_same_disagreement_witness :
  exists g,
    sample accepts (first_symbol_is 0) (first_symbol_is 1) mixed_capture
    = Ok g /\
    sample accepts (first_symbol_is 1) (first_symbol_is 0) mixed_capture
    = Ok (swap_acceptors g) /\
    incons_packets (swap_acceptors g) = incons_packets g /\
    accepted_aut1 (swap_acceptors g) = accepted_aut2 g /\
    accepted_aut2 (swap_acceptors g) = accepted_aut1 g /\
    disagreeing_frames accepts (first_symbol_is 1) (first_symbol_is 0)
      mixed_capture
    = disagreeing_frames accepts (first_symbol_is 0) (first_symbol_is 1)
        mixed_capture /\
    (accepted_aut1 g, accepted_aut2 g, incons_packets g) = (0, 1, 1).
Proof.
  destruct (sample accepts (first_symbol_is 0) (first_symbol_is 1)
              mixed_capture) as [g| | |] eqn:E;
    try (vm_compute in E; discriminate).
  exists g. split; [reflexivity|].
  destruct (swapped_acceptors_same_disagreement accepts (first_symbol_is 0)
              (first_symbol_is 1) mixed_capture g E)
    as [Hrun [Hincons [H1 [H2 Hframes]]]].
  repeat (split; [assumption|]).
  vm_compute in E. injection E as <-. reflexivity.
Defined.

Lemma packet_lengths_access_witness :
  exists g,
    sample accepts (first_symbol_is 0) (first_symbol_is 1) mixed_capture
    = Ok g /\
    N.of_nat (length (packet_lengths g)) = 2048 /\
    packetHandler accepts (first_symbol_is 0) (first_symbol_is 1) g
      {| caplen := 60; len := 2048 |} (snd udp_frame)
    = Undefined Index_outside_vector /\
    packetHandler accepts (first_symbol_is 0) (first_symbol_is 1) g
      {| caplen := 60; len := 2047 |} (snd udp_frame)
    <> Undefined Index_outside_vector /\
    nth 60 (packet_lengths g) 0 = 3 /\
    nth 40 (packet_lengths g) 0 = 1 /\
    exists g',
      packetHandler accepts (first_symbol_is 0) (first_symbol_is 1) g
        (fst udp_frame) (snd udp_frame) = Ok g' /\
      N.of_nat (length (packet_lengths g')) = 2048 /\
      nth 60 (packet_lengths g') 0 = 4 /\
      nth 40 (packet_lengths g') 0 = 1.
Proof.
  destruct (sample accepts (first_symbol_is 0) (first_symbol_is 1)
              mixed_capture) as [g| | |] eqn:E;
    try (vm_compute in E; discriminate).
  exists g. split; [reflexivity|].
  pose proof (packet_lengths_access accepts (first_symbol_is 0)
                (first_symbol_is 1) mixed_capture g
                (fst udp_frame) (snd udp_frame) E)
    as [_ [_ [_ [_ [Hincr [Hstate Hexact]]]]]].
  assert (H60 : nth 60 (packet_lengths g) 0 = 3)
    by (vm_compute in E; injection E as <-; reflexivity).
  assert (H40 : nth 40 (packet_lengths g) 0 = 1)
    by (vm_compute in E; injection E as <-; reflexivity).
  split.
  - exact (proj1 (packet_lengths_access accepts (first_symbol_is 0)
                    (first_symbol_is 1) mixed_capture g
                    {| caplen := 60; len := 2048 |} (snd udp_frame) E)).
  - split; [|split; [|split; [exact H60|split; [exact H40|]]]].
    + apply (packet_lengths_access accepts (first_symbol_is 0)
               (first_symbol_is 1) mixed_capture g
               {| caplen := 60; len := 2048 |} (snd udp_frame) E).
      vm_compute. discriminate.
    + intro H.
      apply (packet_lengths_access accepts (first_symbol_is 0)
               (first_symbol_is 1) mixed_capture g
               {| caplen := 60; len := 2047 |} (snd udp_frame) E) in H.
      vm_compute in H. apply H. reflexivity.
    + destruct (packetHandler accepts (first_symbol_is 0)
                  (first_symbol_is 1) g (fst udp_frame) (snd udp_frame))
        as [g'| | |] eqn:Hh;
        try (exfalso; vm_compute in E; injection E as <-;
             vm_compute in Hh; discriminate).
      exists g'. split; [reflexivity|].
      destruct (Hincr _ (Hstate g' eq_refl)) as [Hlen Hnth].
      split; [exact Hlen|]. split.
      * pose proof (Hnth 60) as H.
        change (60 =? len (fst udp_frame)) with true in H. cbv iota in H.
        change (N.to_nat (len (fst udp_frame))) with (N.to_nat 60)
          in Hexact.
        rewrite Hexact in H by (vm_compute; reflexivity).
        change (N.to_nat 60) with 60%nat in H.
        rewrite H, H60. reflexivity.
      * pose proof (Hnth 40) as H.
        change (40 =? len (fst udp_frame)) with false in H. cbv iota in H.
        change (N.to_nat 40) with 40%nat in H.
        rewrite H. exact H40.
Defined.

(** * Further properties of the code *)

(** ** Frames by protocol *)

Lemma make_word_clamped (pkthdr : pcap_pkthdr) (packet : list byte)
    (first : N) :
  len pkthdr <= N.of_nat (length packet) ->
  make_word packet (Range first (N.max (len pkthdr) first))
  = Ok (slice packet first (N.max (len pkthdr) first)).
Proof.
  intro Hlen. unfold make_word.
  destruct (N.le_gt_cases first (len pkthdr)) as [Hle | Hgt].
  - rewrite N.max_l by exact Hle.
    replace (N.of_nat (length packet) <? len pkthdr) with false
      by (symmetry; apply N.ltb_ge; exact Hlen).
    rewrite andb_false_r. reflexivity.
  - rewrite N.max_r by lia. rewrite N.ltb_irrefl. reflexivity.
Qed.

Lemma read_u8_byte (packet : list byte) (off v : N) :
  read_u8 packet off = Ok v -> v <= 255.
Proof.
  unfold read_u8. destruct (nth_error packet (N.to_nat off)); [|discriminate].
  intro H. injection H as <-. apply Byte.to_N_bounded.
Qed.

Lemma link_layer_vlan (g : globals) (packet : list byte) (ether_type : N) :
  read_ntohs packet offsetof_ether_type = Ok ETHERTYPE_VLAN ->
  read_ntohs packet offsetof_vlan_ether_type = Ok ether_type ->
  link_layer g packet = Ok (incr Vlan_packets g, sizeof_vlan_ethhdr, ether_type).
Proof.
  intros Houter Hinner. unfold link_layer. rewrite Houter.
  cbv beta iota delta [bind].
  change (ETHERTYPE_VLAN =? ETHERTYPE_VLAN) with true. cbv iota.
  rewrite Hinner. reflexivity.
Qed.

Lemma network_layer_ipv6 (g : globals) (packet : list byte)
    (offset l4_proto : N) :
  read_u8 packet (offset + offsetof_ip6_nxt) = Ok l4_proto ->
  network_layer g packet offset ETHERTYPE_IPV6
  = Ok (incr Ipv6_packets g, Some (l4_proto, size_add offset sizeof_ip6_hdr)).
Proof.
  intro Hread. unfold network_layer.
  change (ETHERTYPE_IPV6 =? ETHERTYPE_IP) with false.
  change (ETHERTYPE_IPV6 =? ETHERTYPE_IPV6) with true. cbv iota.
  rewrite Hread. reflexivity.
Qed.

(* the run of [get_payload] on an IPv4 frame without VLAN tag, up to the
   transport loop *)
Lemma get_payload_range_ipv4 (g : globals) (pkthdr : pcap_pkthdr)
    (packet : list byte) (ip_p : N) :
  read_ntohs packet offsetof_ether_type = Ok ETHERTYPE_IP ->
  read_u8 packet (sizeof_ether_header + offsetof_ip_p) = Ok ip_p ->
  get_payload_range g pkthdr packet
  = ('(g, e) <- l4_loop (loop_fuel packet) (incr Ipv4_packets g) packet
                  false ip_p (sizeof_ether_header + sizeof_ip) ;;
     match e with
     | Return_empty => Ok (g, No_range)
     | Fall_through offset => Ok (g, Range offset (N.max (len pkthdr) offset))
     end).
Proof.
  intros Het Hp. unfold get_payload_range.
  rewrite (link_layer_untagged g packet ETHERTYPE_IP Het) by discriminate.
  cbv beta iota delta [bind].
  rewrite (network_layer_ipv4 g packet _ _ Hp). reflexivity.
Qed.

(** X1.  Ethernet/IPv4/TCP.  The TCP header is skipped by four times its
    data offset, the high four bits of the byte at offset 12 of the TCP
    header, whatever that value is: the payload starts at
    14 + 20 + 4 * th_off, at most at offset 94, and when the declared length
    lies in the packet it has declared length minus that offset bytes. *)
Theorem ipv4_tcp_frame_payload (g : globals) (pkthdr : pcap_pkthdr)
    (packet : list byte) (b : N) :
  read_ntohs packet offsetof_ether_type = Ok ETHERTYPE_IP ->
  read_u8 packet (sizeof_ether_header + offsetof_ip_p) = Ok IPPROTO_TCP ->
  read_u8 packet (sizeof_ether_header + sizeof_ip + offsetof_th_off) = Ok b ->
  let first := sizeof_ether_header + sizeof_ip + 4 * (b / 16) in
  first <= 94 /\
  get_payload_range g pkthdr packet
  = Ok (incr Tcp_packets (incr Ipv4_packets g),
        Range first (N.max (len pkthdr) first)) /\
  (len pkthdr <= N.of_nat (length packet) ->
   get_payload g pkthdr packet
   = Ok (incr Tcp_packets (incr Ipv4_packets g),
         slice packet first (N.max (len pkthdr) first)) /\
   length (slice packet first (N.max (len pkthdr) first))
   = N.to_nat (len pkthdr - first)).
Proof.
  intros Het Hp Hb first.
  pose proof (read_u8_byte _ _ _ Hb) as Hbyte.
  assert (Hdiv : b / 16 <= 15).
  { assert (b / 16 < 16) by (apply N.Div0.div_lt_upper_bound; lia). lia. }
  assert (Hfirst : first <= 94).
  { unfold first, sizeof_ether_header, sizeof_ip. lia. }
  assert (Hrange : get_payload_range g pkthdr packet
                   = Ok (incr Tcp_packets (incr Ipv4_packets g),
                         Range first (N.max (len pkthdr) first))).
  { rewrite (get_payload_range_ipv4 _ _ _ _ Het Hp).
    unfold loop_fuel. cbn [l4_loop]. unfold l4_iteration.
    change (IPPROTO_TCP =? IPPROTO_TCP) with true. cbv iota.
    rewrite Hb. cbv beta iota delta [bind].
    replace (size_add (sizeof_ether_header + sizeof_ip) (N.shiftr b 4 * 4))
      with first; [reflexivity|].
    unfold size_add, first. rewrite N.shiftr_div_pow2.
    change (2 ^ 4) with 16.
    unfold size_t_modulus, sizeof_ether_header, sizeof_ip.
    change (2 ^ 64) with 18446744073709551616.
    clear Hfirst. subst first. remember (b / 16) as q eqn:Hq. clear Hq.
    rewrite N.mod_small by lia. lia. }
  split; [exact Hfirst|]. split; [exact Hrange|].
  intro Hlen. split.
  - unfold get_payload. rewrite Hrange. cbv beta iota delta [bind].
    rewrite (make_word_clamped _ _ _ Hlen). reflexivity.
  - destruct (N.le_gt_cases first (len pkthdr)) as [Hle | Hgt].
    + rewrite N.max_l by exact Hle. apply slice_length. exact Hlen.
    + rewrite slice_empty by lia. simpl. lia.
Qed.

Lemma ipv4_tcp_frame_payload_witness :
  get_payload initial_globals (fst tcp_frame) (snd tcp_frame)
  = Ok (incr Tcp_packets (incr Ipv4_packets initial_globals), repeat 2 6).
Proof.
  pose proof (ipv4_tcp_frame_payload initial_globals (fst tcp_frame)
                (snd tcp_frame) 80 eq_refl eq_refl eq_refl) as H.
  destruct H as [_ [_ Hget]].
  destruct Hget as [Hget _]; [vm_compute; discriminate|].
  rewrite Hget. reflexivity.
Defined.

(** X2.  802.1Q/IPv6/UDP.  For a frame with one VLAN tag the headers are
    read at the offsets of the tagged layout: the VLAN, IPv6 and UDP
    counters are incremented once each and the payload starts at
    18 + 40 + 8. *)
Theorem vlan_ipv6_udp_frame_payload (g : globals) (pkthdr : pcap_pkthdr)
    (packet : list byte) :
  read_ntohs packet offsetof_ether_type = Ok ETHERTYPE_VLAN ->
  read_ntohs packet offsetof_vlan_ether_type = Ok ETHERTYPE_IPV6 ->
  read_u8 packet (sizeof_vlan_ethhdr + offsetof_ip6_nxt) = Ok IPPROTO_UDP ->
  let first := sizeof_vlan_ethhdr + sizeof_ip6_hdr + sizeof_udphdr in
  get_payload_range g pkthdr packet
  = Ok (incr Udp_packets (incr Ipv6_packets (incr Vlan_packets g)),
        Range first (N.max (len pkthdr) first)) /\
  (len pkthdr <= N.of_nat (length packet) ->
   get_payload g pkthdr packet
   = Ok (incr Udp_packets (incr Ipv6_packets (incr Vlan_packets g)),
         slice packet first (N.max (len pkthdr) first))).
Proof.
  intros Houter Hinner Hnxt first.
  assert (Hrange : get_payload_range g pkthdr packet
                   = Ok (incr Udp_packets
                           (incr Ipv6_packets (incr Vlan_packets g)),
                         Range first (N.max (len pkthdr) first))).
  { unfold get_payload_range.
    rewrite (link_layer_vlan g packet ETHERTYPE_IPV6 Houter Hinner).
    cbv beta iota delta [bind].
    rewrite (network_layer_ipv6 _ packet _ _ Hnxt).
    cbv beta iota delta [bind]. unfold loop_fuel.
    rewrite l4_loop_udp. reflexivity. }
  split; [exact Hrange|].
  intro Hlen. unfold get_payload. rewrite Hrange.
  cbv beta iota delta [bind].
  rewrite (make_word_clamped _ _ _ Hlen). reflexivity.
Qed.

Lemma vlan_ipv6_udp_frame_payload_witness :
  get_payload initial_globals (fst vlan_ipv6_udp_frame)
    (snd vlan_ipv6_udp_frame)
  = Ok (incr Udp_packets (incr Ipv6_packets
          (incr Vlan_packets initial_globals)), repeat 3 12).
Proof.
  pose proof (vlan_ipv6_udp_frame_payload initial_globals
                (fst vlan_ipv6_udp_frame) (snd vlan_ipv6_udp_frame)
                eq_refl eq_refl eq_refl) as H.
  destruct H as [_ Hget].
  rewrite Hget; [reflexivity | vm_compute; discriminate].
Defined.

Lemma eight_byte_header_loop (fuel : nat) (g : globals) (packet : list byte)
    (ip_in_ip : bool) (l4_proto offset : N) (c : counter) :
  eight_byte_header l4_proto = Some c ->
  l4_loop (S fuel) g packet ip_in_ip l4_proto offset
  = Ok (incr c g, Fall_through (size_add offset 8)).
Proof.
  unfold eight_byte_header. intro H. cbn [l4_loop]. unfold l4_iteration.
  destruct (l4_proto =? IPPROTO_UDP) eqn:Hudp.
  - apply N.eqb_eq in Hudp. subst l4_proto. injection H as <-. reflexivity.
  - destruct (l4_proto =? IPPROTO_ESP) eqn:Hesp.
    + apply N.eqb_eq in Hesp. subst l4_proto. injection H as <-. reflexivity.
    + destruct (l4_proto =? IPPROTO_ICMP) eqn:Hicmp.
      * apply N.eqb_eq in Hicmp. subst l4_proto. injection H as <-.
        reflexivity.
      * destruct (l4_proto =? IPPROTO_ICMPV6) eqn:Hicmp6; [|discriminate].
        apply N.eqb_eq in Hicmp6. subst l4_proto. injection H as <-.
        reflexivity.
Qed.

(** X3.  UDP, ESP, ICMP and ICMPv6 are handled alike: for an Ethernet/IPv4
    frame with one of these four protocol numbers (ICMPv6 included,
    although the frame is IPv4) the counter of the protocol is incremented
    and the payload starts at 14 + 20 + 8; no byte of the transport header
    is read. *)
Theorem ipv4_eight_byte_header_payload (g : globals) (pkthdr : pcap_pkthdr)
    (packet : list byte) (ip_p : N) (c : counter) :
  read_ntohs packet offsetof_ether_type = Ok ETHERTYPE_IP ->
  read_u8 packet (sizeof_ether_header + offsetof_ip_p) = Ok ip_p ->
  eight_byte_header ip_p = Some c ->
  let first := sizeof_ether_header + sizeof_ip + 8 in
  get_payload_range g pkthdr packet
  = Ok (incr c (incr Ipv4_packets g),
        Range first (N.max (len pkthdr) first)) /\
  (len pkthdr <= N.of_nat (length packet) ->
   get_payload g pkthdr packet
   = Ok (incr c (incr Ipv4_packets g),
         slice packet first (N.max (len pkthdr) first))).
Proof.
  intros Het Hp Hc first.
  assert (Hrange : get_payload_range g pkthdr packet
                   = Ok (incr c (incr Ipv4_packets g),
                         Range first (N.max (len pkthdr) first))).
  { rewrite (get_payload_range_ipv4 _ _ _ _ Het Hp). unfold loop_fuel.
    rewrite (eight_byte_header_loop _ _ _ _ _ _ _ Hc). reflexivity. }
  split; [exact Hrange|].
  intro Hlen. unfold get_payload. rewrite Hrange.
  cbv beta iota delta [bind].
  rewrite (make_word_clamped _ _ _ Hlen). reflexivity.
Qed.

Lemma ipv4_eight_byte_header_payload_witness :
  get_payload initial_globals (fst udp_frame) (snd udp_frame)
  = Ok (incr Udp_packets (incr Ipv4_packets initial_globals), repeat 1 18).
Proof.
  pose proof (ipv4_eight_byte_header_payload initial_globals (fst udp_frame)
                (snd udp_frame) IPPROTO_UDP Udp_packets
                eq_refl eq_refl eq_refl) as H.
  destruct H as [_ Hget].
  rewrite Hget; [reflexivity | vm_compute; discriminate].
Defined.

Section Skipped.

Context {Nfa : Type} (is_in_lang : Nfa -> Word -> bool).
Variables aut1 aut2 : Nfa.

(** X4.  GRE and PIM.  For an Ethernet/IPv4 frame whose protocol is GRE or
    PIM [get_payload] returns the empty word without reading a byte after
    the IPv4 header, and the handler returns right after it: besides the
    histogram and the total only the IPv4 counter and the GRE or PIM
    counter have moved, and neither automaton is asked. *)
Theorem gre_and_pim_frames_are_skipped (g : globals) (pkthdr : pcap_pkthdr)
    (packet : list byte) (ip_p : N) (v : list N) :
  read_ntohs packet offsetof_ether_type = Ok ETHERTYPE_IP ->
  read_u8 packet (sizeof_ether_header + offsetof_ip_p) = Ok ip_p ->
  ip_p = IPPROTO_GRE \/ ip_p = IPPROTO_PIM ->
  vector_incr (packet_lengths g) (len pkthdr) = Ok v ->
  let c := if ip_p =? IPPROTO_GRE then Gre_packets else Pim_packets in
  get_payload g pkthdr packet = Ok (incr c (incr Ipv4_packets g), []) /\
  packetHandler is_in_lang aut1 aut2 g pkthdr packet
  = Ok (incr c (incr Ipv4_packets
                  (incr Total_packets (set_packet_lengths v g)))).
Proof.
  intros Het Hp Hproto Hv c.
  assert (Hget : forall g0, get_payload g0 pkthdr packet
                            = Ok (incr c (incr Ipv4_packets g0), [])).
  { intro g0. unfold get_payload.
    rewrite (get_payload_range_ipv4 _ _ _ _ Het Hp). unfold loop_fuel.
    subst c. destruct Hproto as [-> | ->]; reflexivity. }
  split; [apply Hget|].
  unfold packetHandler. rewrite Hv. cbv beta iota delta [bind].
  rewrite Hget. reflexivity.
Qed.

End Skipped.

Lemma gre_and_pim_frames_are_skipped_witness :
  packetHandler accepts (first_symbol_is 0) (first_symbol_is 1)
    initial_globals (fst gre_frame) (snd gre_frame)
  = Ok (incr Gre_packets
          (incr Ipv4_packets
             (incr Total_packets
                (set_packet_lengths
                   (repeat 0 60 ++ 1 :: repeat 0 1987) initial_globals)))).
Proof.
  apply (gre_and_pim_frames_are_skipped accepts (first_symbol_is 0)
           (first_symbol_is 1) initial_globals (fst gre_frame)
           (snd gre_frame) IPPROTO_GRE
           (repeat 0 60 ++ 1 :: repeat 0 1987) eq_refl eq_refl).
  - left. reflexivity.
  - vm_compute. reflexivity.
Defined.

Lemma unknown_l4_loop (fuel : nat) (g : globals) (packet : list byte)
    (ip_in_ip : bool) (l4_proto offset : N) :
  ~ In l4_proto known_l4_protocols ->
  l4_loop (S fuel) g packet ip_in_ip l4_proto offset
  = Ok (incr Other_l4_packets (cout_put (Out_l4_protocol l4_proto) g),
        Return_empty).
Proof.
  intro Hnot. cbn [l4_loop]. unfold l4_iteration.
  repeat match goal with
  | |- context [if l4_proto =? ?c then _ else _] =>
      destruct (l4_proto =? c) eqn:?H;
      [ exfalso; apply Hnot; apply N.eqb_eq in H; subst l4_proto;
        unfold known_l4_protocols; simpl; tauto | clear H ]
  end.
  reflexivity.
Qed.

(** X5.  A protocol number that the loop does not test for.  For an
    untagged IPv4 or IPv6 frame whose protocol (next header) is none of the
    ten numbers of the loop - for IPv6 that includes the hop-by-hop (0),
    routing (43) and destination options (60) extension headers - the
    number is written to the standard output, the other-L4 counter is
    incremented and the payload is empty. *)
Theorem unknown_l4_protocol_is_reported (g : globals) (pkthdr : pcap_pkthdr)
    (packet : list byte) (ipv6 : bool) (l4_proto : N) :
  read_ntohs packet offsetof_ether_type
  = Ok (if ipv6 then ETHERTYPE_IPV6 else ETHERTYPE_IP) ->
  read_u8 packet (sizeof_ether_header
                  + if ipv6 then offsetof_ip6_nxt else offsetof_ip_p)
  = Ok l4_proto ->
  ~ In l4_proto known_l4_protocols ->
  get_payload g pkthdr packet
  = Ok (incr Other_l4_packets
          (cout_put (Out_l4_protocol l4_proto)
             (incr (if ipv6 then Ipv6_packets else Ipv4_packets) g)), []).
Proof.
  intros Het Hp Hnot. unfold get_payload, get_payload_range.
  rewrite (link_layer_untagged g packet _ Het)
    by (destruct ipv6; discriminate).
  cbv beta iota delta [bind].
  destruct ipv6.
  - rewrite (network_layer_ipv6 g packet _ _ Hp).
    cbv beta iota delta [bind]. unfold loop_fuel.
    rewrite (unknown_l4_loop _ _ _ _ _ _ Hnot). reflexivity.
  - rewrite (network_layer_ipv4 g packet _ _ Hp).
    cbv beta iota delta [bind]. unfold loop_fuel.
    rewrite (unknown_l4_loop _ _ _ _ _ _ Hnot). reflexivity.
Qed.

Lemma unknown_l4_protocol_is_reported_witness :
  get_payload initial_globals (fst hop_by_hop_frame) (snd hop_by_hop_frame)
  = Ok (incr Other_l4_packets
          (cout_put (Out_l4_protocol 0)
             (incr Ipv6_packets initial_globals)), []).
Proof.
  apply (unknown_l4_protocol_is_reported initial_globals
           (fst hop_by_hop_frame) (snd hop_by_hop_frame) true 0
           eq_refl eq_refl).
  unfold known_l4_protocols. simpl.
  intros [H | [H | [H | [H | [H | [H | [H | [H | [H | [H | H]]]]]]]]]];
    try discriminate H. exact H.
Defined.

(** X6.  One VLAN tag only.  For a tagged frame whose inner ethertype is
    neither IPv4 nor IPv6 - a second 802.1Q tag is such a frame - the VLAN
    counter and the other-L3 counter are incremented and the payload is
    empty: the second tag is not looked into. *)
Theorem vlan_inner_ethertype_not_ip (g : globals) (pkthdr : pcap_pkthdr)
    (packet : list byte) (ether_type : N) :
  read_ntohs packet offsetof_ether_type = Ok ETHERTYPE_VLAN ->
  read_ntohs packet offsetof_vlan_ether_type = Ok ether_type ->
  ether_type <> ETHERTYPE_IP -> ether_type <> ETHERTYPE_IPV6 ->
  get_payload g pkthdr packet
  = Ok (incr Other_l3_packets (incr Vlan_packets g), []).
Proof.
  intros Houter Hinner H4 H6. unfold get_payload, get_payload_range.
  rewrite (link_layer_vlan g packet ether_type Houter Hinner).
  cbv beta iota delta [bind]. unfold network_layer.
  apply N.eqb_neq in H4, H6. rewrite H4, H6. reflexivity.
Qed.

Lemma vlan_inner_ethertype_not_ip_witness :
  get_payload initial_globals (fst qinq_frame) (snd qinq_frame)
  = Ok (incr Other_l3_packets (incr Vlan_packets initial_globals), []).
Proof.
  apply (vlan_inner_ethertype_not_ip initial_globals (fst qinq_frame)
           (snd qinq_frame) ETHERTYPE_VLAN eq_refl eq_refl);
    discriminate.
Defined.

Lemma read_u8_outside (packet : list byte) (off : N) :
  N.of_nat (length packet) <= off ->
  read_u8 packet off = Undefined Read_outside_packet.
Proof.
  intro H. unfold read_u8.
  replace (nth_error packet (N.to_nat off)) with (@None byte);
    [reflexivity|].
  symmetry. apply nth_error_None. lia.
Qed.

Section Runt.

Context {Nfa : Type} (is_in_lang : Nfa -> Word -> bool).
Variables aut1 aut2 : Nfa.

(** X7.  No length is checked before the headers are read.  For a packet
    of fewer than 14 bytes the read of the ethertype leaves the packet,
    whatever the declared and the captured length say, and so does the
    handler once the histogram has been updated. *)
Theorem runt_packet_is_read_outside (g : globals) (pkthdr : pcap_pkthdr)
    (packet : list byte) :
  N.of_nat (length packet) < sizeof_ether_header ->
  get_payload g pkthdr packet = Undefined Read_outside_packet /\
  (len pkthdr < N.of_nat (length (packet_lengths g)) ->
   packetHandler is_in_lang aut1 aut2 g pkthdr packet
   = Undefined Read_outside_packet).
Proof.
  unfold sizeof_ether_header. intro Hshort.
  assert (Hget : forall g0, get_payload g0 pkthdr packet
                            = Undefined Read_outside_packet).
  { intro g0. unfold get_payload, get_payload_range, link_layer, read_ntohs.
    unfold offsetof_ether_type.
    destruct (read_u8_cases packet 12) as [[hi Hhi] | Hhi].
    - rewrite Hhi. cbv beta iota delta [bind].
      rewrite read_u8_outside; [reflexivity|].
      apply read_u8_Ok_bound in Hhi. lia.
    - rewrite Hhi. reflexivity. }
  split; [apply Hget|].
  intro Hlen. destruct (vector_incr_in_bounds _ _ Hlen) as [v [Hv _]].
  unfold packetHandler. rewrite Hv. cbv beta iota delta [bind].
  rewrite Hget. reflexivity.
Qed.

End Runt.

Lemma runt_packet_is_read_outside_witness :
  get_payload initial_globals (fst runt_frame) (snd runt_frame)
  = Undefined Read_outside_packet /\
  packetHandler accepts (first_symbol_is 0) (first_symbol_is 1)
    initial_globals (fst runt_frame) (snd runt_frame)
  = Undefined Read_outside_packet.
Proof.
  pose proof (runt_packet_is_read_outside accepts (first_symbol_is 0)
                (first_symbol_is 1) initial_globals (fst runt_frame)
                (snd runt_frame)) as H.
  destruct H as [Hget Hhandler]; [vm_compute; reflexivity|].
  split; [exact Hget|].
  apply Hhandler. vm_compute. reflexivity.
Defined.

(** ** What a run writes *)

(* [g'] has the output of [g] followed by ticks and L4 messages *)
Lemma l4_iteration_output (g : globals) (packet : list byte)
    (ip_in_ip : bool) (l4_proto offset : N) (it : iteration) :
  l4_iteration g packet ip_in_ip l4_proto offset = Ok it ->
  (cout (iteration_globals it) = cout g /\
   other_l4_packets (iteration_globals it) = other_l4_packets g) \/
  (cout (iteration_globals it) = cout g ++ [Out_l4_protocol l4_proto] /\
   other_l4_packets (iteration_globals it)
   = size_incr (other_l4_packets g) /\
   iteration_shape it = inr Return_empty).
Proof.
  revert it. l4_cases; intros it H; try discriminate; injection H as <-;
    try (left; split; reflexivity).
  right. repeat split; reflexivity.
Qed.

Lemma l4_loop_output (fuel : nat) (g g' : globals) (packet : list byte)
    (ip_in_ip : bool) (l4_proto offset : N) (e : loop_exit) :
  l4_loop fuel g packet ip_in_ip l4_proto offset = Ok (g', e) ->
  (cout g' = cout g /\ other_l4_packets g' = other_l4_packets g) \/
  (exists x, cout g' = cout g ++ [Out_l4_protocol x] /\
             other_l4_packets g' = size_incr (other_l4_packets g) /\
             e = Return_empty).
Proof.
  revert g ip_in_ip l4_proto offset.
  induction fuel as [|fuel IH]; intros g ip_in_ip l4_proto offset H;
    [discriminate|].
  simpl in H. bind_inv H.
  destruct (l4_iteration_output _ _ _ _ _ _ E) as [[Hc Ho] | [Hc [Ho Hs]]].
  - destruct a as [g1 ip1 l41 off1 | g1 e1]; simpl in Hc, Ho.
    + destruct (IH _ _ _ _ H) as [[Hc' Ho'] | [x [Hc' [Ho' He]]]].
      * left. split; congruence.
      * right. exists x. repeat split; congruence.
    + injection H as <- _. left. split; assumption.
  - destruct a as [g1 ip1 l41 off1 | g1 e1]; simpl in Hc, Ho, Hs;
      [discriminate|].
    injection Hs as ->. injection H as <- <-.
    right. exists l4_proto. repeat split; assumption.
Qed.

(* [get_payload] writes at most one line, the L4 message, and does so
   exactly when it increments the other-L4 counter. *)
Lemma get_payload_output (g g' : globals) (pkthdr : pcap_pkthdr)
    (packet : list byte) (w : Word) :
  get_payload g pkthdr packet = Ok (g', w) ->
  (cout g' = cout g /\ other_l4_packets g' = other_l4_packets g) \/
  (exists x, cout g' = cout g ++ [Out_l4_protocol x] /\
             other_l4_packets g' = size_incr (other_l4_packets g) /\
             w = []).
Proof.
  unfold get_payload. intro H.
  bind_inv H. destruct a as [g0 r]. bind_inv H. injection H as <- <-.
  unfold get_payload_range in E.
  bind_inv E. destruct a0 as [[g1 offset] ether_type].
  bind_inv E. destruct a0 as [g2 l3].
  assert (H1 : cout g1 = cout g /\ other_l4_packets g1 = other_l4_packets g).
  { unfold link_layer in E1. bind_inv E1.
    destruct (a0 =? ETHERTYPE_VLAN).
    - bind_inv E1. injection E1 as <- _ _. split; reflexivity.
    - injection E1 as <- _ _. split; reflexivity. }
  assert (H2 : cout g2 = cout g1 /\
               other_l4_packets g2 = other_l4_packets g1).
  { unfold network_layer in E2.
    destruct (ether_type =? ETHERTYPE_IP).
    - bind_inv E2. injection E2 as <- _. split; reflexivity.
    - destruct (ether_type =? ETHERTYPE_IPV6).
      + bind_inv E2. injection E2 as <- _. split; reflexivity.
      + injection E2 as <- _. split; reflexivity. }
  destruct H1 as [Hc1 Ho1], H2 as [Hc2 Ho2].
  destruct l3 as [[l4_proto offset2]|].
  - bind_inv E. destruct a0 as [g3 e].
    destruct (l4_loop_output _ _ _ _ _ _ _ _ E3)
      as [[Hc Ho] | [x [Hc [Ho He]]]].
    + left. destruct e; injection E as <- _; split; congruence.
    + right. exists x. subst e. injection E as <- <-.
      apply make_word_Ok in E0. repeat split; congruence.
  - injection E as <- _. left. split; congruence.
Qed.

Lemma div_succ_1000 (n : N) :
  (n + 1) / 1000 = n / 1000 + if (n + 1) mod 1000 =? 0 then 1 else 0.
Proof.
  pose proof (N.Div0.div_mod (n + 1) 1000) as H1.
  pose proof (N.Div0.div_mod n 1000) as H2.
  assert (H3 : n mod 1000 < 1000) by (apply N.mod_lt; discriminate).
  assert (H4 : (n + 1) mod 1000 < 1000) by (apply N.mod_lt; discriminate).
  destruct ((n + 1) mod 1000 =? 0) eqn:Hm;
    [apply N.eqb_eq in Hm | apply N.eqb_neq in Hm];
    generalize dependent ((n + 1) / 1000); generalize dependent (n / 1000);
    generalize dependent ((n + 1) mod 1000);
    generalize dependent (n mod 1000); intros; lia.
Qed.

Section Output.

Context {Nfa : Type} (is_in_lang : Nfa -> Word -> bool).
Variables aut1 aut2 : Nfa.

(* One call of the handler appends the L4 message of [get_payload] or the
   tick, never both, and nothing else. *)
Lemma packetHandler_output (g g' : globals) (pkthdr : pcap_pkthdr)
    (packet : list byte) :
  packetHandler is_in_lang aut1 aut2 g pkthdr packet = Ok g' ->
  (cout g' = cout g
             ++ (if negb (empty_payload_frame (pkthdr, packet))
                    && (total_packets g' mod 1000 =? 0)
                 then [Out_tick] else []) /\
   other_l4_packets g' = other_l4_packets g) \/
  (exists x, cout g' = cout g ++ [Out_l4_protocol x] /\
             other_l4_packets g' = size_incr (other_l4_packets g)).
Proof.
  intro H.
  destruct (packetHandler_Ok _ _ _ _ _ _ _ H)
    as [v [g1 [w [Hv [Hget [_ [Hkeep [Hempty Hfull]]]]]]]].
  pose proof (frame_word_of_call _ _ _ _ _ Hget) as Hfw.
  pose proof (Hkeep Other_l4_packets eq_refl) as Ho4. simpl in Ho4.
  pose proof (Hkeep Total_packets eq_refl) as Htot. simpl in Htot.
  unfold empty_payload_frame. rewrite Hfw.
  destruct (get_payload_output _ _ _ _ _ Hget)
    as [[Hc Ho] | [x [Hc [Ho Hw]]]];
    change (cout (incr Total_packets (set_packet_lengths v g)))
      with (cout g) in Hc;
    change (other_l4_packets (incr Total_packets (set_packet_lengths v g)))
      with (other_l4_packets g) in Ho.
  - left. split; [|congruence].
    destruct (empty w) eqn:Hw; simpl.
    + rewrite (Hempty eq_refl), Hc, app_nil_r. reflexivity.
    + destruct (Hfull eq_refl) as [_ [_ [_ [_ Hcout]]]].
      rewrite Hcout, Htot, Hc.
      destruct (total_packets g1 mod 1000 =? 0);
        [reflexivity | rewrite app_nil_r; reflexivity].
  - right. exists x. subst w. rewrite (Hempty eq_refl).
    split; assumption.
Qed.

Lemma packetHandler_keeps_unreported (g g' : globals) (pkthdr : pcap_pkthdr)
    (packet : list byte) :
  packetHandler is_in_lang aut1 aut2 g pkthdr packet = Ok g' ->
  reported g' = reported g.
Proof.
  intro H. unfold reported.
  destruct (packetHandler_output _ _ _ _ H) as [[Hc _] | [x [Hc _]]];
    rewrite Hc, existsb_app.
  - destruct (negb (empty_payload_frame (pkthdr, packet))
              && (total_packets g' mod 1000 =? 0)); simpl;
      rewrite orb_false_r; reflexivity.
  - simpl. rewrite orb_false_r. reflexivity.
Qed.

Lemma pcap_loop_keeps_unreported (frames : list frame) (g g' : globals) :
  pcap_loop (packetHandler is_in_lang aut1 aut2) g frames = Ok g' ->
  reported g' = reported g.
Proof.
  revert g. induction frames as [|[pkthdr packet] rest IH]; intros g H.
  - injection H as <-. reflexivity.
  - simpl in H. bind_inv H.
    rewrite (IH _ H). apply (packetHandler_keeps_unreported _ _ _ _ E).
Qed.

(** X8.  One line per frame of an unknown protocol.  After a run of fewer
    than [2^64] frames the number of L4 messages on the standard output
    equals the other-L4 counter, and the output consists of L4 messages
    and ticks only. *)
Theorem l4_messages_match_counter (frames : list frame) (g : globals) :
  sample is_in_lang aut1 aut2 frames = Ok g ->
  N.of_nat (length frames) < size_t_modulus ->
  N.of_nat (l4_messages g) = other_l4_packets g /\
  forallb handler_output (cout g) = true.
Proof.
  intros Hrun Hlt.
  assert (Hinv : (N.of_nat (length frames) < size_t_modulus ->
                  N.of_nat (l4_messages g) = other_l4_packets g /\
                  other_l4_packets g <= N.of_nat (length frames)) /\
                 forallb handler_output (cout g) = true).
  { apply (sample_invariant is_in_lang aut1 aut2
             (fun g done =>
                (N.of_nat (length done) < size_t_modulus ->
                 N.of_nat (l4_messages g) = other_l4_packets g /\
                 other_l4_packets g <= N.of_nat (length done)) /\
                forallb handler_output (cout g) = true));
      [ | | exact Hrun].
    - split; [|reflexivity]. intros _. split; [reflexivity | simpl; lia].
    - intros g0 done pkthdr packet g0' [HP Hall] Hh.
      rewrite length_app. simpl length.
      destruct (packetHandler_output _ _ _ _ Hh)
        as [[Hc Ho] | [x [Hc Ho]]].
      + split.
        * intro Hl. destruct HP as [Hm Hb]; [lia|].
          unfold l4_messages in *. rewrite Hc, Ho, filter_app, length_app.
          destruct (negb (empty_payload_frame (pkthdr, packet))
                    && (total_packets g0' mod 1000 =? 0)); simpl; lia.
        * rewrite Hc, forallb_app, Hall.
          destruct (negb (empty_payload_frame (pkthdr, packet))
                    && (total_packets g0' mod 1000 =? 0)); reflexivity.
      + split.
        * intro Hl. destruct HP as [Hm Hb]; [lia|].
          unfold l4_messages in *. rewrite Hc, Ho, filter_app, length_app.
          simpl. rewrite size_incr_small by lia. lia.
        * rewrite Hc, forallb_app, Hall. reflexivity. }
  destruct Hinv as [Hexact Hall]. split; [apply Hexact; exact Hlt | exact Hall].
Qed.

(** X9.  Ticks.  After a run of fewer than [2^64] frames the number of
    ticks is at most the total divided by 1000, and it is equal to it when
    every frame of the capture had a payload. *)
Theorem ticks_bounded_by_total (frames : list frame) (g : globals) :
  sample is_in_lang aut1 aut2 frames = Ok g ->
  N.of_nat (length frames) < size_t_modulus ->
  N.of_nat (ticks g) <= total_packets g / 1000 /\
  (forallb (fun f => negb (empty_payload_frame f)) frames = true ->
   N.of_nat (ticks g) = total_packets g / 1000).
Proof.
  intros Hrun Hlt.
  assert (Hinv : N.of_nat (length frames) < size_t_modulus ->
                 total_packets g = N.of_nat (length frames) /\
                 N.of_nat (ticks g) <= total_packets g / 1000 /\
                 (forallb (fun f => negb (empty_payload_frame f)) frames
                  = true ->
                  N.of_nat (ticks g) = total_packets g / 1000)).
  { apply (sample_invariant is_in_lang aut1 aut2
             (fun g done =>
                N.of_nat (length done) < size_t_modulus ->
                total_packets g = N.of_nat (length done) /\
                N.of_nat (ticks g) <= total_packets g / 1000 /\
                (forallb (fun f => negb (empty_payload_frame f)) done
                 = true ->
                 N.of_nat (ticks g) = total_packets g / 1000)));
      [ | | exact Hrun].
    - intros _. repeat split; reflexivity.
    - intros g0 done pkthdr packet g0' HP Hh.
      rewrite length_app, forallb_app. simpl length. intro Hl.
      destruct HP as [Htot [Hle Heq]]; [lia|].
      destruct (packetHandler_step _ _ _ _ _ _ _ Hh) as [Htotal _].
      pose proof (packetHandler_ticks _ _ _ _ _ _ _ Hh) as Hticks.
      rewrite Htot, size_incr_small in Htotal by lia.
      pose proof div_succ_1000 as Hdiv.
      rewrite Htot in Hle, Heq.
      rewrite Htotal, Hdiv in *. rewrite Hticks.
      split; [lia|].
      split.
      { destruct ((N.of_nat (length done) + 1) mod 1000 =? 0);
          destruct (empty_payload_frame (pkthdr, packet)); cbn [negb andb];
          lia. }
      intro Hall. apply andb_true_iff in Hall. destruct Hall as [Hall Hf].
      cbn [forallb] in Hf. rewrite andb_true_r in Hf.
      rewrite Hf. specialize (Heq Hall). cbn [andb].
      destruct ((N.of_nat (length done) + 1) mod 1000 =? 0); lia. }
  destruct (Hinv Hlt) as [_ H]. exact H.
Qed.

End Output.

(** ** The report and the exit code *)

Lemma reported_cout_put (o : output) (g : globals) :
  reported (cout_put o g) = reported g || is_report o.
Proof.
  unfold reported. simpl. rewrite existsb_app. simpl.
  rewrite orb_false_r. reflexivity.
Qed.

Lemma reported_report (packets_file : string) (g : globals) :
  reported (report packets_file g) = true.
Proof.
  cbv beta delta [report]. cbv zeta.
  match goal with
  | |- reported (cout_put Out_time ?g0) = true => generalize g0
  end.
  intro g0. rewrite reported_cout_put. apply orb_true_r.
Qed.

Section Exit.

Context {Nfa : Type} (is_in_lang : Nfa -> Word -> bool).
Context {Stream ParsedSection : Type}.
Context (ifstream : string -> option Stream).
Context (parse_vtf_section : Stream -> string + ParsedSection).
Context (construct : ParsedSection -> string + Nfa).
Context (to_string : Nfa -> string).
Context (pcap_open_offline : string -> string + pcap_t).

(** X10.  The report goes with the exit code.  Whenever [main] returns, it
    returns [EXIT_SUCCESS] or [EXIT_FAILURE], and the lines of the report
    have been written exactly when it returns [EXIT_SUCCESS]; in
    particular a capture whose reading ends with an error gives
    [EXIT_FAILURE] and no report, although its frames have been handled. *)
Theorem report_written_iff_success (argv : list string) (code : N)
    (g : globals) :
  main is_in_lang ifstream parse_vtf_section construct to_string
    pcap_open_offline argv = Ok (code, g) ->
  (code = EXIT_SUCCESS /\ reported g = true) \/
  (code = EXIT_FAILURE /\ reported g = false).
Proof.
  unfold main. intro H.
  destruct argv as [|a0 [|a1 [|a2 [|a3 [|a4 rest]]]]];
    try (injection H as <- <-; right; split; reflexivity).
  destruct (load_aut ifstream parse_vtf_section construct a1)
    as [what1 | aut1]; [injection H as <- <-; right; split; reflexivity|].
  destruct (load_aut ifstream parse_vtf_section construct a2)
    as [what2 | aut2]; [injection H as <- <-; right; split; reflexivity|].
  destruct (pcap_open_offline a3) as [errbuf | descr];
    [injection H as <- <-; right; split; reflexivity|].
  bind_inv H. apply pcap_loop_keeps_unreported in E.
  destruct (pcap_geterr descr) as [err|]; injection H as <- <-.
  - right. split; [reflexivity|].
    rewrite reported_cout_put, E. reflexivity.
  - left. split; [reflexivity | apply reported_report].
Qed.

End Exit.

(* a capture of one frame whose reading ends with an error *)
Lemma report_written_iff_success_witness :
  exists g,
    main accepts (fun _ : string => Some tt)
      (fun _ : unit => @inr string unit tt)
      (fun _ : unit => @inr string (Word -> bool) (first_symbol_is 0))
      (fun _ => EmptyString)
      (fun _ : string =>
         @inr string pcap_t
           {| pcap_frames := [udp_frame];
              pcap_geterr := Some "truncated dump file"%string |})
      ["diff-sampler"; "aut1.vtf"; "aut2.vtf"; "packets.pcap"]%string
    = Ok (EXIT_FAILURE, g) /\
    total_packets g = 1 /\ reported g = false.
Proof.
  destruct (main accepts (fun _ : string => Some tt)
      (fun _ : unit => @inr string unit tt)
      (fun _ : unit => @inr string (Word -> bool) (first_symbol_is 0))
      (fun _ => EmptyString)
      (fun _ : string =>
         @inr string pcap_t
           {| pcap_frames := [udp_frame];
              pcap_geterr := Some "truncated dump file"%string |})
      ["diff-sampler"; "aut1.vtf"; "aut2.vtf"; "packets.pcap"]%string)
    as [[code g]| | |] eqn:E; try (vm_compute in E; discriminate).
  pose proof (report_written_iff_success _ _ _ _ _ _ _ _ _ E) as H.
  assert (Hv : (code, total_packets g) = (EXIT_FAILURE, 1)).
  { change (match Ok (code, g) with
            | Ok (c, g0) => (c, total_packets g0)
            | _ => (0, 0)
            end = (EXIT_FAILURE, 1)).
    rewrite <- E. vm_compute. reflexivity. }
  injection Hv as -> Ht.
  exists g. split; [reflexivity|]. split; [exact Ht|].
  destruct H as [[Hc _] | [_ Hr]]; [discriminate | exact Hr].
Defined.

(** ** The counters of the differential test *)

Lemma get_payload_keeps_handler_counters (g g' : globals)
    (pkthdr : pcap_pkthdr) (packet : list byte) (w : Word) :
  get_payload g pkthdr packet = Ok (g', w) ->
  packet_lengths g' = packet_lengths g /\
  forall k, handler_counter k = true -> value_of k g' = value_of k g.
Proof.
  unfold get_payload. intro H. bind_inv H. destruct a as [g1 r].
  bind_inv H. injection H as <- _.
  destruct (get_payload_range_counters _ _ _ _ _ E) as [Hpl [Hh _]].
  split; assumption.
Qed.

Section Differential.

Context {Nfa : Type} (is_in_lang : Nfa -> Word -> bool).
Variables aut1 aut2 : Nfa.

(* What one call of the handler does to the four counters of the
   differential test. *)
Lemma packetHandler_sampling (g g' : globals) (pkthdr : pcap_pkthdr)
    (packet : list byte) :
  packetHandler is_in_lang aut1 aut2 g pkthdr packet = Ok g' ->
  (payloaded_packets g' = payloaded_packets g /\
   accepted_aut1 g' = accepted_aut1 g /\
   accepted_aut2 g' = accepted_aut2 g /\
   incons_packets g' = incons_packets g) \/
  (exists w,
     frame_word (pkthdr, packet) = Ok w /\ w <> [] /\
     payloaded_packets g' = size_incr (payloaded_packets g) /\
     accepted_aut1 g' = (if is_in_lang aut1 w
                         then size_incr (accepted_aut1 g)
                         else accepted_aut1 g) /\
     accepted_aut2 g' = (if is_in_lang aut2 w
                         then size_incr (accepted_aut2 g)
                         else accepted_aut2 g) /\
     incons_packets g' = (if Bool.eqb (is_in_lang aut1 w) (is_in_lang aut2 w)
                          then incons_packets g
                          else size_incr (incons_packets g))).
Proof.
  intro H.
  destruct (packetHandler_Ok _ _ _ _ _ _ _ H)
    as [v [g1 [w [Hv [Hget [_ [_ [Hempty Hfull]]]]]]]].
  pose proof (frame_word_of_call _ _ _ _ _ Hget) as Hfw.
  destruct (get_payload_keeps_handler_counters _ _ _ _ _ Hget) as [_ Hh].
  pose proof (Hh Payloaded_packets eq_refl) as Hp.
  pose proof (Hh Accepted_aut1 eq_refl) as H1.
  pose proof (Hh Accepted_aut2 eq_refl) as H2.
  pose proof (Hh Incons_packets eq_refl) as Hi.
  simpl in Hp, H1, H2, Hi.
  destruct (empty w) eqn:Hw.
  - left. rewrite (Hempty eq_refl). repeat split; assumption.
  - right. exists w. split; [exact Hfw|].
    split; [intros ->; discriminate|].
    destruct (Hfull eq_refl) as [Hp' [H1' [H2' [Hi' _]]]].
    rewrite Hp', H1', H2', Hi', Hp, H1, H2, Hi.
    destruct (Bool.eqb (is_in_lang aut1 w) (is_in_lang aut2 w));
      repeat split; reflexivity.
Qed.

(** X11.  Two automata with the same language.  When the two automata
    accept the same words, a run ends with no inconsistent packet, with
    equal acceptance counters, and no frame is a disagreeing frame. *)
Theorem equivalent_acceptors_never_disagree (frames : list frame)
    (g : globals) :
  (forall w, is_in_lang aut1 w = is_in_lang aut2 w) ->
  sample is_in_lang aut1 aut2 frames = Ok g ->
  incons_packets g = 0 /\
  accepted_aut1 g = accepted_aut2 g /\
  disagreeing_frames is_in_lang aut1 aut2 frames = [].
Proof.
  intros Heq Hrun.
  assert (Hstep : forall g0 g0' pkthdr packet,
            packetHandler is_in_lang aut1 aut2 g0 pkthdr packet = Ok g0' ->
            incons_packets g0' = incons_packets g0 /\
            (accepted_aut1 g0 = accepted_aut2 g0 ->
             accepted_aut1 g0' = accepted_aut2 g0')).
  { intros g0 g0' pkthdr packet Hh.
    destruct (packetHandler_sampling _ _ _ _ Hh)
      as [[_ [H1 [H2 Hi]]] | [w [_ [_ [_ [H1 [H2 Hi]]]]]]].
    - split; congruence.
    - rewrite Heq in H1, Hi. rewrite Bool.eqb_reflx in Hi.
      split; [exact Hi|]. intro Ha. rewrite H1, H2, Ha. reflexivity. }
  assert (Hinv : incons_packets g = 0 /\ accepted_aut1 g = accepted_aut2 g).
  { apply (sample_invariant is_in_lang aut1 aut2
             (fun g _ => incons_packets g = 0 /\
                         accepted_aut1 g = accepted_aut2 g))
      with (frames := frames); [ | | exact Hrun].
    - split; reflexivity.
    - intros g0 done pkthdr packet g0' [Hi Ha] Hh.
      destruct (Hstep _ _ _ _ Hh) as [Hi' Ha'].
      split; [congruence | apply Ha'; exact Ha]. }
  destruct Hinv as [Hi Ha]. split; [exact Hi|]. split; [exact Ha|].
  unfold disagreeing_frames. clear Hrun Hi Ha g.
  generalize initial_globals, 0%nat.
  induction frames as [|[pkthdr packet] rest IH]; intros g0 ordinal;
    [reflexivity|].
  simpl.
  destruct (packetHandler is_in_lang aut1 aut2 g0 pkthdr packet)
    as [g0'| | |] eqn:Hh; try reflexivity.
  destruct (Hstep _ _ _ _ Hh) as [Hi _].
  rewrite Hi, N.eqb_refl. apply IH.
Qed.

(** X12.  Bounds between the counters of the differential test.  After a
    run of fewer than [2^64] frames each of accepted-by-1, accepted-by-2
    and inconsistent is at most the payloaded counter, which is at most the
    total; the inconsistent counter is at most the sum of the two
    acceptance counters, and the two acceptance counters differ by at most
    the inconsistent counter. *)
Theorem sampling_counters_bounds (frames : list frame) (g : globals) :
  sample is_in_lang aut1 aut2 frames = Ok g ->
  N.of_nat (length frames) < size_t_modulus ->
  payloaded_packets g <= total_packets g /\
  accepted_aut1 g <= payloaded_packets g /\
  accepted_aut2 g <= payloaded_packets g /\
  incons_packets g <= payloaded_packets g /\
  incons_packets g <= accepted_aut1 g + accepted_aut2 g /\
  accepted_aut1 g <= accepted_aut2 g + incons_packets g /\
  accepted_aut2 g <= accepted_aut1 g + incons_packets g.
Proof.
  intros Hrun Hlt.
  assert (Hinv : N.of_nat (length frames) < size_t_modulus ->
            total_packets g = N.of_nat (length frames) /\
            payloaded_packets g <= total_packets g /\
            accepted_aut1 g <= payloaded_packets g /\
            accepted_aut2 g <= payloaded_packets g /\
            incons_packets g <= payloaded_packets g /\
            incons_packets g <= accepted_aut1 g + accepted_aut2 g /\
            accepted_aut1 g <= accepted_aut2 g + incons_packets g /\
            accepted_aut2 g <= accepted_aut1 g + incons_packets g).
  { apply (sample_invariant is_in_lang aut1 aut2
             (fun g done =>
                N.of_nat (length done) < size_t_modulus ->
                total_packets g = N.of_nat (length done) /\
                payloaded_packets g <= total_packets g /\
                accepted_aut1 g <= payloaded_packets g /\
                accepted_aut2 g <= payloaded_packets g /\
                incons_packets g <= payloaded_packets g /\
                incons_packets g <= accepted_aut1 g + accepted_aut2 g /\
                accepted_aut1 g <= accepted_aut2 g + incons_packets g /\
                accepted_aut2 g <= accepted_aut1 g + incons_packets g));
      [ | | exact Hrun].
    - intros _. simpl. repeat split; lia.
    - intros g0 done pkthdr packet g0' HP Hh.
      rewrite length_app. simpl length. intro Hl.
      destruct HP as [Htot HP]; [lia|].
      destruct (packetHandler_step _ _ _ _ _ _ _ Hh) as [Htotal _].
      rewrite Htot, size_incr_small in Htotal by lia.
      destruct (packetHandler_sampling _ _ _ _ Hh)
        as [[Hp [H1 [H2 Hi]]] | [w [_ [_ [Hp [H1 [H2 Hi]]]]]]].
      + rewrite Hp, H1, H2, Hi, Htotal. rewrite Htot in HP. lia.
      + rewrite Htot in HP.
        rewrite Hp, H1, H2, Hi, Htotal.
        destruct (is_in_lang aut1 w), (is_in_lang aut2 w); simpl;
          rewrite ?size_incr_small by lia; lia. }
  destruct (Hinv Hlt) as [_ H]. exact H.
Qed.

End Differential.

(** ** The histogram *)

Section HistogramCounts.

Context {Nfa : Type} (is_in_lang : Nfa -> Word -> bool).
Variables aut1 aut2 : Nfa.

Lemma packetHandler_histogram (g g' : globals) (pkthdr : pcap_pkthdr)
    (packet : list byte) :
  packetHandler is_in_lang aut1 aut2 g pkthdr packet = Ok g' ->
  vector_incr (packet_lengths g) (len pkthdr) = Ok (packet_lengths g').
Proof.
  intro H.
  destruct (packetHandler_Ok _ _ _ _ _ _ _ H)
    as [v [g1 [w [Hv [Hget [Hpl _]]]]]].
  destruct (get_payload_keeps_handler_counters _ _ _ _ _ Hget) as [Hpl1 _].
  rewrite Hpl, Hpl1. exact Hv.
Qed.

(** X13.  The histogram counts the frames by declared length.  After a run
    of fewer than [2^64] frames the entry [n] of [packet_lengths] is the
    number of frames of the capture whose declared length is [n]; the
    entries of the lengths that did not occur are 0. *)
Theorem packet_lengths_counts_frames (frames : list frame) (g : globals)
    (n : N) :
  sample is_in_lang aut1 aut2 frames = Ok g ->
  N.of_nat (length frames) < size_t_modulus ->
  nth (N.to_nat n) (packet_lengths g) 0 = count_frames (has_length n) frames.
Proof.
  intros Hrun Hlt.
  apply (sample_invariant is_in_lang aut1 aut2
           (fun g done =>
              N.of_nat (length done) < size_t_modulus ->
              nth (N.to_nat n) (packet_lengths g) 0
              = count_frames (has_length n) done))
    with (frames := frames); [ | | exact Hrun | exact Hlt].
  - intros _.
    change (packet_lengths initial_globals) with (repeat 0 2048).
    change (count_frames (has_length n) []) with 0.
    generalize (N.to_nat n). generalize 2048%nat.
    intro k. induction k as [|k IH]; intros [|j]; simpl; auto.
  - intros g0 done pkthdr packet g0' HP Hh.
    rewrite length_app. simpl length. intro Hl.
    rewrite count_frames_snoc. unfold has_length at 2. simpl fst.
    rewrite (vector_incr_nth _ _ _ _ (packetHandler_histogram _ _ _ _ Hh)).
    rewrite HP by lia.
    pose proof (count_frames_le (has_length n) done) as Hle.
    destruct (len pkthdr =? n) eqn:Hn.
    + apply N.eqb_eq in Hn. subst n. rewrite PeanoNat.Nat.eqb_refl.
      apply size_incr_small. lia.
    + apply N.eqb_neq in Hn.
      replace (Nat.eqb (N.to_nat n) (N.to_nat (len pkthdr))) with false
        by (symmetry; apply PeanoNat.Nat.eqb_neq; lia).
      lia.
Qed.

End HistogramCounts.

(** ** One final counter per frame *)

Lemma l4_iteration_kind (g : globals) (packet : list byte) (ip_in_ip : bool)
    (l4_proto offset : N) (it : iteration) :
  l4_iteration g packet ip_in_ip l4_proto offset = Ok it ->
  exists c,
    (forall k, value_of k (iteration_globals it) = value_of k (incr c g)) /\
    final_counter c = match it with
                      | Continue _ _ _ _ => false
                      | Exit _ _ => true
                      end.
Proof.
  revert it. l4_cases; intros it H; try discriminate; injection H as <-.
  - exists Tcp_packets; split; reflexivity.
  - exists Udp_packets; split; reflexivity.
  - exists Ipip_packets; split; reflexivity.
  - exists Esp_packets; split; reflexivity.
  - exists Icmp_packets; split; reflexivity.
  - exists Gre_packets; split; reflexivity.
  - exists Icmp6_packets; split; reflexivity.
  - exists V6_fragment_packets; split; reflexivity.
  - exists Ip6_in_ip4_packets; split; reflexivity.
  - exists Pim_packets; split; reflexivity.
  - exists Other_l4_packets; split; reflexivity.
Qed.

Lemma l4_loop_final (fuel : nat) (g g' : globals) (packet : list byte)
    (ip_in_ip : bool) (l4_proto offset : N) (e : loop_exit) :
  l4_loop fuel g packet ip_in_ip l4_proto offset = Ok (g', e) ->
  exists c,
    final_counter c = true /\
    value_of c g' = size_incr (value_of c g) /\
    forall k, final_counter k = true -> k <> c ->
              value_of k g' = value_of k g.
Proof.
  revert g ip_in_ip l4_proto offset.
  induction fuel as [|fuel IH]; intros g ip_in_ip l4_proto offset H;
    [discriminate|].
  simpl in H. bind_inv H.
  destruct (l4_iteration_kind _ _ _ _ _ _ E) as [c [Hval Hc]].
  destruct a as [g1 ip1 l41 off1 | g1 e1]; simpl in Hval.
  - destruct (IH _ _ _ _ H) as [c' [Hc' [Hinc Hrest]]].
    assert (Hsame : forall k, final_counter k = true ->
              value_of k g1 = value_of k g).
    { intros k Hk. rewrite Hval. apply value_of_incr_other.
      intros ->. congruence. }
    exists c'. split; [exact Hc'|]. split.
    + rewrite Hinc, Hsame by exact Hc'. reflexivity.
    + intros k Hk Hne. rewrite Hrest, Hsame by assumption. reflexivity.
  - injection H as <- _. exists c. split; [exact Hc|]. split.
    + rewrite Hval. apply value_of_incr_same.
    + intros k _ Hne. rewrite Hval. apply value_of_incr_other. exact Hne.
Qed.

Lemma get_payload_range_final (g g' : globals) (pkthdr : pcap_pkthdr)
    (packet : list byte) (r : word_range) :
  get_payload_range g pkthdr packet = Ok (g', r) ->
  exists c,
    final_counter c = true /\
    value_of c g' = size_incr (value_of c g) /\
    forall k, final_counter k = true -> k <> c ->
              value_of k g' = value_of k g.
Proof.
  unfold get_payload_range. intro H.
  bind_inv H. destruct a as [[g1 offset] ether_type].
  bind_inv H. destruct a as [g2 l3].
  destruct (layers_counters _ _ _ _ _ _ _ E E0) as [_ [c [Hc [Hval Hnone]]]].
  assert (Hv : forall k, final_counter k = true ->
            value_of k g2 = value_of k (incr c g)).
  { intros k Hk. apply Hval. intros ->. discriminate. }
  destruct l3 as [[l4_proto offset2]|].
  - bind_inv H. destruct a as [g3 e].
    assert (Hc3 : final_counter c = false).
    { destruct c; try discriminate; try reflexivity.
      exfalso. assert (Hn : @None (N * N) = None) by reflexivity.
      destruct Hnone as [_ Hnone]. specialize (Hnone eq_refl). discriminate. }
    assert (Hsame : forall k, final_counter k = true ->
              value_of k g2 = value_of k g).
    { intros k Hk. rewrite Hv by exact Hk. apply value_of_incr_other.
      intros ->. congruence. }
    destruct (l4_loop_final _ _ _ _ _ _ _ _ E1) as [c' [Hc' [Hinc Hrest]]].
    assert (Hg : g3 = g') by (destruct e; injection H as <- _; reflexivity).
    subst g3. exists c'. split; [exact Hc'|]. split.
    + rewrite Hinc, Hsame by exact Hc'. reflexivity.
    + intros k Hk Hne. rewrite Hrest, Hsame by assumption. reflexivity.
  - injection H as <- _.
    assert (Hc3 : c = Other_l3_packets) by (apply Hnone; reflexivity).
    subst c. exists Other_l3_packets. split; [reflexivity|]. split.
    + rewrite Hv by reflexivity. apply value_of_incr_same.
    + intros k Hk Hne. rewrite Hv by exact Hk.
      apply value_of_incr_other. exact Hne.
Qed.

Section Final.

Context {Nfa : Type} (is_in_lang : Nfa -> Word -> bool).
Variables aut1 aut2 : Nfa.

Lemma packetHandler_final (g g' : globals) (pkthdr : pcap_pkthdr)
    (packet : list byte) :
  packetHandler is_in_lang aut1 aut2 g pkthdr packet = Ok g' ->
  exists c,
    final_counter c = true /\
    value_of c g' = size_incr (value_of c g) /\
    forall k, final_counter k = true -> k <> c ->
              value_of k g' = value_of k g.
Proof.
  intro H.
  destruct (packetHandler_Ok _ _ _ _ _ _ _ H)
    as [v [g1 [w [Hv [Hget [_ [Hkeep _]]]]]]].
  unfold get_payload in Hget. bind_inv Hget. destruct a as [g2 r].
  bind_inv Hget. injection Hget as -> _.
  destruct (get_payload_range_final _ _ _ _ _ E) as [c [Hc [Hinc Hrest]]].
  assert (Hk1 : forall k, final_counter k = true ->
            value_of k g' = value_of k g1).
  { intros k Hk. apply Hkeep. destruct k; try discriminate; reflexivity. }
  assert (Hk0 : forall k, final_counter k = true ->
            value_of k (incr Total_packets (set_packet_lengths v g))
            = value_of k g).
  { intros k Hk. rewrite value_of_incr_other by (intros ->; discriminate).
    apply value_of_set_packet_lengths. }
  exists c. split; [exact Hc|]. split.
  - rewrite Hk1, Hinc, Hk0 by exact Hc. reflexivity.
  - intros k Hk Hne. rewrite Hk1, Hrest, Hk0 by assumption. reflexivity.
Qed.

(** X14.  Every frame ends at one counter.  Each handled frame increments
    exactly one of the ten counters TCP, UDP, ESP, ICMP, ICMPv6,
    IPv6-in-IPv4, other-L3, other-L4, GRE and PIM, so after a run of fewer
    than [2^64] frames their sum is the total. *)
Theorem final_counters_sum_to_total (frames : list frame) (g : globals) :
  sample is_in_lang aut1 aut2 frames = Ok g ->
  N.of_nat (length frames) < size_t_modulus ->
  final_sum g = total_packets g.
Proof.
  intros Hrun Hlt.
  assert (Hinv : N.of_nat (length frames) < size_t_modulus ->
                 total_packets g = N.of_nat (length frames) /\
                 final_sum g = N.of_nat (length frames)).
  { apply (sample_invariant is_in_lang aut1 aut2
             (fun g done =>
                N.of_nat (length done) < size_t_modulus ->
                total_packets g = N.of_nat (length done) /\
                final_sum g = N.of_nat (length done)));
      [ | | exact Hrun].
    - intros _. split; reflexivity.
    - intros g0 done pkthdr packet g0' HP Hh.
      rewrite length_app. simpl length. intro Hl.
      destruct HP as [Htot Hsum]; [lia|].
      destruct (packetHandler_step _ _ _ _ _ _ _ Hh) as [Htotal _].
      rewrite Htot, size_incr_small in Htotal by lia.
      split; [lia|].
      destruct (packetHandler_final _ _ _ _ Hh) as [c [Hc [Hinc Hrest]]].
      pose proof (Hrest Tcp_packets eq_refl) as R1.
      pose proof (Hrest Udp_packets eq_refl) as R2.
      pose proof (Hrest Esp_packets eq_refl) as R3.
      pose proof (Hrest Icmp_packets eq_refl) as R4.
      pose proof (Hrest Icmp6_packets eq_refl) as R5.
      pose proof (Hrest Ip6_in_ip4_packets eq_refl) as R6.
      pose proof (Hrest Other_l3_packets eq_refl) as R7.
      pose proof (Hrest Other_l4_packets eq_refl) as R8.
      pose proof (Hrest Gre_packets eq_refl) as R9.
      pose proof (Hrest Pim_packets eq_refl) as R10.
      clear Hrest. unfold final_sum in *.
      destruct c; try discriminate Hc; simpl in Hinc;
        repeat match goal with
        | R : ?a <> ?b -> _ |- _ =>
            first [ specialize (R ltac:(discriminate)) | clear R ]
        end;
        simpl in *;
        rewrite size_incr_small in Hinc by lia; lia. }
  destruct (Hinv Hlt) as [Htot Hsum]. congruence.
Qed.

End Final.

(** ** Chains of IPv6 fragment headers *)

Lemma l4_loop_fragment (fuel : nat) (g : globals) (packet : list byte)
    (ip_in_ip : bool) (offset nxt : N) :
  addressable packet ->
  read_u8 packet offset = Ok nxt ->
  l4_loop (S fuel) g packet ip_in_ip IPPROTO_FRAGMENT offset
  = l4_loop fuel (incr V6_fragment_packets g) packet ip_in_ip nxt
      (offset + sizeof_ip6_frag).
Proof.
  intros Haddr Hread. cbn [l4_loop]. unfold l4_iteration.
  change (IPPROTO_FRAGMENT =? IPPROTO_TCP) with false.
  change (IPPROTO_FRAGMENT =? IPPROTO_UDP) with false.
  change (IPPROTO_FRAGMENT =? IPPROTO_IPIP) with false.
  change (IPPROTO_FRAGMENT =? IPPROTO_ESP) with false.
  change (IPPROTO_FRAGMENT =? IPPROTO_ICMP) with false.
  change (IPPROTO_FRAGMENT =? IPPROTO_GRE) with false.
  change (IPPROTO_FRAGMENT =? IPPROTO_ICMPV6) with false.
  change (IPPROTO_FRAGMENT =? IPPROTO_FRAGMENT) with true.
  cbv iota. unfold offsetof_ip6f_nxt. rewrite N.add_0_r, Hread.
  cbv beta iota delta [bind].
  replace (size_add offset sizeof_ip6_frag) with (offset + sizeof_ip6_frag);
    [reflexivity|].
  apply read_u8_Ok_bound in Hread.
  unfold addressable, size_t_modulus in Haddr.
  unfold size_add, size_t_modulus, sizeof_ip6_frag.
  symmetry. apply N.mod_small. lia.
Qed.

(* [k + 1] fragment headers in a row, the last of which names [nxt] *)
Lemma l4_loop_fragments (packet : list byte) (ip_in_ip : bool) (nxt : N) :
  addressable packet ->
  forall (k fuel : nat) (g : globals) (offset : N),
    (forall i, (i < k)%nat ->
               read_u8 packet (offset + sizeof_ip6_frag * N.of_nat i)
               = Ok IPPROTO_FRAGMENT) ->
    read_u8 packet (offset + sizeof_ip6_frag * N.of_nat k) = Ok nxt ->
    l4_loop (S k + fuel) g packet ip_in_ip IPPROTO_FRAGMENT offset
    = l4_loop fuel (Nat.iter (S k) (incr V6_fragment_packets) g) packet
        ip_in_ip nxt (offset + sizeof_ip6_frag * N.of_nat (S k)).
Proof.
  intros Haddr k.
  induction k as [|k IH]; intros fuel g offset Hchain Hlast.
  - change (N.of_nat 0) with 0 in Hlast. rewrite N.mul_0_r, N.add_0_r in Hlast.
    change (1 + fuel)%nat with (S fuel).
    rewrite (l4_loop_fragment _ _ _ _ _ _ Haddr Hlast).
    change (N.of_nat 1) with 1. rewrite N.mul_1_r. reflexivity.
  - assert (Hfirst : read_u8 packet offset = Ok IPPROTO_FRAGMENT).
    { specialize (Hchain 0%nat ltac:(lia)).
      change (N.of_nat 0) with 0 in Hchain.
      rewrite N.mul_0_r, N.add_0_r in Hchain. exact Hchain. }
    change (S (S k) + fuel)%nat with (S (S k + fuel)).
    rewrite (l4_loop_fragment _ _ _ _ _ _ Haddr Hfirst).
    rewrite IH.
    + rewrite <- PeanoNat.Nat.iter_succ_r. f_equal. lia.
    + intros i Hi. specialize (Hchain (S i) ltac:(lia)).
      rewrite <- Hchain. f_equal. lia.
    + rewrite <- Hlast. f_equal. lia.
Qed.

Lemma value_of_iter_incr (c : counter) (n : nat) (g : globals) :
  value_of c g + N.of_nat n < size_t_modulus ->
  value_of c (Nat.iter n (incr c) g) = value_of c g + N.of_nat n.
Proof.
  induction n as [|n IH]; intro H.
  - simpl. lia.
  - rewrite PeanoNat.Nat.iter_succ, value_of_incr_same, IH by lia.
    rewrite size_incr_small by lia. lia.
Qed.

(** X15.  Fragment headers are followed one after the other.  For an
    untagged IPv6 frame with [k + 1] fragment extension headers in a row
    before a UDP header, the fragment counter is incremented [k + 1] times,
    the UDP counter once, and the payload starts at
    14 + 40 + 8 * (k + 1) + 8. *)
Theorem fragment_headers_are_followed (k : nat) (g : globals)
    (pkthdr : pcap_pkthdr) (packet : list byte) :
  addressable packet ->
  read_ntohs packet offsetof_ether_type = Ok ETHERTYPE_IPV6 ->
  read_u8 packet (sizeof_ether_header + offsetof_ip6_nxt)
  = Ok IPPROTO_FRAGMENT ->
  (forall i, (i < k)%nat ->
     read_u8 packet (sizeof_ether_header + sizeof_ip6_hdr
                     + sizeof_ip6_frag * N.of_nat i)
     = Ok IPPROTO_FRAGMENT) ->
  read_u8 packet (sizeof_ether_header + sizeof_ip6_hdr
                  + sizeof_ip6_frag * N.of_nat k) = Ok IPPROTO_UDP ->
  let first := sizeof_ether_header + sizeof_ip6_hdr
               + sizeof_ip6_frag * N.of_nat (S k) + sizeof_udphdr in
  let g' := incr Udp_packets
              (Nat.iter (S k) (incr V6_fragment_packets)
                 (incr Ipv6_packets g)) in
  get_payload_range g pkthdr packet
  = Ok (g', Range first (N.max (len pkthdr) first)) /\
  (v6_fragment_packets g + N.of_nat (S k) < size_t_modulus ->
   v6_fragment_packets g' = v6_fragment_packets g + N.of_nat (S k)).
Proof.
  intros Haddr Het Hnxt Hchain Hlast first g'.
  pose proof (read_u8_Ok_bound _ _ _ Hlast) as Hbound.
  unfold sizeof_ether_header, sizeof_ip6_hdr, sizeof_ip6_frag in Hbound.
  split.
  - unfold get_payload_range.
    rewrite (link_layer_untagged g packet ETHERTYPE_IPV6 Het) by discriminate.
    cbv beta iota delta [bind].
    rewrite (network_layer_ipv6 g packet _ _ Hnxt).
    cbv beta iota delta [bind].
    change (size_add sizeof_ether_header sizeof_ip6_hdr)
      with (sizeof_ether_header + sizeof_ip6_hdr).
    replace (loop_fuel packet) with (S k + S (S (length packet) - S k))%nat
      by (unfold loop_fuel; lia).
    rewrite (l4_loop_fragments packet false IPPROTO_UDP Haddr k _ _ _
               Hchain Hlast).
    rewrite l4_loop_udp. cbv beta iota delta [bind].
    replace (size_add (sizeof_ether_header + sizeof_ip6_hdr
                       + sizeof_ip6_frag * N.of_nat (S k)) sizeof_udphdr)
      with first; [reflexivity|].
    unfold first, size_add. symmetry. apply N.mod_small.
    unfold addressable, size_t_modulus in *.
    unfold sizeof_ether_header, sizeof_ip6_hdr, sizeof_ip6_frag,
      sizeof_udphdr. lia.
  - intro Hsmall. subst g'.
    change (v6_fragment_packets
              (incr Udp_packets
                 (Nat.iter (S k) (incr V6_fragment_packets)
                    (incr Ipv6_packets g))))
      with (value_of V6_fragment_packets
              (Nat.iter (S k) (incr V6_fragment_packets)
                 (incr Ipv6_packets g))).
    rewrite value_of_iter_incr; [reflexivity | exact Hsmall].
Qed.

Lemma fragment_headers_are_followed_witness :
  exists g',
    get_payload_range initial_globals (fst fragments_frame)
      (snd fragments_frame) = Ok (g', Range 78 90) /\
    v6_fragment_packets g' = 2 /\ udp_packets g' = 1.
Proof.
  pose proof (fragment_headers_are_followed 1 initial_globals
                (fst fragments_frame) (snd fragments_frame)) as H.
  destruct H as [Hrange Hcount].
  - vm_compute. discriminate.
  - reflexivity.
  - reflexivity.
  - intros [|i] Hi; [reflexivity | lia].
  - reflexivity.
  - eexists. split; [exact Hrange|].
    split; [apply Hcount; vm_compute; reflexivity | reflexivity].
Defined.

(** ** Termination *)

Lemma l4_protocols_length (packet : list byte) :
  addressable packet ->
  forall fuel g ip_in_ip l4_proto offset,
    (length (l4_protocols fuel g packet ip_in_ip l4_proto offset)
     <= S (loop_measure packet ip_in_ip offset))%nat.
Proof.
  intros Haddr fuel.
  induction fuel as [|fuel IH]; intros g ip_in_ip l4_proto offset;
    [simpl; lia|].
  cbn [l4_protocols length].
  destruct (l4_iteration g packet ip_in_ip l4_proto offset)
    as [[g' ip' l4' off' | g' e]| | |] eqn:Hit; try (simpl; lia).
  pose proof (l4_iteration_progress _ _ _ _ _ _ _ _ _ Haddr Hit) as Hlt.
  specialize (IH g' ip' l4' off'). lia.
Qed.

Section Termination.

Context {Nfa : Type} (is_in_lang : Nfa -> Word -> bool).
Variables aut1 aut2 : Nfa.

(** X16.  The transport loop ends.  Every iteration that continues has
    either set [ip_in_ip] or read a byte at the offset and moved the offset
    8 bytes forward, so for packets that fit the address space the loop
    dispatches at most 2 + (length - 34) times on a packet, and a run over
    the capture never fails to end: it returns, stops on the assertion or
    leaves a packet or the histogram. *)
Theorem sampler_run_terminates (frames : list frame) :
  Forall (fun f => addressable (snd f)) frames ->
  sample is_in_lang aut1 aut2 frames <> OutOfFuel /\
  Forall (fun f => (length (frame_l4_protocols (snd f))
                    <= 2 + (length (snd f) - 34))%nat) frames.
Proof.
  intro Hall. split; [apply pcap_loop_terminates; exact Hall|].
  apply Forall_forall. intros [pkthdr packet] Hin.
  rewrite Forall_forall in Hall. specialize (Hall _ Hin). simpl in Hall.
  simpl snd. unfold frame_l4_protocols, link_layer.
  destruct (read_ntohs_cases packet offsetof_ether_type) as [[et ->] | ->];
    cbv beta iota delta [bind]; [|simpl; lia].
  assert (Hnet : forall ga offset ether_type,
    14 <= offset <= 18 ->
    (length match network_layer ga packet offset ether_type with
            | Ok (g, Some (l4_proto, offset)) =>
                l4_protocols (loop_fuel packet) g packet false l4_proto
                  offset
            | _ => []
            end <= 2 + (length packet - 34))%nat).
  { intros ga offset ether_type Hoff. unfold network_layer.
    assert (Hadd : forall k, 20 <= k <= 40 ->
              34 <= size_add offset k).
    { intros k Hk. unfold size_add, size_t_modulus.
      rewrite N.mod_small by lia. lia. }
    assert (Hloop : forall g l4_proto off, 34 <= off ->
      (length (l4_protocols (loop_fuel packet) g packet false l4_proto off)
       <= 2 + (length packet - 34))%nat).
    { intros g l4_proto off Ho.
      pose proof (l4_protocols_length packet Hall (loop_fuel packet) g false
                    l4_proto off) as Hl.
      unfold loop_measure in Hl. lia. }
    destruct (ether_type =? ETHERTYPE_IP).
    - destruct (read_u8_cases packet (offset + offsetof_ip_p))
        as [[v ->] | ->]; cbv beta iota delta [bind]; [|simpl; lia].
      apply Hloop, Hadd. unfold sizeof_ip. lia.
    - destruct (ether_type =? ETHERTYPE_IPV6); [|simpl; lia].
      destruct (read_u8_cases packet (offset + offsetof_ip6_nxt))
        as [[v ->] | ->]; cbv beta iota delta [bind]; [|simpl; lia].
      apply Hloop, Hadd. unfold sizeof_ip6_hdr. lia. }
  destruct (et =? ETHERTYPE_VLAN).
  - destruct (read_ntohs_cases packet offsetof_vlan_ether_type)
      as [[et' ->] | ->]; cbv beta iota delta [bind]; [|simpl; lia].
    apply Hnet. unfold sizeof_vlan_ethhdr. lia.
  - apply Hnet. unfold sizeof_ether_header. lia.
Qed.

End Termination.

(** ** The further theorems at concrete captures *)

Lemma l4_messages_match_counter_witness :
  exists g,
    sample accepts (first_symbol_is 1) (first_symbol_is 2) varied_capture
    = Ok g /\
    N.of_nat (l4_messages g) = other_l4_packets g /\
    cout g = [Out_l4_protocol 0].
Proof.
  destruct (sample accepts (first_symbol_is 1) (first_symbol_is 2)
              varied_capture) as [g| | |] eqn:E;
    try (vm_compute in E; discriminate).
  exists g. split; [reflexivity|].
  split.
  - apply (l4_messages_match_counter accepts (first_symbol_is 1)
             (first_symbol_is 2) varied_capture g E).
    vm_compute. reflexivity.
  - change (match Ok g with Ok g0 => cout g0 | _ => [] end
            = [Out_l4_protocol 0]).
    rewrite <- E. vm_compute. reflexivity.
Defined.

Lemma ticks_bounded_by_total_witness :
  exists g,
    sample accepts (first_symbol_is 1) (first_symbol_is 2)
      (repeat udp_frame 1000) = Ok g /\
    N.of_nat (ticks g) = total_packets g / 1000 /\
    total_packets g = 1000.
Proof.
  destruct (sample accepts (first_symbol_is 1) (first_symbol_is 2)
              (repeat udp_frame 1000)) as [g| | |] eqn:E;
    try (vm_compute in E; discriminate).
  exists g. split; [reflexivity|].
  split.
  - apply (ticks_bounded_by_total accepts (first_symbol_is 1)
             (first_symbol_is 2) (repeat udp_frame 1000) g E);
      vm_compute; reflexivity.
  - change (match Ok g with Ok g0 => total_packets g0 | _ => 0 end = 1000).
    rewrite <- E. vm_compute. reflexivity.
Defined.

Lemma equivalent_acceptors_never_disagree_witness :
  exists g,
    sample accepts (first_symbol_is 1) (first_symbol_is 1) varied_capture
    = Ok g /\
    incons_packets g = 0 /\
    accepted_aut1 g = accepted_aut2 g /\
    disagreeing_frames accepts (first_symbol_is 1) (first_symbol_is 1)
      varied_capture = [] /\
    accepted_aut1 g = 2.
Proof.
  destruct (sample accepts (first_symbol_is 1) (first_symbol_is 1)
              varied_capture) as [g| | |] eqn:E;
    try (vm_compute in E; discriminate).
  exists g. split; [reflexivity|].
  destruct (equivalent_acceptors_never_disagree accepts (first_symbol_is 1)
              (first_symbol_is 1) varied_capture g
              (fun w => eq_refl) E) as [Hi [Ha Hd]].
  repeat (split; [assumption|]).
  change (match Ok g with Ok g0 => accepted_aut1 g0 | _ => 0 end = 2).
  rewrite <- E. vm_compute. reflexivity.
Defined.

Lemma sampling_counters_bounds_witness :
  exists g,
    sample accepts (first_symbol_is 1) (first_symbol_is 2) varied_capture
    = Ok g /\
    incons_packets g <= payloaded_packets g /\
    payloaded_packets g <= total_packets g /\
    (accepted_aut1 g, accepted_aut2 g, incons_packets g,
     payloaded_packets g, total_packets g) = (2, 1, 3, 4, 6).
Proof.
  destruct (sample accepts (first_symbol_is 1) (first_symbol_is 2)
              varied_capture) as [g| | |] eqn:E;
    try (vm_compute in E; discriminate).
  exists g. split; [reflexivity|].
  destruct (sampling_counters_bounds accepts (first_symbol_is 1)
              (first_symbol_is 2) varied_capture g E)
    as [Hp [_ [_ [Hi _]]]]; [vm_compute; reflexivity|].
  split; [exact Hi|]. split; [exact Hp|].
  change (match Ok g with
          | Ok g0 => (accepted_aut1 g0, accepted_aut2 g0, incons_packets g0,
                      payloaded_packets g0, total_packets g0)
          | _ => (0, 0, 0, 0, 0)
          end = (2, 1, 3, 4, 6)).
  rewrite <- E. vm_compute. reflexivity.
Defined.

Lemma packet_lengths_counts_frames_witness :
  exists g,
    sample accepts (first_symbol_is 1) (first_symbol_is 2) varied_capture
    = Ok g /\
    nth 60 (packet_lengths g) 0 = 4 /\
    nth 78 (packet_lengths g) 0 = 1 /\
    nth 61 (packet_lengths g) 0 = 0.
Proof.
  destruct (sample accepts (first_symbol_is 1) (first_symbol_is 2)
              varied_capture) as [g| | |] eqn:E;
    try (vm_compute in E; discriminate).
  exists g. split; [reflexivity|].
  assert (Hlt : N.of_nat (length varied_capture) < size_t_modulus)
    by (vm_compute; reflexivity).
  pose proof (packet_lengths_counts_frames accepts (first_symbol_is 1)
                (first_symbol_is 2) varied_capture g 60 E Hlt) as H60.
  pose proof (packet_lengths_counts_frames accepts (first_symbol_is 1)
                (first_symbol_is 2) varied_capture g 78 E Hlt) as H78.
  pose proof (packet_lengths_counts_frames accepts (first_symbol_is 1)
                (first_symbol_is 2) varied_capture g 61 E Hlt) as H61.
  split; [exact H60|]. split; [exact H78 | exact H61].
Defined.

Lemma final_counters_sum_to_total_witness :
  exists g,
    sample accepts (first_symbol_is 1) (first_symbol_is 2) varied_capture
    = Ok g /\
    final_sum g = total_packets g /\ total_packets g = 6.
Proof.
  destruct (sample accepts (first_symbol_is 1) (first_symbol_is 2)
              varied_capture) as [g| | |] eqn:E;
    try (vm_compute in E; discriminate).
  exists g. split; [reflexivity|].
  split.
  - apply (final_counters_sum_to_total accepts (first_symbol_is 1)
             (first_symbol_is 2) varied_capture g E).
    vm_compute. reflexivity.
  - change (match Ok g with Ok g0 => total_packets g0 | _ => 0 end = 6).
    rewrite <- E. vm_compute. reflexivity.
Defined.

Lemma sampler_run_terminates_witness :
  sample accepts (first_symbol_is 1) (first_symbol_is 2)
    [fragments_frame; runt_frame] <> OutOfFuel /\
  (length (frame_l4_protocols (snd fragments_frame)) <= 2 + (90 - 34))%nat.
Proof.
  destruct (sampler_run_terminates accepts (first_symbol_is 1)
              (first_symbol_is 2) [fragments_frame; runt_frame])
    as [Hrun Hbound].
  - repeat constructor; vm_compute; discriminate.
  - split; [exact Hrun|].
    inversion Hbound as [|f rest Hf _]. exact Hf.
Defined.

Lemma main_success_witness :
  exists g,
    main accepts (fun _ : string => Some tt)
      (fun _ : unit => @inr string unit tt)
      (fun _ : unit => @inr string (Word -> bool) (first_symbol_is 1))
      (fun _ => EmptyString)
      (fun _ : string =>
         @inr string pcap_t
           {| pcap_frames := varied_capture; pcap_geterr := None |})
      ["diff-sampler"; "aut1.vtf"; "aut2.vtf"; "packets.pcap"]%string
    = Ok (EXIT_SUCCESS, g).
Proof.
  destruct (sample accepts (first_symbol_is 1) (first_symbol_is 1)
              varied_capture) as [g| | |] eqn:E;
    try (vm_compute in E; discriminate).
  eexists.
  exact (main_success accepts (fun _ : string => Some tt)
      (fun _ : unit => @inr string unit tt)
      (fun _ : unit => @inr string (Word -> bool) (first_symbol_is 1))
      (fun _ => EmptyString)
      (fun _ : string =>
         @inr string pcap_t
           {| pcap_frames := varied_capture; pcap_geterr := None |})
      "diff-sampler" "aut1.vtf" "aut2.vtf" "packets.pcap"
      (first_symbol_is 1) (first_symbol_is 1)
      {| pcap_frames := varied_capture; pcap_geterr := None |} g
      eq_refl eq_refl eq_refl eq_refl E).
Defined.
